(** * obsidian-to-org: the text transforms and the two link-rewriting passes

    A shallow embedding of [src/obsidian_to_org/__main__.py].

    Python [str] values are sequences of Unicode code points; they are
    modelled as lists of code points ([N]).  Every regular expression of the
    program is kept as a piece of syntax ([regex]) and run by a small
    backtracking matcher that follows the priorities of Python's [re]
    module (greedy and lazy repetition, ordered alternation, capture
    groups, MULTILINE anchors, negative lookahead); [re_sub] follows the
    scanning loop of [Pattern.sub].  The dictionary [nodes] is a [gmap].
    A file holds bytes; [read_text] decodes them with the codec of the
    locale and translates the line ends, as Python's text mode does. *)

From Stdlib Require Import NArith List Ascii String Bool Lia.
From Stdlib Require Strings.Byte.
From stdpp Require Import gmap.
Import ListNotations.

Local Open Scope list_scope.
Local Open Scope nat_scope.

#[local] Arguments N.eqb : simpl never.
#[local] Arguments N.leb : simpl never.

(** ** Strings *)

(** An ASCII literal of the source, as code points. *)
Definition lit (s : string) : list N := map N_of_ascii (list_ascii_of_string s).
Arguments lit s%_string.

Definition NBSP : N := 160.      (* U+00A0 *)
Definition LF : N := 10.
Definition CR : N := 13.
Definition DQUOTE : N := 34.
Definition HBAR : N := 8213.     (* U+2015, the attribution dash *)

(** [str.isspace] of one code point, which is also [\s] of a [str] pattern. *)
Definition is_space (c : N) : bool :=
  ((9 <=? c) && (c <=? 13) || (28 <=? c) && (c <=? 32) || (c =? 133) || (c =? 160)
   || (c =? 5760) || (8192 <=? c) && (c <=? 8202) || (c =? 8232) || (c =? 8233)
   || (c =? 8239) || (c =? 8287) || (c =? 12288))%N.

(** the line boundaries of [str.splitlines] *)
Definition is_linebreak (c : N) : bool :=
  ((10 <=? c) && (c <=? 13) || (28 <=? c) && (c <=? 30) || (c =? 133)
   || (c =? 8232) || (c =? 8233))%N.

Fixpoint lstrip (s : list N) : list N :=
  match s with
  | c :: s' => if is_space c then lstrip s' else s
  | [] => []
  end.

Definition rstrip (s : list N) : list N := rev (lstrip (rev s)).

(** [s.strip()] *)
Definition strip (s : list N) : list N := rstrip (lstrip s).

(** [needle in s] for a one-character needle *)
Definition contains (c : N) (s : list N) : bool := existsb (N.eqb c) s.

(** [s.startswith(p)] *)
Fixpoint starts_with (p s : list N) : bool :=
  match p, s with
  | [], _ => true
  | a :: p', b :: s' => (a =? b)%N && starts_with p' s'
  | _ :: _, [] => false
  end.

(** [s.splitlines(True)]: the lines with their terminators; a carriage
    return directly followed by a line feed does not end the line, the
    line feed does. *)
Fixpoint splitlines_go (s cur : list N) : list (list N) :=
  match s with
  | [] => match cur with [] => [] | _ => [rev cur] end
  | c :: s' =>
      if is_linebreak c && negb ((c =? CR)%N && starts_with [LF] s')
      then rev (c :: cur) :: splitlines_go s' []
      else splitlines_go s' (c :: cur)
  end.

Definition splitlines (s : list N) : list (list N) := splitlines_go s [].

(** The scanning loop shared by [str.replace] and [str.split] for a
    non-empty needle: leftmost occurrences, never overlapping.  [skip]
    counts the characters of the occurrence just found that are still to
    be passed over. *)
Fixpoint replace_go (old new s : list N) (skip : nat) : list N :=
  match s with
  | [] => []
  | c :: s' =>
      match skip with
      | S n => replace_go old new s' n
      | 0 => if starts_with old s
             then new ++ replace_go old new s' (length old - 1)
             else c :: replace_go old new s' 0
      end
  end.

(** [s.replace(old, new)], [old] not empty *)
Definition replace (old new s : list N) : list N := replace_go old new s 0.

Fixpoint split_go (sep s cur : list N) (skip : nat) : list (list N) :=
  match s with
  | [] => [rev cur]
  | c :: s' =>
      match skip with
      | S n => split_go sep s' cur n
      | 0 => if starts_with sep s
             then rev cur :: split_go sep s' [] (length sep - 1)
             else split_go sep s' (c :: cur) 0
      end
  end.

(** [s.split(sep)], [sep] not empty *)
Definition split (sep s : list N) : list (list N) := split_go sep s [] 0.

(** ** Regular expressions *)

Inductive atom :=
| AChr (c : N)        (* a character of a class *)
| ASpace.             (* \s inside a class *)

Inductive cclass :=
| Dot                           (* .  : anything but a line feed *)
| OneOf (items : list atom)     (* [...] *)
| NoneOf (items : list atom).   (* [^...] *)

Definition in_atom (c : N) (a : atom) : bool :=
  match a with
  | AChr x => (c =? x)%N
  | ASpace => is_space c
  end.

Definition in_class (k : cclass) (c : N) : bool :=
  match k with
  | Dot => negb (c =? LF)%N
  | OneOf items => existsb (in_atom c) items
  | NoneOf items => negb (existsb (in_atom c) items)
  end.

(** The patterns of the program only repeat single characters and
    classes, so [Rep] takes a class; [x?] is [Alt x Eps]. *)
Inductive regex :=
| Eps
| Lit (c : N)
| Cls (k : cclass)
| Seq (r1 r2 : regex)
| Alt (r1 r2 : regex)
| Rep (k : cclass) (min : nat) (greedy : bool)   (* k*, k+, k*?, k+? *)
| Grp (n : nat) (r : regex)                      (* capture group n *)
| Bol                                            (* ^ under re.MULTILINE *)
| Eol                                            (* $ under re.MULTILINE *)
| NotAhead (r : regex).                          (* (?!r) *)

Definition Opt (r : regex) : regex := Alt r Eps.

Fixpoint seq (rs : list regex) : regex :=
  match rs with
  | [] => Eps
  | r :: rs' => Seq r (seq rs')
  end.

(** the characters of a literal, then [r] *)
Fixpoint lits (s : list N) (r : regex) : regex :=
  match s with
  | [] => r
  | c :: s' => Seq (Lit c) (lits s' r)
  end.

Definition chars (s : string) : list atom := map AChr (lit s).
Arguments chars s%_string.

Definition caps := list (nat * list N).

Section Matcher.
Context {A : Type}.

(** greedy repetition: take as many as possible, give back one at a time *)
Fixpoint rep_greedy (p : N -> bool) (min : nat) (pv : option N) (s : list N)
         (k : option N -> list N -> option A) : option A :=
  let stop := match min with 0 => k pv s | S _ => None end in
  match s with
  | c :: s' =>
      if p c then
        match rep_greedy p (pred min) (Some c) s' k with
        | Some a => Some a
        | None => stop
        end
      else stop
  | [] => stop
  end.

(** lazy repetition: take as few as possible, one more at a time *)
Fixpoint rep_lazy (p : N -> bool) (min : nat) (pv : option N) (s : list N)
         (k : option N -> list N -> option A) : option A :=
  let more := match s with
              | c :: s' => if p c then rep_lazy p (pred min) (Some c) s' k else None
              | [] => None
              end in
  match min with
  | 0 => match k pv s with Some a => Some a | None => more end
  | S _ => more
  end.
End Matcher.

Definition at_bol (pv : option N) : bool :=
  match pv with None => true | Some c => (c =? LF)%N end.

Definition at_eol (s : list N) : bool :=
  match s with [] => true | c :: _ => (c =? LF)%N end.

(** [mtch r pv s g k]: match [r] at the head of [s] ([pv] is the character
    before it, [g] the groups so far) and hand over to [k]; alternatives
    are tried in Python's order and the first success is the answer. *)
Fixpoint mtch (A : Type) (r : regex) (pv : option N) (s : list N) (g : caps)
         (k : option N -> list N -> caps -> option A) : option A :=
  match r with
  | Eps => k pv s g
  | Lit c =>
      match s with
      | x :: s' => if (x =? c)%N then k (Some x) s' g else None
      | [] => None
      end
  | Cls cl =>
      match s with
      | x :: s' => if in_class cl x then k (Some x) s' g else None
      | [] => None
      end
  | Seq r1 r2 => mtch A r1 pv s g (fun pv' s' g' => mtch A r2 pv' s' g' k)
  | Alt r1 r2 =>
      match mtch A r1 pv s g k with
      | Some a => Some a
      | None => mtch A r2 pv s g k
      end
  | Rep cl min true => rep_greedy (in_class cl) min pv s (fun pv' s' => k pv' s' g)
  | Rep cl min false => rep_lazy (in_class cl) min pv s (fun pv' s' => k pv' s' g)
  | Grp n r1 =>
      mtch A r1 pv s g
           (fun pv' s' g' => k pv' s' ((n, firstn (length s - length s') s) :: g'))
  | Bol => if at_bol pv then k pv s g else None
  | Eol => if at_eol s then k pv s g else None
  | NotAhead r1 =>
      match mtch unit r1 pv s g (fun _ _ _ => Some tt) with
      | Some _ => None
      | None => k pv s g
      end
  end.
Arguments mtch {A} r pv s g k.

(** A match object: the text matched and the groups. *)
Record Match := { m_text : list N; m_caps : caps }.

Fixpoint cap_get (n : nat) (g : caps) : list N :=
  match g with
  | [] => []
  | (i, v) :: g' => if Nat.eqb i n then v else cap_get n g'
  end.

(** [m.group(n)] *)
Definition group (m : Match) (n : nat) : list N :=
  match n with
  | 0 => m_text m
  | _ => cap_get n (m_caps m)
  end.

(** One attempt at one position.  [must_advance] refuses an empty match,
    as the scanning loop asks right after an empty match. *)
Definition finish (must_advance : bool) (s : list N)
  : option N -> list N -> caps -> option Match :=
  fun _ s' g =>
    let n := length s - length s' in
    if must_advance && Nat.eqb n 0 then None
    else Some {| m_text := firstn n s; m_caps := g |}.

Definition match_at (r : regex) (must_advance : bool) (pv : option N) (s : list N)
  : option Match :=
  mtch r pv s [] (finish must_advance s).

(** [re.match(r, s)] as a truth value *)
Definition re_match (r : regex) (s : list N) : bool :=
  match match_at r false None s with Some _ => true | None => false end.

(** The loop of [Pattern.sub]: search from the end of the previous match;
    copy the text between matches; after an empty match the next one must
    be longer or start further on. *)
Fixpoint sub_go (r : regex) (repl : Match -> list N) (pv : option N) (s : list N)
         (skip : nat) : list N :=
  match s with
  | [] =>
      match skip with
      | 0 => match match_at r false pv [] with Some m => repl m | None => [] end
      | S _ => []
      end
  | c :: s' =>
      match skip with
      | S n => sub_go r repl (Some c) s' n
      | 0 =>
          match match_at r false pv s with
          | None => c :: sub_go r repl (Some c) s' 0
          | Some m =>
              match length (m_text m) with
              | S n => repl m ++ sub_go r repl (Some c) s' n
              | 0 =>
                  repl m ++
                  match match_at r true pv s with
                  | Some m' => repl m' ++ sub_go r repl (Some c) s' (length (m_text m') - 1)
                  | None => c :: sub_go r repl (Some c) s' 0
                  end
              end
          end
      end
  end.

(** [r.sub(repl, s)] *)
Definition re_sub (r : regex) (repl : Match -> list N) (s : list N) : list N :=
  sub_go r repl None s 0.

(** ** The patterns of the program *)

Definition COMMENT_MARKER : list N := lit "#!#comment:".

(** [^---\n(.+)], MULTILINE *)
Definition RULER_RE : regex :=
  Seq Bol (lits (lit "---" ++ [LF]) (Grp 1 (Rep Dot 1 true))).

(** [!\[\[([^\]|]+)] then, optionally, [\|] and [[^\]]*], then [\]\]] *)
Definition EMBED_RE : regex :=
  lits (lit "![[")
       (seq [Grp 1 (Rep (NoneOf (chars "]|")) 1 true);
             Opt (Seq (Lit 124) (Rep (NoneOf (chars "]")) 0 true));
             Lit 93; Lit 93]).

(** [\[\[([^\]|]+)\|([^\]]+)\]\]] *)
Definition WIKI_DESC_RE : regex :=
  lits (lit "[[")
       (seq [Grp 1 (Rep (NoneOf (chars "]|")) 1 true);
             Lit 124;
             Grp 2 (Rep (NoneOf (chars "]")) 1 true);
             Lit 93; Lit 93]).

(** [\[\[([^\]|\[]+)\]\]] *)
Definition WIKI_SIMPLE_RE : regex :=
  lits (lit "[[")
       (seq [Grp 1 (Rep (NoneOf (chars "]|[")) 1 true); Lit 93; Lit 93]).

(** [\[\[file:(.*?)\]\[(.*?)\]\]] *)
Definition FILE_LINK_RE : regex :=
  lits (lit "[[file:")
       (seq [Grp 1 (Rep Dot 0 false); Lit 93; Lit 91;
             Grp 2 (Rep Dot 0 false); Lit 93; Lit 93]).

(** [\[\[([^\]|\[]+)\]\]] *)
Definition BARE_LINK_RE : regex :=
  lits (lit "[[")
       (seq [Grp 1 (Rep (NoneOf (chars "]|[")) 1 true); Lit 93; Lit 93]).

(** [\n[ \t]*\n(\#\+end_quote)] *)
Definition END_QUOTE_FIX_RE : regex :=
  seq [Lit LF; Rep (OneOf [AChr 32; AChr 9]) 0 true; Lit LF;
       Grp 1 (lits (lit "#+end_quote") Eps)].

(** [^> >\s?] then group 1, which is [.*], then [$]; MULTILINE *)
Definition DOUBLE_BQ_RE : regex :=
  Seq Bol (lits (lit "> >")
                (seq [Opt (Cls (OneOf [ASpace])); Grp 1 (Rep Dot 0 true); Eol])).

(** [https?://|.*/|.*\..*], the test of [simple_repl] *)
Definition URL_OR_PATH_RE : regex :=
  Alt (lits (lit "http") (Seq (Opt (Lit 115)) (lits (lit "://") Eps)))
      (Alt (seq [Rep Dot 0 true; Lit 47])
           (seq [Rep Dot 0 true; Lit 46; Rep Dot 0 true])).

(** [^] then group 1, which is [[ \t]*], then [- ]; MULTILINE *)
Definition LIST_ITEM_RE : regex :=
  Seq Bol (seq [Grp 1 (Rep (OneOf [AChr 32; AChr 9]) 0 true); Lit 45; Lit 32]).

(** [^] then U+2015 then [(?! )]; MULTILINE *)
Definition ATTRIBUTION_RE : regex :=
  seq [Bol; Lit HBAR; NotAhead (Lit 32)].

(** [[\u00A0]] *)
Definition NBSP_RE : regex := Cls (OneOf [AChr NBSP]).

(** [[\u00A0\s]+] *)
Definition WS_RUN_RE : regex := Rep (OneOf [AChr NBSP; ASpace]) 1 true.

(** ** Text Normalizer *)

(** [DOUBLE_BQ_RE.sub(r'> "\1"', md)] *)
Definition fix_double_blockquotes (md : list N) : list N :=
  re_sub DOUBLE_BQ_RE (fun m => lit "> " ++ [DQUOTE] ++ group m 1 ++ [DQUOTE]) md.

(** What the loop of [fix_markdown_comments] adds to [out] for a chunk met
    while [inside] is true. *)
Definition comment_chunk (chunk : list N) : list (list N) :=
  if contains LF chunk then
    let lines := splitlines chunk in
    let lines := match lines with
                 | l0 :: rest => match strip l0 with [] => rest | _ => lines end
                 | [] => lines
                 end in
    map (fun l => COMMENT_MARKER ++ l) lines
  else [lit "<!--"; chunk; lit "-->"].

(** the [for chunk in chunks] loop, with its two variables *)
Fixpoint comments_loop (chunks : list (list N)) (inside : bool) (out : list (list N))
  : list (list N) :=
  match chunks with
  | [] => out
  | chunk :: rest =>
      if negb inside
      then comments_loop rest true (out ++ [chunk])
      else comments_loop rest false (out ++ comment_chunk chunk)
  end.

Definition fix_markdown_comments (markdown_contents : list N) : list N :=
  concat (comments_loop (split (lit "%%") markdown_contents) false []).

Definition restore_comments (org_contents : list N) : list N :=
  concat (map (replace COMMENT_MARKER (lit "# ")) (splitlines org_contents)).

Definition prepare_markdown_text (md : list N) : list N :=
  let md := fix_double_blockquotes md in
  let md := fix_markdown_comments md in
  re_sub RULER_RE (fun m => lit "---" ++ [LF; LF] ++ group m 1) md.

(** ** Link Rewriter, pass 1 *)

Definition embed_repl (m : Match) : list N :=
  let fname := group m 1 in
  lit "[[file:../attachments/" ++ fname ++ lit "]]".

Definition desc_repl (m : Match) : list N :=
  lit "[[file:" ++ group m 1 ++ lit ".org][" ++ group m 2 ++ lit "]]".

Definition simple_repl (m : Match) : list N :=
  let page := group m 1 in
  if re_match URL_OR_PATH_RE page then group m 0
  else lit "[[file:" ++ page ++ lit ".org][" ++ page ++ lit "]]".

Definition fix_links (org : list N) : list N :=
  let org := re_sub EMBED_RE embed_repl org in
  let org := re_sub WIKI_DESC_RE desc_repl org in
  let org := re_sub WIKI_SIMPLE_RE simple_repl org in
  org.

Definition list_item_repl (m : Match) : list N :=
  let orig := group m 1 in
  let new_indent := repeat 32%N (length orig * 2) in
  new_indent ++ lit "- ".

Definition fix_list_indent (text : list N) : list N :=
  re_sub LIST_ITEM_RE list_item_repl text.

Definition fix_attribution_space (text : list N) : list N :=
  re_sub ATTRIBUTION_RE (fun _ => [HBAR; 32%N]) text.

(** ** Paths ([pathlib], POSIX flavour) *)

(** the components of a path: the pieces between slashes, without the
    empty ones and the single dots *)
Definition path_parts (p : list N) : list (list N) :=
  List.filter (fun x => negb (bool_decide (x = []) || bool_decide (x = lit "."))) (split (lit "/") p).

(** [PurePath.name] *)
Definition path_name (p : list N) : list N := List.last (path_parts p) [].

Fixpoint rfind_go (c : N) (s : list N) (i : nat) (best : option nat) : option nat :=
  match s with
  | [] => best
  | x :: s' => rfind_go c s' (S i) (if (x =? c)%N then Some i else best)
  end.

(** [s.rfind(c)], [None] for -1 *)
Definition rfind (c : N) (s : list N) : option nat := rfind_go c s 0 None.

(** the index of the dot that starts the suffix: [0 < i < len(name) - 1] *)
Definition suffix_index (name : list N) : option nat :=
  match rfind 46 name with
  | Some i => if (0 <? i) && (i <? length name - 1) then Some i else None
  | None => None
  end.

(** [PurePath.suffix] *)
Definition path_suffix (p : list N) : list N :=
  let name := path_name p in
  match suffix_index name with Some i => skipn i name | None => [] end.


(** [PurePath.stem], from the name *)
Definition stem_of_name (name : list N) : list N :=
  match suffix_index name with Some i => firstn i name | None => name end.

Definition path_stem (p : list N) : list N := stem_of_name (path_name p).

(** [PurePath.with_suffix] on the name of a path that has one *)
Definition name_with_suffix (name suffix : list N) : list N :=
  match suffix_index name with
  | Some i => firstn i name ++ suffix
  | None => name ++ suffix
  end.

(** ** Identifier Registry *)

(** [re.sub(r"[\u00A0\s]+", " ", stem).strip()] *)
Definition node_key (stem : list N) : list N :=
  strip (re_sub WS_RUN_RE (fun _ => lit " ") stem).

Record job := { job_md : list N; job_org : list N; job_id : list N }.

(** One round of the first loop of [convert_directory] on a walked file,
    given by its path relative to the input directory; [fresh] is the
    value of [str(uuid.uuid4()).upper()] if this round draws one.  (The
    copy of a file that is not Markdown is an effect on the output tree
    only and is left out.) *)
Definition assign_step (out_dir : list N)
           (st : gmap (list N) (list N) * list job) (f : list N * list N)
  : gmap (list N) (list N) * list job :=
  let '(rel, fresh) := f in
  let '(nodes, jobs) := st in
  if bool_decide (path_name rel = lit ".DS_Store") then st
  else if negb (bool_decide (path_suffix rel = lit ".md")) then st
  else
    let org_name := name_with_suffix (path_name rel) (lit ".org") in
    let org_full := out_dir ++ lit "/" ++ firstn (length rel - length (path_name rel)) rel
                            ++ org_name in
    let nid := fresh in
    let key := node_key (stem_of_name org_name) in
    (<[key := nid]> nodes, jobs ++ [{| job_md := rel; job_org := org_full; job_id := nid |}]).

(** the whole first loop, over the files in walk order *)
Definition assign_ids (out_dir : list N) (files : list (list N * list N))
  : gmap (list N) (list N) * list job :=
  fold_left (assign_step out_dir) files (∅, []).

(** ** Files *)

(** A file holds bytes.  The program reads and writes text without naming
    an encoding, so the codec is the one of the locale; it is a parameter
    here.  Decoding and encoding are strict: both can fail (a
    [UnicodeError]). *)
Record codec := {
  codec_decode : list Byte.byte -> option (list N);
  codec_encode : list N -> option (list Byte.byte)
}.

(** The translation of line ends on reading in text mode (universal
    newlines): a carriage return, alone or followed by a line feed, is
    read as a line feed.  [after_cr] tells whether the character before
    was a carriage return. *)
Fixpoint newlines_go (after_cr : bool) (s : list N) : list N :=
  match s with
  | [] => []
  | c :: s' =>
      if (c =? CR)%N then LF :: newlines_go true s'
      else if (c =? LF)%N && after_cr then newlines_go false s'
      else c :: newlines_go false s'
  end.

Definition universal_newlines (s : list N) : list N := newlines_go false s.

(** [p.read_text()]: [None] when the file is missing or its bytes do not
    decode *)
Definition read_text (c : codec) (fs : gmap (list N) (list Byte.byte)) (p : list N)
  : option (list N) :=
  bytes ← fs !! p;
  s ← codec_decode c bytes;
  Some (universal_newlines s).

(** [p.write_text(s)], and writing [s] to [p] opened with mode ["w"], on a
    POSIX system, where a line feed is written as it is: [None] when the
    text does not encode *)
Definition write_text (c : codec) (fs : gmap (list N) (list Byte.byte)) (p s : list N)
  : option (gmap (list N) (list Byte.byte)) :=
  bytes ← codec_encode c s;
  Some (<[p := bytes]> fs).

(** ** Link Rewriter, pass 2 *)

(** the truth value of an optional string: [None] and the empty string are false *)
Definition truthy (o : option (list N)) : option (list N) :=
  match o with
  | Some (c :: s) => Some (c :: s)
  | _ => None
  end.

Definition repl_file (nodes : gmap (list N) (list N)) (m : Match) : list N :=
  let raw := group m 1 in
  let label := group m 2 in
  let label := re_sub NBSP_RE (fun _ => lit " ") label in
  let stem := path_stem raw in
  let norm := strip (re_sub WS_RUN_RE (fun _ => lit " ") stem) in
  match truthy (nodes !! norm) with
  | Some nid => lit "[[id:" ++ nid ++ lit "][" ++ label ++ lit "]]"
  | None => group m 0
  end.

Definition repl_bare (nodes : gmap (list N) (list N)) (m : Match) : list N :=
  let name_norm := re_sub NBSP_RE (fun _ => lit " ") (group m 1) in
  let key := strip name_norm in
  match truthy (nodes !! key) with
  | Some nid => lit "[[id:" ++ nid ++ lit "][" ++ name_norm ++ lit "]]"
  | None => group m 0
  end.

(** the body of the second loop of [convert_directory] on the text of one
    converted file *)
Definition relink (nodes : gmap (list N) (list N)) (text : list N) : list N :=
  let text := re_sub FILE_LINK_RE (repl_file nodes) text in
  let text := re_sub BARE_LINK_RE (repl_bare nodes) text in
  text.


(** ** Conversion Worker *)

(** The file system is a map from paths to the bytes of the files. *)
Section Worker.
Variable c : codec.
(** the external converter: the bytes it writes to the output file for
    the bytes of the temporary file, or [None] when it cannot be run or
    exits with an error ([check=True] then raises) *)
Variable pandoc : list Byte.byte -> option (list Byte.byte).

Definition convert_markdown_file (fs : gmap (list N) (list Byte.byte))
           (md_file org_file : list N) : option (gmap (list N) (list Byte.byte)) :=
  md ← read_text c fs md_file;
  let contents := prepare_markdown_text md in
  (* tmp.write(contents): the temporary file is opened in text mode *)
  tmp ← codec_encode c contents;
  out ← pandoc tmp;
  let fs := <[org_file := out]> fs in
  org ← read_text c fs org_file;
  let org := restore_comments org in
  let org := fix_links org in
  let org := re_sub END_QUOTE_FIX_RE (fun m => [LF] ++ group m 1) org in
  let org := fix_list_indent org in
  let org := fix_attribution_space org in
  write_text c fs org_file org.

(** [f] is the text written so far to the file reopened for writing,
    which starts empty; each [f.write] appends to it, and the encoder of
    the file encodes the whole as one text. *)
Definition add_node_id (fs : gmap (list N) (list Byte.byte)) (org_file node_id : list N)
  : option (gmap (list N) (list Byte.byte)) :=
  content ← read_text c fs org_file;
  let f := [] in
  let f := f ++ (lit ":PROPERTIES:" ++ [LF]) in
  let f := f ++ (lit ":ID: " ++ node_id ++ [LF]) in
  let f := f ++ (lit ":END:" ++ [LF]) in
  let f := f ++ (lit "#+title: " ++ path_stem org_file ++ [LF; LF]) in
  let f := f ++ content in
  write_text c fs org_file f.

(** returns the new file system and [md_path.name] *)
Definition worker_convert (fs : gmap (list N) (list Byte.byte)) (args : job)
  : option (gmap (list N) (list Byte.byte) * list N) :=
  let '{| job_md := md_path; job_org := org_path; job_id := node_id |} := args in
  fs ← convert_markdown_file fs md_path org_path;
  fs ← add_node_id fs org_path node_id;
  Some (fs, path_name md_path).
End Worker.

(** ** Vocabulary of the statements *)

(** the character before the position reached after reading [a] *)
Fixpoint pv_after (pv : option N) (a : list N) : option N :=
  match a with
  | [] => pv
  | c :: a' => pv_after (Some c) a'
  end.

(** [clash l a]: [a] differs from [l] at a position both have, so no
    text that starts with [a] starts with [l] *)
Fixpoint clash (l a : list N) : bool :=
  match l, a with
  | x :: l', y :: a' => negb (x =? y)%N || clash l' a'
  | _, _ => false
  end.

(** [inert l a]: no occurrence of [l] can start inside [a], whatever
    follows [a] *)
Fixpoint inert (l a : list N) : bool :=
  match a with
  | [] => true
  | _ :: a' => clash l a && inert l a'
  end.

(** [occurs l s]: [l] occurs somewhere in [s] *)
Fixpoint occurs (l s : list N) : bool :=
  match s with
  | [] => starts_with l []
  | _ :: s' => starts_with l s || occurs l s'
  end.

(** the last character of [l], if any, does not occur in [old] *)
Fixpoint ends_outside (old l : list N) : bool :=
  match l with
  | [] => true
  | c :: l' => match l' with [] => negb (contains c old) | _ => ends_outside old l' end
  end.

(** text before a link that cannot take part in any link: it has no
    double opening bracket and ends neither with an opening bracket nor
    with an exclamation mark *)
Definition calm (pre : list N) : bool :=
  negb (occurs (lit "[[") pre) && ends_outside (lit "[!") pre.

(** no [^] anywhere in the pattern *)
Fixpoint anchor_free (r : regex) : bool :=
  match r with
  | Bol => false
  | Seq r1 r2 | Alt r1 r2 => anchor_free r1 && anchor_free r2
  | Grp _ r1 | NotAhead r1 => anchor_free r1
  | _ => true
  end.

(** the text up to the first line feed *)
Fixpoint first_line (s : list N) : list N :=
  match s with
  | [] => []
  | c :: s' => if (c =? LF)%N then [] else c :: first_line s'
  end.

(** a slash or a dot on the first line *)
Definition looks_external (page : list N) : bool :=
  contains 47 (first_line page) || contains 46 (first_line page).

(** the characters a bare link may hold: [[^\]|\[]] *)
Definition link_char (c : N) : bool := in_class (NoneOf (chars "]|[")) c.

(** the characters an embed name may hold: [[^\]|]] *)
Definition name_char (c : N) : bool := in_class (NoneOf (chars "]|")) c.

(** the characters a size hint or a label may hold: [[^\]]] *)
Definition hint_char (c : N) : bool := in_class (NoneOf (chars "]")) c.

(** an optional size hint of an embed: nothing, or a bar and the hint *)
Definition size_hint (h : list N) : bool :=
  match h with
  | [] => true
  | c :: size => (c =? 124)%N && forallb hint_char size
  end.

(** what [re.sub(r"[\u00A0]", " ", s)] does to one character *)
Definition nbsp_to_space (c : N) : N := if (c =? NBSP)%N then 32%N else c.

(** the shape of [str(uuid.uuid4()).upper()]: digits, A to F and dashes *)
Definition id_char (c : N) : bool :=
  ((48 <=? c) && (c <=? 57) || (65 <=? c) && (c <=? 70) || (c =? 45))%N.

Definition id_shaped (nid : list N) : bool :=
  match nid with
  | [] => false
  | _ => forallb id_char nid
  end.

(** the registry key a walked file gets in the first loop, if it gets one *)
Definition doc_key (rel : list N) : option (list N) :=
  if bool_decide (path_name rel = lit ".DS_Store") then None
  else if negb (bool_decide (path_suffix rel = lit ".md")) then None
  else Some (node_key (stem_of_name (name_with_suffix (path_name rel) (lit ".org")))).

(** what follows the conversion proper in [convert_markdown_file] *)
Definition post_process (org : list N) : list N :=
  let org := restore_comments org in
  let org := fix_links org in
  let org := re_sub END_QUOTE_FIX_RE (fun m => [LF] ++ group m 1) org in
  let org := fix_list_indent org in
  let org := fix_attribution_space org in
  org.

(** the characters that are not an opening bracket *)
Definition nobr (c : N) : bool := negb (c =? 91)%N.

Definition head_nobr (a : list N) : bool :=
  match a with c :: _ => nobr c | [] => false end.

(** the characters a lazy [.*?] passes before a closing bracket *)
Definition plain_char (c : N) : bool := in_class Dot c && negb (c =? 93)%N.

(** [https?://] at the start *)
Definition is_url (page : list N) : bool :=
  starts_with (lit "http://") page || starts_with (lit "https://") page.

(** a repetition stops at [b]: nothing is left or the next character is
    not of the class *)
Definition stops (p : N -> bool) (b : list N) : bool :=
  match b with [] => true | c :: _ => negb (p c) end.

(** no match of [r] starts inside [a], whatever follows [a] *)
Definition dead (r : regex) (a : list N) : Prop :=
  forall a1 a2 b pv, a = a1 ++ a2 -> a2 <> [] -> match_at r false pv (a2 ++ b) = None.

(** what a round of the first loop does to the registry *)
Definition register (nodes : gmap (list N) (list N)) (f : list N * list N)
  : gmap (list N) (list N) :=
  match doc_key f.1 with Some k => <[k := f.2]> nodes | None => nodes end.

(** ** Sample data *)

Definition ID_A : list N := lit "6F9619FF-8B86-D011-B42D-00C04FC964FF".
Definition ID_B : list N := lit "1B4E28BA-2FA1-11D2-883F-0016D3CCA427".

(** the registry of a run on [Notes/A.md] and [Notes/B.md] *)
Definition sample_nodes : gmap (list N) (list N) :=
  fst (assign_ids (lit "out") [(lit "Notes/A.md", ID_A); (lit "Notes/B.md", ID_B)]).

(** ** The loops over files, and more vocabulary *)

(** what [fix_attribution_space] does, character by character; [bol]
    tells whether the position is at the start of a line *)
Fixpoint attr_fix (bol : bool) (s : list N) : list N :=
  match s with
  | [] => []
  | c :: s' =>
      if bol && (c =? HBAR)%N && negb (starts_with [32%N] s')
      then c :: 32%N :: attr_fix (c =? LF)%N s'
      else c :: attr_fix (c =? LF)%N s'
  end.

(** the characters of an indentation: [[ \t]] *)
Definition indent_char (c : N) : bool := in_class (OneOf [AChr 32; AChr 9]) c.

(** no match of [r] starts anywhere in [s] *)
Definition never (r : regex) (s : list N) : Prop :=
  forall pv a b, s = a ++ b -> match_at r false pv b = None.

(** a match never depends on what follows the next line feed *)
Definition line_local (r : regex) : Prop :=
  forall f pv (a b : list N), match_at r f pv (a ++ LF :: b) = match_at r f pv a.

(** the lines of a comment region that [fix_markdown_comments] keeps: all
    of them, but for a blank first line *)
Definition kept_lines (chunk : list N) : list (list N) :=
  let lines := splitlines chunk in
  match lines with
  | l0 :: rest => match strip l0 with [] => rest | _ => lines end
  | [] => lines
  end.

(** the characters of [[\u00A0\s]] *)
Definition ws_char (c : N) : bool := in_class (OneOf [AChr NBSP; ASpace]) c.

(** what [re.sub(r"[\u00A0\s]+", " ", s)] does, character by character;
    [in_run] tells whether the character before was of the class *)
Fixpoint collapse (in_run : bool) (s : list N) : list N :=
  match s with
  | [] => []
  | c :: s' =>
      if ws_char c then (if in_run then collapse true s' else 32%N :: collapse true s')
      else c :: collapse false s'
  end.

(** every character of the class is a space, and no two of them are
    neighbours; [prev] tells whether the character before was one *)
Fixpoint spaced (prev : bool) (s : list N) : bool :=
  match s with
  | [] => true
  | c :: s' =>
      if ws_char c then (c =? 32)%N && negb prev && spaced true s'
      else spaced false s'
  end.

(** the job of a Markdown file in the first loop *)
Definition job_of (out_dir rel nid : list N) : job :=
  {| job_md := rel;
     job_org := out_dir ++ lit "/" ++ firstn (length rel - length (path_name rel)) rel
                        ++ name_with_suffix (path_name rel) (lit ".org");
     job_id := nid |}.

(** the header that [add_node_id] writes before the content *)
Definition header (org_file node_id : list N) : list N :=
  lit ":PROPERTIES:" ++ [LF] ++ lit ":ID: " ++ node_id ++ [LF] ++ lit ":END:" ++ [LF]
    ++ lit "#+title: " ++ path_stem org_file ++ [LF; LF].

(** [exe.map(worker_convert, jobs)] with its results taken in order, the
    jobs run one after the other: the file system after the last job and
    the names returned, or [None] when a job raises.  (The pool runs the
    jobs in parallel; the order does not matter for jobs that write to
    different files and read no file that a job writes.) *)
Fixpoint run_jobs (c : codec) (pandoc : list Byte.byte -> option (list Byte.byte))
         (fs : gmap (list N) (list Byte.byte)) (jobs : list job)
  : option (gmap (list N) (list Byte.byte) * list (list N)) :=
  match jobs with
  | [] => Some (fs, [])
  | j :: jobs' =>
      '(fs, fname) ← worker_convert c pandoc fs j;
      '(fs, fnames) ← run_jobs c pandoc fs jobs';
      Some (fs, fname :: fnames)
  end.



(** a codec decodes what it has encoded *)
Definition round_trip (c : codec) : Prop :=
  forall s bytes, codec_encode c s = Some bytes -> codec_decode c bytes = Some s.

(** the groups of a match hold no [c] *)
Definition caps_without (c : N) (g : caps) : bool :=
  forallb (fun iv => negb (contains c (snd iv))) g.

(** [END_QUOTE_FIX_RE.sub(r"\n\1", org)], the third step after the
    conversion in [convert_markdown_file] *)
Definition end_quote_fix (org : list N) : list N :=
  re_sub END_QUOTE_FIX_RE (fun m => [LF] ++ group m 1) org.

(** the codec of ASCII text, on which the codecs of the usual locales
    (UTF-8, Latin-1) agree *)
Definition ascii_decode (bytes : list Byte.byte) : option (list N) :=
  if forallb (fun b => (Byte.to_N b <? 128)%N) bytes then Some (map Byte.to_N bytes) else None.

Fixpoint ascii_encode (s : list N) : option (list Byte.byte) :=
  match s with
  | [] => Some []
  | ch :: s' =>
      if (ch <? 128)%N then
        b ← Byte.of_N ch;
        bytes ← ascii_encode s';
        Some (b :: bytes)
      else None
  end.

Definition ascii_codec : codec :=
  {| codec_decode := ascii_decode; codec_encode := ascii_encode |}.

(** the bytes of an ASCII literal *)
Definition blit (s : string) : list Byte.byte := list_byte_of_string s.
Arguments blit s%_string.

(** * Properties *)

(** ** Lists and literals *)

Lemma firstn_len_diff (x y : list N) : firstn (length (x ++ y) - length y) (x ++ y) = x.
Proof.
  rewrite length_app.
  replace (length x + length y - length y) with (length x) by lia.
  rewrite firstn_app, Nat.sub_diag, firstn_all. simpl. apply app_nil_r.
Qed.

Lemma starts_with_app (l s : list N) : starts_with l (l ++ s) = true.
Proof. induction l; simpl; auto. rewrite N.eqb_refl. auto. Qed.

Lemma starts_with_split (l s : list N) :
  starts_with l s = true -> s = l ++ skipn (length l) s.
Proof.
  revert s. induction l as [|a l IH]; intros [|b s]; simpl; try easy.
  intros H. apply andb_true_iff in H as [H1 H2].
  apply N.eqb_eq in H1. subst. f_equal. auto.
Qed.

Lemma clash_starts_with (l a b : list N) :
  clash l a = true -> starts_with l (a ++ b) = false.
Proof.
  revert a. induction l as [|x l IH]; intros [|y a]; simpl; try easy.
  intros H. apply orb_true_iff in H as [H|H].
  - apply negb_true_iff in H. now rewrite H.
  - rewrite (IH _ H). apply andb_false_r.
Qed.

Lemma clash_app_l (l l' a : list N) : clash l a = true -> clash (l ++ l') a = true.
Proof.
  revert a. induction l as [|x l IH]; intros [|y a]; simpl; try easy.
  intros H. apply orb_true_iff in H as [H|H]; rewrite ?H; auto.
  rewrite (IH _ H). apply orb_true_r.
Qed.

Lemma inert_app_l (l l' a : list N) : inert l a = true -> inert (l ++ l') a = true.
Proof.
  induction a as [|c a IH]; simpl; auto.
  intros H. apply andb_true_iff in H as [H1 H2].
  rewrite (clash_app_l l l' (c :: a) H1). simpl. auto.
Qed.

(** *** The matcher on literals and repetitions *)

Lemma mtch_lits A (l : list N) r pv s g (k : option N -> list N -> caps -> option A) :
  mtch (lits l r) pv s g k =
  if starts_with l s then mtch r (pv_after pv l) (skipn (length l) s) g k else None.
Proof.
  revert pv s. induction l as [|c l IH]; intros pv s; simpl; auto.
  destruct s as [|x s]; auto.
  rewrite (N.eqb_sym c x). destruct (N.eqb_spec x c) as [->|E]; simpl; auto.
Qed.

Lemma rep_greedy_commit A p min pv (a b : list N) (k : option N -> list N -> option A) :
  (forall pv' c s', p c = true -> k pv' (c :: s') = None) ->
  forallb p a = true -> stops p b = true ->
  rep_greedy p min pv (a ++ b) k =
  if min <=? length a then k (pv_after pv a) b else None.
Proof.
  intros Hk. revert min pv. induction a as [|c a IH]; intros min pv Ha Hb.
  - simpl. destruct b as [|c b]; simpl in *.
    + destruct min; auto.
    + apply negb_true_iff in Hb. rewrite Hb. destruct min; auto.
  - simpl in Ha. apply andb_true_iff in Ha as [Hc Ha].
    simpl. rewrite Hc. rewrite (IH (pred min) (Some c) Ha Hb).
    destruct min as [|min]; simpl.
    + destruct (k (pv_after (Some c) a) b); auto.
    + destruct (min <=? length a); auto. destruct (k (pv_after (Some c) a) b); auto.
Qed.

Lemma rep_greedy_some A p pv (a b : list N) (k : option N -> list N -> option A) :
  forallb p a = true -> is_Some (k (pv_after pv a) b) ->
  is_Some (rep_greedy p 0 pv (a ++ b) k).
Proof.
  revert pv. induction a as [|c a IH]; intros pv Ha Hk.
  - simpl in *. destruct b as [|c b]; simpl; auto.
    destruct (p c); auto. destruct (rep_greedy p 0 (Some c) b k); eauto.
  - simpl in Ha. apply andb_true_iff in Ha as [Hc Ha].
    simpl. rewrite Hc. destruct (IH (Some c) Ha Hk) as [x Hx]. rewrite Hx. eauto.
Qed.

Lemma rep_greedy_dot_none A c min pv (s : list N) (k : option N -> list N -> option A) :
  c <> LF ->
  (forall pv' s', starts_with [c] s' = false -> k pv' s' = None) ->
  contains c (first_line s) = false ->
  rep_greedy (in_class Dot) min pv s k = None.
Proof.
  intros Hc Hk. revert min pv. induction s as [|x s IH]; intros min pv Hs.
  - simpl. destruct min; auto.
  - simpl in Hs. simpl. destruct (x =? LF)%N eqn:E; simpl.
    + destruct min; auto. apply Hk. simpl. apply N.eqb_eq in E. subst x.
      destruct (c =? LF)%N eqn:E'; auto. apply N.eqb_eq in E'. contradiction.
    + simpl in Hs. apply orb_false_iff in Hs as [H1 H2].
      rewrite (IH _ _ H2). destruct min; auto. apply Hk. simpl. now rewrite H1.
Qed.

Lemma rep_lazy_skip A p q pv (a b : list N) (k : option N -> list N -> option A) :
  (forall pv' c s', q c = true -> k pv' (c :: s') = None) ->
  forallb (fun c => p c && q c) a = true ->
  rep_lazy p 0 pv (a ++ b) k = rep_lazy p 0 (pv_after pv a) b k.
Proof.
  intros Hk. revert pv. induction a as [|c a IH]; intros pv Ha; auto.
  simpl in Ha. apply andb_true_iff in Ha as [Hc Ha]. apply andb_true_iff in Hc as [Hp Hq].
  simpl. rewrite (Hk _ _ _ Hq), Hp. apply IH; auto.
Qed.

Lemma rep_lazy_here A p pv (s : list N) (k : option N -> list N -> option A) x :
  k pv s = Some x -> rep_lazy p 0 pv s k = Some x.
Proof. intros H. destruct s; simpl; now rewrite H. Qed.

(** *** Patterns without anchors do not look behind *)

Lemma rep_greedy_pv A p min pv1 pv2 (s : list N) (k1 k2 : option N -> list N -> option A) :
  (forall pa pb s', k1 pa s' = k2 pb s') ->
  rep_greedy p min pv1 s k1 = rep_greedy p min pv2 s k2.
Proof.
  intros Hk. revert min pv1 pv2. induction s as [|c s IH]; intros min pv1 pv2; simpl.
  - destruct min; auto.
  - rewrite (IH (pred min) (Some c) (Some c)). rewrite (Hk pv1 pv2). reflexivity.
Qed.

Lemma rep_lazy_pv A p min pv1 pv2 (s : list N) (k1 k2 : option N -> list N -> option A) :
  (forall pa pb s', k1 pa s' = k2 pb s') ->
  rep_lazy p min pv1 s k1 = rep_lazy p min pv2 s k2.
Proof.
  intros Hk. revert min pv1 pv2. induction s as [|c s IH]; intros min pv1 pv2; simpl.
  - rewrite (Hk pv1 pv2). reflexivity.
  - rewrite (IH (pred min) (Some c) (Some c)). rewrite (Hk pv1 pv2). reflexivity.
Qed.

Lemma mtch_pv r : anchor_free r = true ->
  forall A pv1 pv2 s g (k1 k2 : option N -> list N -> caps -> option A),
    (forall pa pb s' g', k1 pa s' g' = k2 pb s' g') ->
    mtch r pv1 s g k1 = mtch r pv2 s g k2.
Proof.
  induction r as [|c|cl|r1 IH1 r2 IH2|r1 IH1 r2 IH2|cl min greedy|n r1 IH1| | |r1 IH1];
    simpl; intros Hr A pv1 pv2 s g k1 k2 Hk; try discriminate; auto.
  - destruct s as [|x s]; auto. destruct (x =? c)%N; auto.
  - destruct s as [|x s]; auto. destruct (in_class cl x); auto.
  - apply andb_true_iff in Hr as [H1 H2]. apply IH1; auto.
  - apply andb_true_iff in Hr as [H1 H2].
    rewrite (IH1 H1 A pv1 pv2 s g k1 k2 Hk), (IH2 H2 A pv1 pv2 s g k1 k2 Hk). reflexivity.
  - destruct greedy; [apply rep_greedy_pv | apply rep_lazy_pv]; auto.
  - destruct (at_eol s); auto.
  - rewrite (IH1 Hr unit pv1 pv2 s g (fun _ _ _ => Some tt) (fun _ _ _ => Some tt)); auto.
    rewrite (Hk pv1 pv2). reflexivity.
Qed.

Lemma match_at_pv r f pv1 pv2 s :
  anchor_free r = true -> match_at r f pv1 s = match_at r f pv2 s.
Proof. intros Hr. unfold match_at. apply mtch_pv; auto. Qed.

Lemma sub_go_pv r repl pv1 pv2 s n :
  anchor_free r = true -> sub_go r repl pv1 s n = sub_go r repl pv2 s n.
Proof.
  intros Hr. destruct s as [|c s]; simpl.
  - now rewrite (match_at_pv r false pv1 pv2).
  - rewrite (match_at_pv r false pv1 pv2), (match_at_pv r true pv1 pv2); auto.
Qed.

(** *** The scanning loop *)

Section Scan.
Variable r : regex.
Variable f : Match -> list N.

Lemma dead_nil : dead r [].
Proof. intros a1 a2 b pv H. symmetry in H. apply app_eq_nil in H as [_ ->]. congruence. Qed.

Lemma dead_cons c a :
  (forall b pv, match_at r false pv (c :: a ++ b) = None) -> dead r a -> dead r (c :: a).
Proof.
  intros H0 Ha a1 a2 b pv E Hne. destruct a1 as [|x a1]; simpl in E.
  - subst a2. apply H0.
  - injection E as -> E. eapply Ha; eauto.
Qed.

Lemma dead_app a a' : dead r a -> dead r a' -> dead r (a ++ a').
Proof.
  intros Ha Ha' a1 a2 b pv E Hne.
  apply app_eq_app in E as [l [[E1 E2]|[E1 E2]]].
  - destruct l as [|x l].
    + simpl in E2. subst a2. apply (Ha' [] a'); auto.
    + subst a2. rewrite <- app_assoc. apply (Ha a1 (x :: l)); auto.
  - apply (Ha' l a2); auto.
Qed.

(** the characters of a match are passed over *)
Lemma sub_go_skip pv (a b : list N) :
  sub_go r f pv (a ++ b) (length a) = sub_go r f (pv_after pv a) b 0.
Proof.
  revert pv. induction a as [|c a IH]; intros pv; simpl; auto.
Qed.

(** a text in which no match starts is copied *)
Lemma sub_go_pass pv (a b : list N) :
  dead r a -> sub_go r f pv (a ++ b) 0 = a ++ sub_go r f (pv_after pv a) b 0.
Proof.
  revert pv. induction a as [|c a IH]; intros pv Ha; auto.
  assert (H0 : match_at r false pv (c :: a ++ b) = None)
    by (apply (Ha [] (c :: a) b pv); auto; discriminate).
  simpl. rewrite H0.
  f_equal. apply IH. intros a1 a2 b' pv' -> Hne. apply (Ha (c :: a1) a2); auto.
Qed.

(** a match is replaced and the scan goes on after it *)
Lemma sub_go_take pv (a b : list N) m :
  match_at r false pv (a ++ b) = Some m -> m_text m = a -> a <> [] ->
  sub_go r f pv (a ++ b) 0 = f m ++ sub_go r f (pv_after pv a) b 0.
Proof.
  intros Hm Ht Hne. destruct a as [|c a]; [congruence|].
  simpl. simpl in Hm. rewrite Hm, Ht. simpl. f_equal. apply sub_go_skip.
Qed.

Lemma re_sub_dead (a b : list N) :
  anchor_free r = true -> dead r a -> re_sub r f (a ++ b) = a ++ re_sub r f b.
Proof.
  intros Hr Ha. unfold re_sub. rewrite sub_go_pass; auto. f_equal. now apply sub_go_pv.
Qed.

Lemma re_sub_link (pre link post : list N) m :
  anchor_free r = true -> dead r pre ->
  match_at r false None (link ++ post) = Some m -> m_text m = link -> link <> [] ->
  re_sub r f (pre ++ link ++ post) = pre ++ f m ++ re_sub r f post.
Proof.
  intros Hr Hpre Hm Ht Hne. unfold re_sub. rewrite sub_go_pass; auto. f_equal.
  rewrite (sub_go_take _ link post m); auto.
  - f_equal. now apply sub_go_pv.
  - rewrite <- Hm. now apply match_at_pv.
Qed.

End Scan.

Lemma dead_inert l r a : inert l a = true -> dead (lits l r) a.
Proof.
  induction a as [|c a IH]; intros H.
  - apply dead_nil.
  - simpl in H. apply andb_true_iff in H as [H1 H2]. apply dead_cons; auto.
    intros b pv. unfold match_at. rewrite mtch_lits.
    change (c :: a ++ b) with ((c :: a) ++ b). now rewrite (clash_starts_with _ _ _ H1).
Qed.

Lemma re_sub_absent l r f (s : list N) :
  l <> [] -> occurs l s = false -> re_sub (lits l r) f s = s.
Proof.
  intros Hl. unfold re_sub. generalize (@None N) as pv.
  induction s as [|c s IH]; intros pv H.
  - simpl. unfold match_at. rewrite mtch_lits. destruct l; [congruence|]. reflexivity.
  - simpl in H. apply orb_false_iff in H as [H1 H2].
    simpl. unfold match_at at 1. rewrite mtch_lits, H1. f_equal. auto.
Qed.

(** *** The link patterns *)

Lemma mtch_lits_app A (l : list N) r pv s g (k : option N -> list N -> caps -> option A) :
  mtch (lits l r) pv (l ++ s) g k = mtch r (pv_after pv l) s g k.
Proof.
  rewrite mtch_lits, starts_with_app. f_equal.
  induction l; simpl; auto.
Qed.

Lemma finish_app (x y : list N) pv g :
  finish false (x ++ y) pv y g = Some {| m_text := x; m_caps := g |}.
Proof. unfold finish. simpl. now rewrite firstn_len_diff. Qed.

Lemma leb1_nonempty (a : list N) : a <> [] -> (1 <=? length a) = true.
Proof. destruct a; [congruence | reflexivity]. Qed.

Lemma link_char_eq c :
  link_char c = negb ((c =? 93)%N || (c =? 124)%N || (c =? 91)%N).
Proof.
  unfold link_char, in_class.
  change (chars "]|[") with [AChr 93%N; AChr 124%N; AChr 91%N]. simpl.
  now rewrite orb_false_r, orb_assoc.
Qed.

Lemma name_char_eq c : name_char c = negb ((c =? 93)%N || (c =? 124)%N).
Proof.
  unfold name_char, in_class.
  change (chars "]|") with [AChr 93%N; AChr 124%N]. simpl.
  now rewrite orb_false_r.
Qed.

Lemma hint_char_eq c : hint_char c = negb (c =? 93)%N.
Proof.
  unfold hint_char, in_class.
  change (chars "]") with [AChr 93%N]. simpl.
  now rewrite orb_false_r.
Qed.

Lemma link_char_spec c :
  link_char c = true -> (c =? 93)%N = false /\ (c =? 124)%N = false /\ (c =? 91)%N = false.
Proof.
  rewrite link_char_eq. intros H. apply negb_true_iff in H.
  apply orb_false_iff in H as [H H3]. apply orb_false_iff in H as [H1 H2]. auto.
Qed.

Lemma name_char_spec c :
  name_char c = true -> (c =? 93)%N = false /\ (c =? 124)%N = false.
Proof.
  rewrite name_char_eq. intros H. apply negb_true_iff in H.
  apply orb_false_iff in H as [H1 H2]. auto.
Qed.

Lemma hint_char_spec c : hint_char c = true -> (c =? 93)%N = false.
Proof. rewrite hint_char_eq. intros H. now apply negb_true_iff in H. Qed.

Lemma link_name_char c : link_char c = true -> name_char c = true.
Proof.
  intros H. apply link_char_spec in H as (H1 & H2 & H3).
  rewrite name_char_eq. now rewrite H1, H2.
Qed.

Lemma forallb_impl (p q : N -> bool) (l : list N) :
  (forall c, p c = true -> q c = true) -> forallb p l = true -> forallb q l = true.
Proof.
  intros H. induction l as [|c l IH]; simpl; auto.
  intros Hl. apply andb_true_iff in Hl as [H1 H2]. rewrite (H _ H1). auto.
Qed.

Lemma mtch_grp_greedy A n cl min r2 pv (a b : list N) g
      (k : option N -> list N -> caps -> option A) :
  (forall pv' c s' g', in_class cl c = true -> mtch r2 pv' (c :: s') g' k = None) ->
  forallb (in_class cl) a = true -> stops (in_class cl) b = true ->
  mtch (Seq (Grp n (Rep cl min true)) r2) pv (a ++ b) g k =
  if min <=? length a then mtch r2 (pv_after pv a) b ((n, a) :: g) k else None.
Proof.
  intros Hk Ha Hb. cbn [mtch]. rewrite rep_greedy_commit; auto.
  now rewrite firstn_len_diff.
Qed.

Lemma mtch_grp_lazy A n cl (q : N -> bool) r2 pv (a b : list N) g
      (k : option N -> list N -> caps -> option A) x :
  (forall pv' c s' g', q c = true -> mtch r2 pv' (c :: s') g' k = None) ->
  forallb (fun c => in_class cl c && q c) a = true ->
  mtch r2 (pv_after pv a) b ((n, a) :: g) k = Some x ->
  mtch (Seq (Grp n (Rep cl 0 false)) r2) pv (a ++ b) g k = Some x.
Proof.
  intros Hk Ha Hx. cbn [mtch].
  rewrite (rep_lazy_skip _ (in_class cl) q); auto.
  apply rep_lazy_here. now rewrite firstn_len_diff.
Qed.

Lemma lits_head_fail A c c0 l r pv s g (k : option N -> list N -> caps -> option A) :
  (c =? c0)%N = false -> mtch (lits (c0 :: l) r) pv (c :: s) g k = None.
Proof. intros H. cbn [lits mtch]. now rewrite H. Qed.

(** the simple and the bare pattern match a link whole *)
Lemma bare_match pv (page post : list N) :
  page <> [] -> forallb link_char page = true ->
  match_at WIKI_SIMPLE_RE false pv (lit "[[" ++ page ++ lit "]]" ++ post) =
  Some {| m_text := lit "[[" ++ page ++ lit "]]"; m_caps := [(1, page)] |}.
Proof.
  intros Hne Hp. unfold match_at.
  change WIKI_SIMPLE_RE
    with (lits (lit "[[") (Seq (Grp 1 (Rep (NoneOf (chars "]|[")) 1 true)) (lits (lit "]]") Eps))).
  rewrite mtch_lits_app, mtch_grp_greedy; auto.
  - rewrite (leb1_nonempty _ Hne), mtch_lits_app. cbn [mtch].
    rewrite !app_assoc. rewrite finish_app. now rewrite <- !app_assoc.
  - intros pv' c s' g' Hc. apply link_char_spec in Hc as (H1 & _).
    now apply lits_head_fail.
Qed.

(** after the opening, the simple and the bare pattern want the closing *)
Lemma bare_no_match pv (x b : list N) :
  forallb link_char x = true -> stops link_char b = true ->
  starts_with (lit "]]") b = false ->
  match_at BARE_LINK_RE false pv (lit "[[" ++ x ++ b) = None.
Proof.
  intros Hx Hb Hs. unfold match_at.
  change BARE_LINK_RE
    with (lits (lit "[[") (Seq (Grp 1 (Rep (NoneOf (chars "]|[")) 1 true)) (lits (lit "]]") Eps))).
  rewrite mtch_lits_app, mtch_grp_greedy; auto.
  - destruct (1 <=? length x); auto. now rewrite mtch_lits, Hs.
  - intros pv' c s' g' Hc. apply link_char_spec in Hc as (H1 & _).
    now apply lits_head_fail.
Qed.

(** the labelled pattern wants a bar after the page *)
Lemma desc_no_match pv (x b : list N) :
  forallb name_char x = true -> stops name_char b = true ->
  starts_with (lit "|") b = false ->
  match_at WIKI_DESC_RE false pv (lit "[[" ++ x ++ b) = None.
Proof.
  intros Hx Hb Hs. unfold match_at.
  change WIKI_DESC_RE
    with (lits (lit "[[") (Seq (Grp 1 (Rep (NoneOf (chars "]|")) 1 true))
                               (lits (lit "|") (seq [Grp 2 (Rep (NoneOf (chars "]")) 1 true);
                                                     Lit 93; Lit 93])))).
  rewrite mtch_lits_app, mtch_grp_greedy; auto.
  - destruct (1 <=? length x); auto. now rewrite mtch_lits, Hs.
  - intros pv' c s' g' Hc. apply name_char_spec in Hc as (_ & H1).
    now apply lits_head_fail.
Qed.

Lemma embed_match pv (name hint post : list N) :
  name <> [] -> forallb name_char name = true -> size_hint hint = true ->
  match_at EMBED_RE false pv (lit "![[" ++ name ++ hint ++ lit "]]" ++ post) =
  Some {| m_text := lit "![[" ++ name ++ hint ++ lit "]]"; m_caps := [(1, name)] |}.
Proof.
  intros Hne Hn Hh. unfold match_at.
  change EMBED_RE
    with (lits (lit "![[")
               (Seq (Grp 1 (Rep (NoneOf (chars "]|")) 1 true))
                    (Seq (Alt (Seq (Lit 124) (Rep (NoneOf (chars "]")) 0 true)) Eps)
                         (lits (lit "]]") Eps)))).
  rewrite mtch_lits_app, mtch_grp_greedy; auto.
  - rewrite (leb1_nonempty _ Hne).
    destruct hint as [|c size].
    + cbn [mtch app]. change (lit "]]" ++ post) with (93%N :: 93%N :: post) at 1.
      replace (93 =? 124)%N with false by reflexivity.
      change (93%N :: 93%N :: post) with (lit "]]" ++ post).
      rewrite mtch_lits_app. cbn [mtch].
      rewrite !app_assoc. rewrite finish_app. now rewrite <- !app_assoc.
    + simpl in Hh. apply andb_true_iff in Hh as [Hc Hs]. apply N.eqb_eq in Hc. subst c.
      change ((124%N :: size) ++ lit "]]" ++ post)
        with (124%N :: size ++ lit "]]" ++ post).
      cbn [mtch]. rewrite N.eqb_refl.
      assert (E : rep_greedy (in_class (NoneOf (chars "]"))) 0 (Some 124%N)
                    (size ++ lit "]]" ++ post)
                    (fun pv' s' =>
                       mtch (lits (lit "]]") Eps) pv' s' [(1, name)]
                            (finish false (lit "![[" ++ name ++ 124%N :: size ++ lit "]]" ++ post)))
                  = Some {| m_text := lit "![[" ++ name ++ (124%N :: size) ++ lit "]]";
                            m_caps := [(1, name)] |}).
      { rewrite rep_greedy_commit; auto.
        - cbn [Nat.leb]. rewrite mtch_lits_app. cbn [mtch].
          change (lit "![[" ++ name ++ 124%N :: size ++ lit "]]" ++ post)
            with (lit "![[" ++ name ++ (124%N :: size) ++ lit "]]" ++ post).
          rewrite !app_assoc. rewrite finish_app. now rewrite <- !app_assoc.
        - intros pv' c s' Hc. apply hint_char_spec in Hc. now apply lits_head_fail. }
      cbn [app]. rewrite E. reflexivity.
  - intros pv' c s' g' Hc. apply name_char_spec in Hc as (H1 & H2).
    cbn [mtch]. rewrite H2. now apply lits_head_fail.
  - destruct hint as [|c size]; [reflexivity|]. simpl in Hh.
    apply andb_true_iff in Hh as [Hc Hs]. apply N.eqb_eq in Hc. subst c. reflexivity.
Qed.

Lemma file_match pv (raw label post : list N) :
  forallb plain_char raw = true -> forallb plain_char label = true ->
  match_at FILE_LINK_RE false pv
           (lit "[[file:" ++ raw ++ lit "][" ++ label ++ lit "]]" ++ post) =
  Some {| m_text := lit "[[file:" ++ raw ++ lit "][" ++ label ++ lit "]]";
          m_caps := [(2, label); (1, raw)] |}.
Proof.
  intros Hr Hl. unfold match_at.
  change FILE_LINK_RE
    with (lits (lit "[[file:")
               (Seq (Grp 1 (Rep Dot 0 false))
                    (lits (lit "][") (Seq (Grp 2 (Rep Dot 0 false)) (lits (lit "]]") Eps))))).
  rewrite mtch_lits_app.
  apply (mtch_grp_lazy _ _ _ (fun c => negb (c =? 93)%N)); auto.
  - intros pv' c s' g' Hc. apply negb_true_iff in Hc. now apply lits_head_fail.
  - rewrite mtch_lits_app.
    apply (mtch_grp_lazy _ _ _ (fun c => negb (c =? 93)%N)); auto.
    + intros pv' c s' g' Hc. apply negb_true_iff in Hc. now apply lits_head_fail.
    + rewrite mtch_lits_app. cbn [mtch].
      rewrite !app_assoc. rewrite finish_app. now rewrite <- !app_assoc.
Qed.

(** *** Texts in which no link can start *)

Lemma head_nobr_app (x a : list N) :
  forallb nobr x = true -> head_nobr a = true -> head_nobr (x ++ a) = true.
Proof. destruct x as [|c x]; simpl; auto. intros H _. now apply andb_true_iff in H as [H _]. Qed.

Lemma inert2_cons c (a : list N) :
  nobr c = true -> inert (lit "[[") a = true -> inert (lit "[[") (c :: a) = true.
Proof.
  intros Hc Ha. cbn [inert]. rewrite Ha, andb_true_r.
  change (lit "[[") with [91%N; 91%N]. cbn [clash].
  unfold nobr in Hc. rewrite N.eqb_sym, Hc. reflexivity.
Qed.

Lemma inert2_open (a : list N) :
  head_nobr a = true -> inert (lit "[[") a = true -> inert (lit "[[") (91%N :: a) = true.
Proof.
  intros Hh Ha. cbn [inert]. rewrite Ha, andb_true_r.
  change (lit "[[") with [91%N; 91%N]. destruct a as [|d a]; [discriminate|].
  cbn [clash]. simpl in Hh. unfold nobr in Hh. rewrite (N.eqb_sym 91 d), Hh.
  now rewrite orb_true_r.
Qed.

Lemma inert2_app (x a : list N) :
  forallb nobr x = true -> inert (lit "[[") a = true -> inert (lit "[[") (x ++ a) = true.
Proof.
  induction x as [|c x IH]; cbn [app forallb]; auto. intros H Ha.
  apply andb_true_iff in H as [H1 H2]. apply (inert2_cons c); auto.
Qed.

(** an opening bracket, text without one, a closing bracket *)
Lemma inert2_bracketed (x rest : list N) :
  forallb nobr x = true -> inert (lit "[[") rest = true ->
  inert (lit "[[") (91%N :: x ++ 93%N :: rest) = true.
Proof.
  intros Hx Hr. apply inert2_open.
  - now apply head_nobr_app.
  - apply inert2_app; [assumption|]. now apply inert2_cons.
Qed.

Lemma inert3_cons c (a : list N) :
  (c =? 33)%N = false -> inert (lit "![[") a = true -> inert (lit "![[") (c :: a) = true.
Proof.
  intros Hc Ha. cbn [inert]. rewrite Ha, andb_true_r.
  change (lit "![[") with [33%N; 91%N; 91%N]. cbn [clash].
  rewrite N.eqb_sym, Hc. reflexivity.
Qed.

Lemma inert3_app (x a : list N) :
  forallb nobr x = true -> head_nobr a = true -> inert (lit "![[") a = true ->
  inert (lit "![[") (x ++ a) = true.
Proof.
  induction x as [|c x IH]; cbn [app forallb inert]; auto. intros H Hh Ha.
  apply andb_true_iff in H as [H1 H2]. rewrite (IH H2 Hh Ha), andb_true_r.
  change (lit "![[") with [33%N; 91%N; 91%N].
  pose proof (head_nobr_app x a H2 Hh) as Hx.
  destruct (x ++ a) as [|d r]; [discriminate|].
  cbn [clash]. simpl in Hx. unfold nobr in Hx. rewrite (N.eqb_sym 91 d), Hx.
  now rewrite !orb_true_r.
Qed.

Lemma link_char_nobr c : link_char c = true -> nobr c = true.
Proof. intros H. apply link_char_spec in H as (_ & _ & H). unfold nobr. now rewrite H. Qed.

Lemma calm_tail c (a : list N) : calm (c :: a) = true -> calm a = true.
Proof.
  unfold calm. intros H. apply andb_true_iff in H as [H1 H2].
  apply negb_true_iff in H1. cbn [occurs] in H1. apply orb_false_iff in H1 as [_ H1].
  destruct a as [|d a]; [reflexivity|]. rewrite H1. exact H2.
Qed.

Lemma calm_clash2 (a : list N) : a <> [] -> calm a = true -> clash (lit "[[") a = true.
Proof.
  destruct a as [|c a]; [congruence|]. intros _ H. unfold calm in H.
  apply andb_true_iff in H as [H1 H2]. apply negb_true_iff in H1.
  cbn [occurs] in H1. apply orb_false_iff in H1 as [H1 _].
  change (lit "[[") with [91%N; 91%N] in *. change (lit "[!") with [91%N; 33%N] in H2.
  cbn [clash]. destruct (N.eqb_spec 91 c) as [<-|Hc]; [|reflexivity].
  destruct a as [|d a].
  - discriminate H2.
  - cbn [starts_with] in H1. rewrite N.eqb_refl in H1. cbn [andb] in H1.
    rewrite andb_true_r in H1. now rewrite H1.
Qed.

Lemma calm_inert2 (pre : list N) : calm pre = true -> inert (lit "[[") pre = true.
Proof.
  induction pre as [|c a IH]; [reflexivity|]. intros H. cbn [inert].
  rewrite (calm_clash2 (c :: a)), (IH (calm_tail _ _ H)); [reflexivity|discriminate|exact H].
Qed.

Lemma calm_inert3 (pre : list N) : calm pre = true -> inert (lit "![[") pre = true.
Proof.
  induction pre as [|c a IH]; [reflexivity|]. intros H. cbn [inert].
  rewrite (IH (calm_tail _ _ H)), andb_true_r.
  change (lit "![[") with (33%N :: lit "[["). cbn [clash].
  destruct (N.eqb_spec 33 c) as [<-|Hc]; [|reflexivity]. cbn [negb orb].
  apply calm_clash2; [|exact (calm_tail _ _ H)].
  intros ->. unfold calm in H. apply andb_true_iff in H as [_ H]. discriminate H.
Qed.

(** no pattern of the two passes starts in calm text *)
Lemma calm_dead_embed pre : calm pre = true -> dead EMBED_RE pre.
Proof. intros H. apply (dead_inert (lit "![[")). now apply calm_inert3. Qed.

Lemma calm_dead_desc pre : calm pre = true -> dead WIKI_DESC_RE pre.
Proof. intros H. apply (dead_inert (lit "[[")). now apply calm_inert2. Qed.

Lemma calm_dead_simple pre : calm pre = true -> dead WIKI_SIMPLE_RE pre.
Proof. intros H. apply (dead_inert (lit "[[")). now apply calm_inert2. Qed.

Lemma calm_dead_bare pre : calm pre = true -> dead BARE_LINK_RE pre.
Proof. intros H. apply (dead_inert (lit "[[")). now apply calm_inert2. Qed.

Lemma calm_dead_file pre : calm pre = true -> dead FILE_LINK_RE pre.
Proof.
  intros H. apply (dead_inert (lit "[[" ++ lit "file:")). apply inert_app_l.
  now apply calm_inert2.
Qed.

(** the embed pattern cannot start inside a bare link *)
Lemma embed_dead_link (page : list N) :
  forallb link_char page = true -> dead EMBED_RE (lit "[[" ++ page ++ lit "]]").
Proof.
  intros Hp. apply (dead_inert (lit "![[")).
  change (lit "[[" ++ page ++ lit "]]") with (91%N :: 91%N :: page ++ lit "]]").
  apply inert3_cons; [reflexivity|]. apply inert3_cons; [reflexivity|].
  apply inert3_app; try reflexivity.
  eapply forallb_impl; [|exact Hp]. apply link_char_nobr.
Qed.

(** the labelled pattern cannot start inside a bracketed text without bar *)
Lemma desc_dead_link (x : list N) :
  forallb link_char x = true -> dead WIKI_DESC_RE (lit "[[" ++ x ++ lit "]]").
Proof.
  intros Hx. change (lit "[[" ++ x ++ lit "]]") with (91%N :: (91%N :: x ++ 93%N :: [93%N])).
  apply dead_cons.
  - intros b pv. cbn [app]. rewrite <- app_assoc.
    change (91%N :: 91%N :: x ++ [93%N; 93%N] ++ b) with (lit "[[" ++ x ++ lit "]]" ++ b).
    apply desc_no_match; try reflexivity.
    eapply forallb_impl; [|exact Hx]. apply link_name_char.
  - apply (dead_inert (lit "[[")). apply inert2_bracketed; [|reflexivity].
    eapply forallb_impl; [|exact Hx]. apply link_char_nobr.
Qed.

Lemma starts_with_closed (l t b : list N) :
  starts_with l t = false -> contains 93 l = false ->
  starts_with l (t ++ 93%N :: b) = false.
Proof.
  revert t. induction l as [|x l IH]; intros t Ht Hl; [discriminate|].
  simpl in Hl. apply orb_false_iff in Hl as [H1 H2].
  destruct t as [|y t]; simpl in *.
  - rewrite N.eqb_sym, H1. reflexivity.
  - destruct (x =? y)%N; auto. simpl in *. auto.
Qed.

(** the file pattern cannot start inside a bare link that is not a file link *)
Lemma file_dead_link (text : list N) :
  forallb link_char text = true -> starts_with (lit "file:") text = false ->
  dead FILE_LINK_RE (lit "[[" ++ text ++ lit "]]").
Proof.
  intros Hx Hf.
  change (lit "[[" ++ text ++ lit "]]") with (91%N :: (91%N :: text ++ 93%N :: [93%N])).
  apply dead_cons.
  - intros b pv. unfold match_at.
    change FILE_LINK_RE
      with (lits (lit "[[")
                 (lits (lit "file:")
                       (seq [Grp 1 (Rep Dot 0 false); Lit 93; Lit 91;
                             Grp 2 (Rep Dot 0 false); Lit 93; Lit 93]))).
    cbn [app]. rewrite <- app_assoc.
    change (91%N :: 91%N :: text ++ [93%N; 93%N] ++ b)
      with (lit "[[" ++ text ++ 93%N :: 93%N :: b).
    rewrite mtch_lits_app, mtch_lits, starts_with_closed; auto.
  - apply (dead_inert (lit "[[" ++ lit "file:")). apply inert_app_l.
    apply inert2_bracketed; [|reflexivity].
    eapply forallb_impl; [|exact Hx]. apply link_char_nobr.
Qed.

Lemma id_char_link c : id_char c = true -> link_char c = true.
Proof.
  unfold id_char. rewrite link_char_eq. intros H.
  destruct (N.eqb_spec c 93) as [->|_]; [discriminate|].
  destruct (N.eqb_spec c 124) as [->|_]; [discriminate|].
  destruct (N.eqb_spec c 91) as [->|_]; [discriminate|]. reflexivity.
Qed.

Lemma id_shaped_link nid : id_shaped nid = true -> forallb link_char (lit "id:" ++ nid) = true.
Proof.
  intros H. rewrite forallb_app. apply andb_true_iff. split; [reflexivity|].
  destruct nid; [discriminate|]. eapply forallb_impl; [|exact H]. apply id_char_link.
Qed.

(** neither pattern of the second pass can start inside an identifier
    reference whose label has no opening bracket *)
Lemma id_ref_inert (nid label : list N) :
  id_shaped nid = true -> forallb nobr label = true ->
  inert (lit "[[") (91%N :: (lit "id:" ++ nid) ++ 93%N :: 91%N :: label ++ 93%N :: [93%N]) = true.
Proof.
  intros Hn Hl. apply inert2_bracketed.
  - eapply forallb_impl; [|exact (id_shaped_link _ Hn)]. apply link_char_nobr.
  - apply inert2_bracketed; auto.
Qed.

Lemma file_dead_id (nid label : list N) :
  id_shaped nid = true -> forallb nobr label = true ->
  dead FILE_LINK_RE (lit "[[id:" ++ nid ++ lit "][" ++ label ++ lit "]]").
Proof.
  intros Hn Hl.
  change (lit "[[id:" ++ nid ++ lit "][" ++ label ++ lit "]]")
    with (91%N :: (91%N :: lit "id:" ++ nid ++ 93%N :: 91%N :: label ++ 93%N :: [93%N])).
  apply dead_cons.
  - intros b pv. unfold match_at.
    change FILE_LINK_RE
      with (lits (lit "[[file:")
                 (seq [Grp 1 (Rep Dot 0 false); Lit 93; Lit 91;
                       Grp 2 (Rep Dot 0 false); Lit 93; Lit 93])).
    rewrite mtch_lits. reflexivity.
  - apply (dead_inert (lit "[[" ++ lit "file:")). apply inert_app_l.
    pose proof (id_ref_inert nid label Hn Hl) as H. now rewrite <- app_assoc in H.
Qed.

Lemma bare_dead_id (nid label : list N) :
  id_shaped nid = true -> forallb nobr label = true ->
  dead BARE_LINK_RE (lit "[[id:" ++ nid ++ lit "][" ++ label ++ lit "]]").
Proof.
  intros Hn Hl.
  change (lit "[[id:" ++ nid ++ lit "][" ++ label ++ lit "]]")
    with (91%N :: (91%N :: lit "id:" ++ nid ++ 93%N :: 91%N :: label ++ 93%N :: [93%N])).
  apply dead_cons.
  - intros b pv.
    replace (91%N :: (91%N :: lit "id:" ++ nid ++ 93%N :: 91%N :: label ++ 93%N :: [93%N]) ++ b)
      with (lit "[[" ++ (lit "id:" ++ nid) ++ (93%N :: 91%N :: label ++ 93%N :: 93%N :: b)).
    + apply bare_no_match; try reflexivity. now apply id_shaped_link.
    + simpl. rewrite <- !app_assoc. simpl. rewrite <- !app_assoc. reflexivity.
  - apply (dead_inert (lit "[[")).
    pose proof (id_ref_inert nid label Hn Hl) as H. now rewrite <- app_assoc in H.
Qed.

Create HintDb links discriminated.
#[local] Hint Resolve dead_app calm_dead_embed calm_dead_desc calm_dead_simple calm_dead_bare
  calm_dead_file embed_dead_link desc_dead_link file_dead_link file_dead_id bare_dead_id : links.

(** *** The test of [simple_repl] *)

Lemma first_line_split c (s : list N) :
  contains c (first_line s) = true ->
  exists a b, s = a ++ c :: b /\ forallb (in_class Dot) a = true.
Proof.
  induction s as [|x s IH]; simpl; [discriminate|].
  destruct (x =? LF)%N eqn:E; simpl; [discriminate|].
  intros H. apply orb_true_iff in H as [H|H].
  - apply N.eqb_eq in H. subst x. exists [], s. auto.
  - destruct (IH H) as (a & b & -> & Ha). exists (x :: a), b. simpl. now rewrite E.
Qed.

Lemma starts_with_first_line c (l s : list N) :
  starts_with l s = true -> contains c (first_line l) = true ->
  contains c (first_line s) = true.
Proof.
  revert s. induction l as [|a l IH]; intros [|b s]; simpl; try discriminate.
  intros H. apply andb_true_iff in H as [H1 H2]. apply N.eqb_eq in H1. subst b.
  destruct (a =? LF)%N; simpl; [discriminate|].
  intros H. apply orb_true_iff in H as [H|H]; rewrite ?H; auto.
  rewrite (IH _ H2 H). apply orb_true_r.
Qed.

Lemma finish_some s pv s' g : is_Some (finish false s pv s' g).
Proof. unfold finish. simpl. eauto. Qed.

Lemma url_true (page : list N) :
  looks_external page = true -> re_match URL_OR_PATH_RE page = true.
Proof.
  intros H. unfold re_match, match_at.
  assert (Hs : is_Some (mtch (Alt (seq [Rep Dot 0 true; Lit 47])
                                  (seq [Rep Dot 0 true; Lit 46; Rep Dot 0 true]))
                             None page [] (finish false page))).
  { cbn [seq mtch]. unfold looks_external in H. apply orb_true_iff in H as [H|H].
    - destruct (first_line_split _ _ H) as (a & b & -> & Ha).
      destruct (rep_greedy_some _ (in_class Dot) None a (47%N :: b)
                  (fun pv' s' => match s' with
                                 | [] => None
                                 | x :: s'0 =>
                                     if (x =? 47)%N
                                     then finish false (a ++ 47%N :: b) (Some x) s'0 []
                                     else None
                                 end) Ha) as [m Hm].
      + rewrite N.eqb_refl. apply finish_some.
      + rewrite Hm. eauto.
    - destruct (first_line_split _ _ H) as (a & b & -> & Ha).
      destruct (rep_greedy_some _ (in_class Dot) None a (46%N :: b)
                  (fun pv' s' => match s' with
                                 | [] => None
                                 | x :: s'0 =>
                                     if (x =? 46)%N
                                     then rep_greedy (in_class Dot) 0 (Some x) s'0
                                            (fun pv'0 s'1 => finish false (a ++ 46%N :: b) pv'0 s'1 [])
                                     else None
                                 end) Ha) as [m Hm].
      + rewrite N.eqb_refl. apply (rep_greedy_some _ _ _ []). reflexivity. apply finish_some.
      + rewrite Hm. match goal with |- is_Some (match ?x with _ => _ end) => destruct x end; eauto. }
  change URL_OR_PATH_RE
    with (Alt (lits (lit "http") (Seq (Opt (Lit 115)) (lits (lit "://") Eps)))
              (Alt (seq [Rep Dot 0 true; Lit 47])
                   (seq [Rep Dot 0 true; Lit 46; Rep Dot 0 true]))).
  cbn [mtch] in *. destruct Hs as [m Hm]. rewrite Hm.
  destruct (mtch (lits _ _) _ _ _ _); reflexivity.
Qed.

Lemma url_false (page : list N) :
  looks_external page = false -> re_match URL_OR_PATH_RE page = false.
Proof.
  intros H. unfold looks_external in H. apply orb_false_iff in H as [H1 H2].
  unfold re_match, match_at.
  change URL_OR_PATH_RE
    with (Alt (lits (lit "http") (Seq (Opt (Lit 115)) (lits (lit "://") Eps)))
              (Alt (seq [Rep Dot 0 true; Lit 47])
                   (seq [Rep Dot 0 true; Lit 46; Rep Dot 0 true]))).
  cbn [mtch seq].
  assert (Hsl : forall s, starts_with (lit "://") s = true -> contains 47 (first_line s) = true).
  { intros s Hs. eapply starts_with_first_line; eauto. }
  rewrite mtch_lits.
  assert (E1 : (if starts_with (lit "http") page
                then mtch (Seq (Opt (Lit 115)) (lits (lit "://") Eps))
                          (pv_after None (lit "http")) (skipn (length (lit "http")) page) []
                          (finish false page)
                else None) = None).
  { destruct (starts_with (lit "http") page) eqn:Eh; auto.
    apply starts_with_split in Eh. set (s1 := skipn (length (lit "http")) page) in *.
    assert (Hs1 : contains 47 (first_line s1) = false).
    { rewrite Eh in H1. change (lit "http" ++ s1) with (104%N :: 116%N :: 116%N :: 112%N :: s1) in H1.
      cbn [first_line] in H1.
      replace (104 =? LF)%N with false in H1 by reflexivity.
      replace (116 =? LF)%N with false in H1 by reflexivity.
      replace (112 =? LF)%N with false in H1 by reflexivity.
      simpl in H1. repeat (apply orb_false_iff in H1 as [_ H1]). exact H1. }
    cbn [mtch Opt].
    assert (E3 : mtch (lits (lit "://") Eps) (pv_after None (lit "http")) s1 [] (finish false page) = None).
    { rewrite mtch_lits. destruct (starts_with (lit "://") s1) eqn:E; auto.
      apply Hsl in E. congruence. }
    rewrite E3. destruct s1 as [|x s2]; auto.
    destruct (x =? 115)%N eqn:Ex; auto.
    rewrite mtch_lits. destruct (starts_with (lit "://") s2) eqn:E; auto.
    apply Hsl in E. cbn [first_line] in Hs1. apply N.eqb_eq in Ex. subst x.
    replace (115 =? LF)%N with false in Hs1 by reflexivity.
    simpl in Hs1. try (apply orb_false_iff in Hs1 as [_ Hs1]). congruence. }
  rewrite E1.
  rewrite (rep_greedy_dot_none _ 47); auto; try discriminate.
  2:{ intros pv' s' Hs. destruct s' as [|x s']; auto. simpl in Hs.
      rewrite andb_true_r, N.eqb_sym in Hs. now rewrite Hs. }
  rewrite (rep_greedy_dot_none _ 46); auto; try discriminate.
  intros pv' s' Hs. destruct s' as [|x s']; auto. simpl in Hs.
  rewrite andb_true_r, N.eqb_sym in Hs. now rewrite Hs.
Qed.

(** *** Replacing no-break spaces *)

Lemma sub_nbsp (s : list N) :
  re_sub NBSP_RE (fun _ => lit " ") s = map nbsp_to_space s.
Proof.
  unfold re_sub. generalize (@None N) as pv.
  induction s as [|c s IH]; intros pv; [reflexivity|].
  cbn [sub_go map]. unfold match_at at 1, NBSP_RE. cbn [mtch in_class existsb in_atom].
  rewrite orb_false_r. unfold nbsp_to_space at 1. destruct (c =? NBSP)%N.
  - change (c :: s) with ([c] ++ s). rewrite finish_app. cbn [m_text length].
    rewrite IH. reflexivity.
  - now rewrite IH.
Qed.

(** *** The stem of a page name followed by the extension *)

Lemma split_absent c (s cur : list N) :
  contains c s = false -> split_go [c] s cur 0 = [rev cur ++ s].
Proof.
  revert cur. induction s as [|x s IH]; intros cur H; simpl.
  - now rewrite app_nil_r.
  - simpl in H. apply orb_false_iff in H as [H1 H2]. rewrite H1. simpl.
    rewrite IH; auto. simpl. now rewrite <- app_assoc.
Qed.

Lemma rfind_go_absent c (a b : list N) i best :
  contains c a = false -> rfind_go c (a ++ b) i best = rfind_go c b (i + length a) best.
Proof.
  revert i. induction a as [|x a IH]; intros i H; simpl.
  - now rewrite Nat.add_0_r.
  - simpl in H. apply orb_false_iff in H as [H1 H2]. rewrite N.eqb_sym, H1.
    rewrite IH; auto. f_equal. lia.
Qed.

Lemma path_stem_org (page : list N) :
  page <> [] -> contains 47 page = false -> contains 46 page = false ->
  path_stem (page ++ lit ".org") = page.
Proof.
  intros Hne H1 H2. unfold path_stem, path_name, path_parts, split.
  change (lit "/") with [47%N]. rewrite split_absent.
  2:{ unfold contains in *. rewrite existsb_app, H1. reflexivity. }
  cbn [rev app].
  assert (E1 : bool_decide (page ++ lit ".org" = []) = false).
  { apply bool_decide_eq_false. destruct page; discriminate. }
  assert (E2 : bool_decide (page ++ lit ".org" = lit ".") = false).
  { apply bool_decide_eq_false. intros E. apply (f_equal (@length N)) in E.
    rewrite length_app in E. destruct page; [congruence|]. simpl in E. lia. }
  cbn [List.filter]. rewrite E1, E2. cbn [orb negb List.last].
  unfold stem_of_name, suffix_index, rfind. rewrite rfind_go_absent; auto.
  change (rfind_go 46 (lit ".org") (0 + length page) None) with (Some (0 + length page)).
  rewrite length_app. cbn [plus].
  replace (0 <? length page) with true.
  2:{ symmetry. apply Nat.ltb_lt. destruct page; [congruence|]. simpl. lia. }
  replace (length page <? length page + length (lit ".org") - 1) with true.
  2:{ symmetry. apply Nat.ltb_lt. change (length (lit ".org")) with 4. lia. }
  cbn [andb]. rewrite firstn_app, Nat.sub_diag, firstn_all. cbn [firstn]. apply app_nil_r.
Qed.

(** *** The two passes on a text that holds a link *)

Lemma is_url_external page : is_url page = true -> looks_external page = true.
Proof.
  intros H. unfold looks_external. apply orb_true_iff. left.
  apply orb_true_iff in H as [H|H]; eapply starts_with_first_line; eauto.
Qed.

Lemma first_line_id (s : list N) : contains LF s = false -> first_line s = s.
Proof.
  induction s as [|c s IH]; simpl; auto. intros H.
  apply orb_false_iff in H as [H1 H2]. rewrite N.eqb_sym, H1. f_equal. auto.
Qed.

Lemma fix_links_bare (pre page post : list N) :
  calm pre = true -> page <> [] -> forallb link_char page = true ->
  fix_links (pre ++ lit "[[" ++ page ++ lit "]]" ++ post) =
  pre ++ (if looks_external page
          then lit "[[" ++ page ++ lit "]]"
          else lit "[[file:" ++ page ++ lit ".org][" ++ page ++ lit "]]")
      ++ fix_links post.
Proof.
  intros Hpre Hne Hp. unfold fix_links.
  replace (pre ++ lit "[[" ++ page ++ lit "]]" ++ post)
    with ((pre ++ lit "[[" ++ page ++ lit "]]") ++ post)
    by (now rewrite <- !app_assoc).
  rewrite (re_sub_dead EMBED_RE); [|reflexivity|].
  2:{ auto with links. }
  rewrite (re_sub_dead WIKI_DESC_RE); [|reflexivity|].
  2:{ auto with links. }
  rewrite <- (app_assoc pre).
  rewrite (re_sub_link WIKI_SIMPLE_RE _ pre (lit "[[" ++ page ++ lit "]]") _
             {| m_text := lit "[[" ++ page ++ lit "]]"; m_caps := [(1, page)] |});
    try reflexivity.
  - f_equal. f_equal. unfold simple_repl. cbn [group cap_get m_caps m_text Nat.eqb].
    destruct (looks_external page) eqn:E.
    + now rewrite url_true.
    + now rewrite url_false.
  - auto with links.
  - rewrite <- !app_assoc. now apply bare_match.
  - discriminate.
Qed.

Lemma fix_links_embed (pre name hint post : list N) :
  calm pre = true -> name <> [] -> forallb link_char name = true ->
  size_hint hint = true ->
  fix_links (pre ++ lit "![[" ++ name ++ hint ++ lit "]]" ++ post) =
  pre ++ lit "[[file:../attachments/" ++ name ++ lit "]]" ++ fix_links post.
Proof.
  intros Hpre Hne Hn Hh. unfold fix_links.
  assert (Hx : forallb link_char (lit "file:../attachments/" ++ name) = true).
  { rewrite forallb_app. apply andb_true_iff. split; [reflexivity | assumption]. }
  replace (pre ++ lit "![[" ++ name ++ hint ++ lit "]]" ++ post)
    with (pre ++ (lit "![[" ++ name ++ hint ++ lit "]]") ++ post)
    by (now rewrite <- !app_assoc).
  rewrite (re_sub_link EMBED_RE _ pre (lit "![[" ++ name ++ hint ++ lit "]]") _
             {| m_text := lit "![[" ++ name ++ hint ++ lit "]]"; m_caps := [(1, name)] |});
    try reflexivity.
  2:{ auto with links. }
  2:{ rewrite <- !app_assoc. apply embed_match; auto.
      eapply forallb_impl; [|exact Hn]. apply link_name_char. }
  2:{ discriminate. }
  change (embed_repl {| m_text := lit "![[" ++ name ++ hint ++ lit "]]"; m_caps := [(1, name)] |})
    with (lit "[[" ++ (lit "file:../attachments/" ++ name) ++ lit "]]").
  change (lit "[[file:../attachments/" ++ name ++ lit "]]")
    with (lit "[[" ++ (lit "file:../attachments/" ++ name) ++ lit "]]").
  set (x := lit "file:../attachments/" ++ name) in *.
  rewrite (app_assoc pre).
  rewrite (re_sub_dead WIKI_DESC_RE); [|reflexivity|].
  2:{ auto with links. }
  rewrite <- (app_assoc pre).
  rewrite (re_sub_link WIKI_SIMPLE_RE _ pre (lit "[[" ++ x ++ lit "]]") _
             {| m_text := lit "[[" ++ x ++ lit "]]"; m_caps := [(1, x)] |});
    try reflexivity.
  - f_equal. unfold simple_repl. cbn [group cap_get m_caps m_text Nat.eqb].
    rewrite url_true; [now rewrite <- !app_assoc | reflexivity].
  - auto with links.
  - rewrite <- !app_assoc. apply bare_match; [subst x; discriminate | exact Hx].
  - discriminate.
Qed.

Lemma nbsp_nobr (s : list N) :
  forallb link_char s = true -> forallb nobr (map nbsp_to_space s) = true.
Proof.
  induction s as [|c s IH]; simpl; auto. intros H.
  apply andb_true_iff in H as [H1 H2]. rewrite (IH H2), andb_true_r.
  unfold nbsp_to_space. destruct (c =? NBSP)%N; [reflexivity|]. now apply link_char_nobr.
Qed.

Lemma truthy_shaped nid : id_shaped nid = true -> truthy (Some nid) = Some nid.
Proof. destruct nid; [discriminate | reflexivity]. Qed.

Lemma relink_file_link nodes (pre page post nid : list N) :
  calm pre = true -> page <> [] -> forallb link_char page = true ->
  contains LF page = false -> contains 47 page = false -> contains 46 page = false ->
  nodes !! node_key page = Some nid -> id_shaped nid = true ->
  relink nodes (pre ++ lit "[[file:" ++ page ++ lit ".org][" ++ page ++ lit "]]" ++ post) =
  pre ++ lit "[[id:" ++ nid ++ lit "][" ++ map nbsp_to_space page ++ lit "]]"
      ++ relink nodes post.
Proof.
  intros Hpre Hne Hp Hlf H1 H2 Hn Hid. unfold relink.
  assert (Hplain : forallb plain_char page = true).
  { clear - Hp Hlf. induction page as [|c s IH]; simpl in *; auto.
    apply andb_true_iff in Hp as [Hc Hp]. apply orb_false_iff in Hlf as [Hl Hlf].
    rewrite IH; auto. rewrite andb_true_r. unfold plain_char. simpl.
    apply link_char_spec in Hc as (Hc & _). rewrite N.eqb_sym in Hl. now rewrite Hl, Hc. }
  change (lit "[[file:" ++ page ++ lit ".org][" ++ page ++ lit "]]" ++ post)
    with (lit "[[file:" ++ page ++ lit ".org" ++ lit "][" ++ page ++ lit "]]" ++ post).
  replace (pre ++ lit "[[file:" ++ page ++ lit ".org" ++ lit "][" ++ page ++ lit "]]" ++ post)
    with (pre ++ (lit "[[file:" ++ (page ++ lit ".org") ++ lit "][" ++ page ++ lit "]]") ++ post)
    by (now rewrite <- !app_assoc).
  rewrite (re_sub_link FILE_LINK_RE _ pre
             (lit "[[file:" ++ (page ++ lit ".org") ++ lit "][" ++ page ++ lit "]]") _
             {| m_text := lit "[[file:" ++ (page ++ lit ".org") ++ lit "][" ++ page ++ lit "]]";
                m_caps := [(2, page); (1, page ++ lit ".org")] |});
    try reflexivity.
  2:{ auto with links. }
  2:{ rewrite <- !app_assoc. rewrite !(app_assoc page (lit ".org")). apply file_match; auto.
      rewrite forallb_app, Hplain. reflexivity. }
  2:{ discriminate. }
  assert (E : repl_file nodes
                {| m_text := lit "[[file:" ++ (page ++ lit ".org") ++ lit "][" ++ page ++ lit "]]";
                   m_caps := [(2, page); (1, page ++ lit ".org")] |}
              = lit "[[id:" ++ nid ++ lit "][" ++ map nbsp_to_space page ++ lit "]]").
  { unfold repl_file. cbn [group cap_get m_caps m_text Nat.eqb].
    rewrite sub_nbsp, path_stem_org; auto. fold (node_key page).
    rewrite Hn, truthy_shaped; auto. }
  rewrite E. set (label := map nbsp_to_space page).
  rewrite (app_assoc pre).
  rewrite (re_sub_dead BARE_LINK_RE); [|reflexivity|].
  - now rewrite <- !app_assoc.
  - pose proof (nbsp_nobr _ Hp). auto with links.
Qed.

Lemma relink_bare_link nodes (pre text post : list N) :
  calm pre = true -> text <> [] -> forallb link_char text = true ->
  starts_with (lit "file:") text = false ->
  relink nodes (pre ++ lit "[[" ++ text ++ lit "]]" ++ post) =
  pre ++ match truthy (nodes !! strip (map nbsp_to_space text)) with
         | Some nid => lit "[[id:" ++ nid ++ lit "][" ++ map nbsp_to_space text ++ lit "]]"
         | None => lit "[[" ++ text ++ lit "]]"
         end ++ relink nodes post.
Proof.
  intros Hpre Hne Hp Hf. unfold relink.
  replace (pre ++ lit "[[" ++ text ++ lit "]]" ++ post)
    with ((pre ++ lit "[[" ++ text ++ lit "]]") ++ post)
    by (now rewrite <- !app_assoc).
  rewrite (re_sub_dead FILE_LINK_RE); [|reflexivity|].
  2:{ auto with links. }
  rewrite <- (app_assoc pre).
  rewrite (re_sub_link BARE_LINK_RE _ pre (lit "[[" ++ text ++ lit "]]") _
             {| m_text := lit "[[" ++ text ++ lit "]]"; m_caps := [(1, text)] |});
    try reflexivity.
  - f_equal. f_equal. unfold repl_bare. cbn [group cap_get m_caps m_text Nat.eqb].
    now rewrite sub_nbsp.
  - auto with links.
  - rewrite <- !app_assoc. now apply bare_match.
  - discriminate.
Qed.

Lemma relink_id_ref nodes (pre nid label post : list N) :
  calm pre = true -> id_shaped nid = true -> forallb nobr label = true ->
  relink nodes (pre ++ lit "[[id:" ++ nid ++ lit "][" ++ label ++ lit "]]" ++ post) =
  pre ++ lit "[[id:" ++ nid ++ lit "][" ++ label ++ lit "]]" ++ relink nodes post.
Proof.
  intros Hpre Hn Hl. unfold relink.
  replace (pre ++ lit "[[id:" ++ nid ++ lit "][" ++ label ++ lit "]]" ++ post)
    with ((pre ++ lit "[[id:" ++ nid ++ lit "][" ++ label ++ lit "]]") ++ post)
    by (now rewrite <- !app_assoc).
  rewrite (re_sub_dead FILE_LINK_RE); [|reflexivity|].
  2:{ auto with links. }
  rewrite (re_sub_dead BARE_LINK_RE); [|reflexivity|].
  - now rewrite <- !app_assoc.
  - auto with links.
Qed.

Lemma relink_no_links nodes (text : list N) :
  occurs (lit "[[") text = false -> relink nodes text = text.
Proof.
  intros H. unfold relink.
  change FILE_LINK_RE
    with (lits (lit "[[")
               (lits (lit "file:")
                     (seq [Grp 1 (Rep Dot 0 false); Lit 93; Lit 91;
                           Grp 2 (Rep Dot 0 false); Lit 93; Lit 93]))).
  rewrite re_sub_absent; auto; try discriminate.
  change BARE_LINK_RE
    with (lits (lit "[[") (seq [Grp 1 (Rep (NoneOf (chars "]|[")) 1 true); Lit 93; Lit 93])).
  rewrite re_sub_absent; auto; discriminate.
Qed.

(** *** Comment restoration *)

Lemma ends_outside_snoc old (l : list N) c :
  ends_outside old (l ++ [c]) = negb (contains c old).
Proof.
  induction l as [|x l IH]; simpl; auto.
  destruct (l ++ [c]) eqn:E; auto. now destruct l.
Qed.

Lemma ends_outside_weaken x old (m : list N) :
  ends_outside (x :: old) m = true -> ends_outside old m = true.
Proof.
  induction m as [|a m IH]; auto. destruct m as [|b m]; [|exact IH].
  simpl. intros H. apply negb_true_iff in H. apply orb_false_iff in H as [_ H].
  now apply negb_true_iff.
Qed.

Lemma starts_with_outside old (l l2 : list N) :
  l <> [] -> ends_outside old l = true -> starts_with old (l ++ l2) = starts_with old l.
Proof.
  revert old. induction l as [|y l IH]; intros old Hne H; [congruence|].
  destruct old as [|x old]; auto. cbn [app starts_with].
  destruct l as [|z l].
  - simpl in H. apply negb_true_iff in H. apply orb_false_iff in H as [H _].
    rewrite N.eqb_sym in H. now rewrite H.
  - f_equal. apply IH; [discriminate|]. apply (ends_outside_weaken x). exact H.
Qed.

Lemma starts_with_length (old l : list N) :
  starts_with old l = true -> length old <= length l.
Proof.
  revert l. induction old as [|x old IH]; intros [|y l]; simpl; try lia; try discriminate.
  intros H. apply andb_true_iff in H as [_ H]. apply IH in H. lia.
Qed.

Lemma ends_outside_tail old c (l : list N) :
  ends_outside old (c :: l) = true -> ends_outside old l = true.
Proof. destruct l; auto. Qed.

Lemma replace_go_app old new (l1 l2 : list N) skip :
  skip <= length l1 -> ends_outside old l1 = true ->
  replace_go old new (l1 ++ l2) skip = replace_go old new l1 skip ++ replace_go old new l2 0.
Proof.
  revert skip. induction l1 as [|c l1 IH]; intros skip Hs He.
  - simpl in Hs. assert (skip = 0) by lia. subst. destruct l2; reflexivity.
  - pose proof (ends_outside_tail _ _ _ He) as Ht.
    cbn [app replace_go]. destruct skip as [|n].
    + change (c :: l1 ++ l2) with ((c :: l1) ++ l2).
      rewrite starts_with_outside; [|discriminate|assumption].
      destruct (starts_with old (c :: l1)) eqn:E.
      * rewrite <- app_assoc. f_equal. apply IH; auto.
        apply starts_with_length in E. simpl in E. lia.
      * simpl. f_equal. apply IH; auto. lia.
    + apply IH; auto. simpl in Hs. lia.
Qed.

Lemma linebreak_outside_marker c :
  is_linebreak c = true -> contains c COMMENT_MARKER = false.
Proof.
  intros H. destruct (contains c COMMENT_MARKER) eqn:E; auto.
  unfold contains in E. apply existsb_exists in E as (m & Hin & Hm).
  apply N.eqb_eq in Hm. subst m.
  assert (Hall : forallb (fun m => negb (is_linebreak m)) COMMENT_MARKER = true) by reflexivity.
  rewrite forallb_forall in Hall. apply Hall in Hin. rewrite H in Hin. discriminate.
Qed.

Lemma restore_comments_go (s cur : list N) :
  concat (map (replace COMMENT_MARKER (lit "# ")) (splitlines_go s cur)) =
  replace COMMENT_MARKER (lit "# ") (rev cur ++ s).
Proof.
  revert cur. induction s as [|c s IH]; intros cur.
  - simpl. destruct cur as [|x cur]; [reflexivity|]. simpl. now rewrite !app_nil_r.
  - cbn [splitlines_go].
    destruct (is_linebreak c && negb ((c =? CR)%N && starts_with [LF] s)) eqn:E.
    + apply andb_true_iff in E as [E _].
      cbn [map concat]. rewrite IH. cbn [rev app].
      change (rev cur ++ c :: s) with (rev cur ++ [c] ++ s). rewrite app_assoc.
      unfold replace. rewrite (replace_go_app _ _ (rev cur ++ [c])); auto; [lia|].
      rewrite ends_outside_snoc, linebreak_outside_marker; auto.
    + rewrite IH. cbn [rev]. now rewrite <- app_assoc.
Qed.

Lemma restore_comments_replace (s : list N) :
  restore_comments s = replace COMMENT_MARKER (lit "# ") s.
Proof. unfold restore_comments, splitlines. now rewrite restore_comments_go. Qed.

Lemma replace_marker_at (a b : list N) :
  contains 35 a = false ->
  replace COMMENT_MARKER (lit "# ") (a ++ COMMENT_MARKER ++ b) =
  a ++ lit "# " ++ replace COMMENT_MARKER (lit "# ") b.
Proof.
  intros Ha. unfold replace. induction a as [|c a IH].
  - change ([] ++ COMMENT_MARKER ++ b) with (35%N :: lit "!#comment:" ++ b).
    cbn [replace_go]. change (35%N :: lit "!#comment:" ++ b) with (COMMENT_MARKER ++ b).
    rewrite starts_with_app. reflexivity.
  - simpl in Ha. apply orb_false_iff in Ha as [H1 H2].
    cbn [app replace_go].
    assert (E : starts_with COMMENT_MARKER (c :: a ++ COMMENT_MARKER ++ b) = false).
    { change COMMENT_MARKER with (35%N :: lit "!#comment:"). cbn [starts_with].
      now rewrite H1. }
    rewrite E. f_equal. auto.
Qed.

(** *** The comment regions *)

Lemma comments_loop_snoc (chunks : list (list N)) last inside out :
  comments_loop (chunks ++ [last]) inside out =
  comments_loop chunks inside out
    ++ (if xorb inside (Nat.odd (length chunks)) then comment_chunk last else [last]).
Proof.
  revert inside out. induction chunks as [|chunk rest IH]; intros inside out.
  - simpl. destruct inside; reflexivity.
  - cbn [app comments_loop length]. rewrite Nat.odd_succ, <- Nat.negb_odd.
    destruct inside; cbn [negb]; rewrite IH; destruct (Nat.odd (length rest)); reflexivity.
Qed.

(** *** The registry *)

Lemma assign_step_nodes (out : list N) st f :
  fst (assign_step out st f) = register (fst st) f.
Proof.
  destruct st as [nodes jobs], f as [rel nid]. unfold assign_step, register, doc_key. simpl.
  destruct (bool_decide (path_name rel = lit ".DS_Store")); auto.
  destruct (negb (bool_decide (path_suffix rel = lit ".md"))); auto.
Qed.

Lemma assign_ids_nodes (out : list N) files st :
  fst (fold_left (assign_step out) files st) = fold_left register files (fst st).
Proof.
  revert st. induction files as [|f files IH]; intros st; simpl; auto.
  now rewrite IH, assign_step_nodes.
Qed.


Lemma register_dom files nodes :
  dom (fold_left register files nodes) =
  dom nodes ∪ list_to_set (omap (fun f => doc_key f.1) files).
Proof.
  revert nodes. induction files as [|f files IH]; intros nodes; cbn [fold_left omap list_omap].
  - cbn [list_to_set]. now rewrite (right_id_L ∅ (∪)).
  - rewrite IH. unfold register. destruct (doc_key f.1) as [k|]; [|reflexivity].
    cbn [list_to_set]. rewrite dom_insert_L, (comm_L (∪) {[k]}). now rewrite (assoc_L (∪)).
Qed.

(** the scenario of the specification: [Notes/A.md] holds a link to B
    and an embed *)
Example end_to_end_links :
  relink sample_nodes (fix_links (lit "See [[B]] and ![[img.png]]")) =
  lit "See [[id:" ++ ID_B ++ lit "][B]] and [[file:../attachments/img.png]]".
Proof. vm_compute. reflexivity. Qed.

Ltac split_all := repeat match goal with |- _ /\ _ => split end.

(** *** Files: line ends and characters that the transforms do not bring in *)

Lemma contains_app c (a b : list N) : contains c (a ++ b) = contains c a || contains c b.
Proof. apply existsb_app. Qed.

Lemma contains_firstn c n (s : list N) : contains c s = false -> contains c (firstn n s) = false.
Proof.
  intros H. rewrite <- (firstn_skipn n s), contains_app in H.
  now apply orb_false_iff in H as [H _].
Qed.

Lemma contains_tail c x (s : list N) : contains c (x :: s) = false -> contains c s = false.
Proof. cbn [contains existsb]. intros H. now apply orb_false_iff in H as [_ H]. Qed.

Lemma newlines_go_without b (s : list N) : contains CR (newlines_go b s) = false.
Proof.
  revert b. induction s as [|x s IH]; intros b; [reflexivity|]. cbn [newlines_go].
  destruct (N.eqb_spec x CR) as [->|Hx].
  - cbn [contains existsb]. fold (contains CR (newlines_go true s)). now rewrite IH.
  - destruct ((x =? LF)%N && b); [apply IH|].
    cbn [contains existsb]. fold (contains CR (newlines_go false s)). rewrite IH.
    destruct (N.eqb_spec CR x); [congruence|reflexivity].
Qed.

Lemma universal_newlines_id (s : list N) : contains CR s = false -> universal_newlines s = s.
Proof.
  unfold universal_newlines. induction s as [|x s IH]; intros H; [reflexivity|].
  cbn [contains existsb] in H. apply orb_false_iff in H as [H1 H2].
  cbn [newlines_go]. rewrite (N.eqb_sym x CR), H1, andb_false_r. now rewrite IH.
Qed.

Lemma read_text_without (c : codec) fs p s : read_text c fs p = Some s -> contains CR s = false.
Proof.
  unfold read_text. destruct (fs !! p) as [bytes|]; [|discriminate]. cbn [mbind option_bind].
  destruct (codec_decode c bytes) as [t|]; [|discriminate]. cbn [mbind option_bind].
  intros [= <-]. apply newlines_go_without.
Qed.

(** what was written without a carriage return is read back as it was *)
Lemma read_text_written (c : codec) fs p s bytes :
  round_trip c -> codec_encode c s = Some bytes -> contains CR s = false ->
  read_text c (<[p := bytes]> fs) p = Some s.
Proof.
  intros Hrt He Hs. unfold read_text. rewrite lookup_insert_eq. cbn [mbind option_bind].
  rewrite (Hrt s bytes He). cbn [mbind option_bind]. now rewrite universal_newlines_id.
Qed.

Lemma rep_greedy_without A (P : A -> Prop) c p min pv (s : list N)
      (k : option N -> list N -> option A) x :
  contains c s = false ->
  (forall pv' s' y, contains c s' = false -> k pv' s' = Some y -> P y) ->
  rep_greedy p min pv s k = Some x -> P x.
Proof.
  intros Hs Hk. revert min pv. induction s as [|y s IH]; intros min pv; cbn [rep_greedy].
  - destruct min; [now apply Hk|discriminate].
  - destruct (p y).
    + destruct (rep_greedy p (pred min) (Some y) s k) eqn:E.
      * intros [= <-]. eapply IH; [eapply contains_tail, Hs|exact E].
      * destruct min; [now apply Hk|discriminate].
    + destruct min; [now apply Hk|discriminate].
Qed.

Lemma rep_lazy_without A (P : A -> Prop) c p min pv (s : list N)
      (k : option N -> list N -> option A) x :
  contains c s = false ->
  (forall pv' s' y, contains c s' = false -> k pv' s' = Some y -> P y) ->
  rep_lazy p min pv s k = Some x -> P x.
Proof.
  intros Hs Hk. revert min pv. induction s as [|y s IH]; intros min pv.
  - destruct min; cbn [rep_lazy]; [|discriminate].
    destruct (k pv []) eqn:E; [|discriminate]. intros [= <-]. eapply Hk, E. exact Hs.
  - pose proof (contains_tail _ _ _ Hs) as Hs'. destruct min; cbn [rep_lazy].
    + destruct (k pv (y :: s)) eqn:E; [intros [= <-]; eapply Hk, E; exact Hs|].
      destruct (p y); [now apply IH|discriminate].
    + destruct (p y); [now apply IH|discriminate].
Qed.

(** a match in a text without [c]: its continuation is reached on a rest
    and with groups without [c] *)
Lemma mtch_without A (P : A -> Prop) c r :
  forall pv (s : list N) g (k : option N -> list N -> caps -> option A) x,
    contains c s = false -> caps_without c g = true ->
    (forall pv' s' g' y, contains c s' = false -> caps_without c g' = true ->
                         k pv' s' g' = Some y -> P y) ->
    mtch r pv s g k = Some x -> P x.
Proof.
  induction r as [|ch|cl|r1 IH1 r2 IH2|r1 IH1 r2 IH2|cl min gr|n r1 IH1| | |r1 IH1];
    intros pv s g k x Hs Hg Hk; cbn [mtch].
  - now apply Hk.
  - destruct s as [|y s]; [discriminate|].
    destruct (y =? ch)%N; [apply Hk; [eapply contains_tail, Hs|exact Hg]|discriminate].
  - destruct s as [|y s]; [discriminate|].
    destruct (in_class cl y); [apply Hk; [eapply contains_tail, Hs|exact Hg]|discriminate].
  - apply IH1; [exact Hs|exact Hg|]. intros pv' s' g' y Hs' Hg'. now apply IH2.
  - destruct (mtch r1 pv s g k) eqn:E.
    + intros [= <-]. eapply IH1; [exact Hs|exact Hg|exact Hk|exact E].
    + now apply IH2.
  - destruct gr.
    + apply (rep_greedy_without A P c); [exact Hs|]. intros pv' s' y Hs'. now apply Hk.
    + apply (rep_lazy_without A P c); [exact Hs|]. intros pv' s' y Hs'. now apply Hk.
  - apply IH1; [exact Hs|exact Hg|]. intros pv' s' g' y Hs' Hg'. apply Hk; [exact Hs'|].
    cbn [caps_without forallb snd]. fold (caps_without c g').
    now rewrite contains_firstn, Hg'.
  - destruct (at_bol pv); [now apply Hk|discriminate].
  - destruct (at_eol s); [now apply Hk|discriminate].
  - destruct (mtch r1 pv s g (fun _ _ _ => Some tt)); [discriminate|now apply Hk].
Qed.

Lemma match_at_without c r f pv (s : list N) m :
  contains c s = false -> match_at r f pv s = Some m ->
  contains c (m_text m) = false /\ caps_without c (m_caps m) = true.
Proof.
  intros Hs.
  apply (mtch_without Match
           (fun m => contains c (m_text m) = false /\ caps_without c (m_caps m) = true) c);
    [exact Hs|reflexivity|].
  intros pv' s' g' y Hs' Hg'. unfold finish.
  destruct (f && Nat.eqb (length s - length s') 0); [discriminate|].
  intros [= <-]. cbn [m_text m_caps]. split; [now apply contains_firstn|exact Hg'].
Qed.

Lemma cap_get_without c n g : caps_without c g = true -> contains c (cap_get n g) = false.
Proof.
  induction g as [|[i v] g IH]; [reflexivity|]. cbn [caps_without forallb snd cap_get].
  intros H. apply andb_true_iff in H as [H1 H2]. apply negb_true_iff in H1.
  destruct (Nat.eqb i n); [exact H1|now apply IH].
Qed.

Lemma group_without c m n :
  contains c (m_text m) = false -> caps_without c (m_caps m) = true ->
  contains c (group m n) = false.
Proof. intros H1 H2. destruct n; [exact H1|now apply cap_get_without]. Qed.

(** a substitution whose replacements bring in no [c] *)
Lemma re_sub_without c r f (s : list N) :
  (forall m, contains c (m_text m) = false -> caps_without c (m_caps m) = true ->
             contains c (f m) = false) ->
  contains c s = false -> contains c (re_sub r f s) = false.
Proof.
  intros Hf. unfold re_sub. generalize (@None N) as pv. generalize 0 as n.
  induction s as [|x s IH]; intros n pv Hs.
  - cbn [sub_go]. destruct n; [|reflexivity].
    destruct (match_at r false pv []) as [m|] eqn:E; [|reflexivity].
    destruct (match_at_without c _ _ _ _ _ Hs E). now apply Hf.
  - pose proof (contains_tail _ _ _ Hs) as Hs'. cbn [sub_go]. destruct n; [|now apply IH].
    assert (contains c (x :: sub_go r f (Some x) s 0) = false) as Hx.
    { cbn [contains existsb] in *. apply orb_false_iff in Hs as [-> _]. now apply IH. }
    destruct (match_at r false pv (x :: s)) as [m|] eqn:E; [|exact Hx].
    destruct (match_at_without c _ _ _ _ _ Hs E) as [H1 H2].
    destruct (length (m_text m)).
    + rewrite contains_app, (Hf m H1 H2). cbn [orb].
      destruct (match_at r true pv (x :: s)) as [m'|] eqn:E'; [|exact Hx].
      destruct (match_at_without c _ _ _ _ _ Hs E') as [H1' H2'].
      rewrite contains_app, (Hf m' H1' H2'). now apply IH.
    + rewrite contains_app, (Hf m H1 H2). now apply IH.
Qed.

Lemma replace_go_without c old new (s : list N) n :
  contains c new = false -> contains c s = false ->
  contains c (replace_go old new s n) = false.
Proof.
  intros Hn. revert n. induction s as [|x s IH]; intros n Hs; [reflexivity|].
  pose proof (contains_tail _ _ _ Hs) as Hs'. cbn [replace_go]. destruct n; [|now apply IH].
  destruct (starts_with old (x :: s)).
  - rewrite contains_app, Hn. now apply IH.
  - cbn [contains existsb] in *. apply orb_false_iff in Hs as [-> _]. now apply IH.
Qed.

Lemma repeat_without c x n : (c =? x)%N = false -> contains c (repeat x n) = false.
Proof. intros H. induction n as [|n IH]; [reflexivity|]. cbn. now rewrite H. Qed.

Lemma fix_links_without_cr (s : list N) : contains CR s = false -> contains CR (fix_links s) = false.
Proof.
  intros H. unfold fix_links. apply re_sub_without; [|apply re_sub_without; [|apply re_sub_without]];
    try exact H.
  - intros m H1 H2. unfold simple_repl.
    destruct (re_match URL_OR_PATH_RE (group m 1)); [now apply group_without|].
    rewrite !contains_app, (group_without CR m 1 H1 H2). reflexivity.
  - intros m H1 H2. unfold desc_repl.
    rewrite !contains_app, (group_without CR m 1 H1 H2), (group_without CR m 2 H1 H2).
    reflexivity.
  - intros m H1 H2. unfold embed_repl.
    rewrite !contains_app, (group_without CR m 1 H1 H2). reflexivity.
Qed.

(** the steps after the conversion bring in no carriage return *)
Lemma post_process_without_cr (s : list N) :
  contains CR s = false -> contains CR (post_process s) = false.
Proof.
  intros H. unfold post_process, fix_attribution_space, fix_list_indent.
  apply re_sub_without; [reflexivity|].
  apply re_sub_without.
  { intros m H1 H2. unfold list_item_repl. rewrite contains_app, repeat_without; reflexivity. }
  apply re_sub_without.
  { intros m H1 H2. rewrite contains_app, (group_without CR m 1 H1 H2). reflexivity. }
  apply fix_links_without_cr. rewrite restore_comments_replace.
  now apply replace_go_without.
Qed.

Lemma ascii_round_trip : round_trip ascii_codec.
Proof.
  intros s. cbn [codec_encode codec_decode ascii_codec].
  induction s as [|ch s IH]; intros bytes.
  - intros [= <-]. reflexivity.
  - cbn [ascii_encode]. destruct (ch <? 128)%N eqn:E; [|discriminate].
    destruct (Byte.of_N ch) as [b|] eqn:Eb; [|discriminate]. cbn [mbind option_bind].
    destruct (ascii_encode s) as [bs|]; [|discriminate]. cbn [mbind option_bind].
    intros [= <-]. specialize (IH bs eq_refl). unfold ascii_decode in *.
    cbn [forallb map]. rewrite (Byte.to_of_N _ Eb), E. cbn [andb].
    destruct (forallb (fun b0 => (Byte.to_N b0 <? 128)%N) bs); [|discriminate].
    now injection IH as ->.
Qed.

(** ** The claims *)

(** C1 (amended).  A bare wiki link [[Page]] whose page has no dot, no slash
    and no line feed, standing after text in which no link can start: if
    a document whose normalized stem equals the normalized page is
    registered, the two passes turn the link into an identifier reference
    to that document's identifier; its label is the page with every
    no-break space replaced by a space, and no file reference is left in
    its place.  What follows the link is rewritten on its own. *)
Theorem wiki_link_becomes_id_reference nodes (pre page post stem nid : list N) :
  calm pre = true -> page <> [] -> forallb link_char page = true ->
  contains LF page = false -> contains 47 page = false -> contains 46 page = false ->
  node_key stem = node_key page -> nodes !! node_key stem = Some nid ->
  id_shaped nid = true ->
  relink nodes (fix_links (pre ++ lit "[[" ++ page ++ lit "]]" ++ post)) =
  pre ++ lit "[[id:" ++ nid ++ lit "][" ++ map nbsp_to_space page ++ lit "]]"
      ++ relink nodes (fix_links post).
Proof.
  intros Hpre Hne Hp Hlf H1 H2 Hk Hn Hid.
  rewrite fix_links_bare; auto.
  assert (E : looks_external page = false).
  { unfold looks_external. now rewrite first_line_id, H1, H2. }
  rewrite E, <- !app_assoc. rewrite Hk in Hn. now apply relink_file_link.
Qed.

Lemma wiki_link_becomes_id_reference_witness :
  calm (lit "See ") = true /\ lit "B" <> [] /\ forallb link_char (lit "B") = true /\
  contains LF (lit "B") = false /\ contains 47 (lit "B") = false /\
  contains 46 (lit "B") = false /\ node_key (lit "B") = node_key (lit "B") /\
  sample_nodes !! node_key (lit "B") = Some ID_B /\ id_shaped ID_B = true /\
  relink sample_nodes (fix_links (lit "See " ++ lit "[[" ++ lit "B" ++ lit "]]" ++ lit " and more")) =
  lit "See " ++ lit "[[id:" ++ ID_B ++ lit "][" ++ map nbsp_to_space (lit "B") ++ lit "]]"
      ++ relink sample_nodes (fix_links (lit " and more")).
Proof.
  assert (H1 : calm (lit "See ") = true) by reflexivity.
  assert (H2 : lit "B" <> []) by discriminate.
  assert (H3 : forallb link_char (lit "B") = true) by reflexivity.
  assert (H4 : contains LF (lit "B") = false) by reflexivity.
  assert (H5 : contains 47 (lit "B") = false) by reflexivity.
  assert (H6 : contains 46 (lit "B") = false) by reflexivity.
  assert (H7 : node_key (lit "B") = node_key (lit "B")) by reflexivity.
  assert (H8 : sample_nodes !! node_key (lit "B") = Some ID_B) by (vm_compute; reflexivity).
  assert (H9 : id_shaped ID_B = true) by reflexivity.
  split_all; try assumption.
  exact (wiki_link_becomes_id_reference sample_nodes (lit "See ") (lit "B") (lit " and more")
           (lit "B") ID_B H1 H2 H3 H4 H5 H6 H7 H8 H9).
Defined.

(** C1 as stated fails: with [a b.md] registered, the link [[a b]] written
    with a no-break space is resolved, but its label is not the page as
    written. *)
Lemma wiki_link_label_is_not_page :
  node_key (lit "a b") = node_key [97; NBSP; 98]%N /\
  fst (assign_ids (lit "out") [(lit "a b.md", ID_A)]) !! node_key (lit "a b") = Some ID_A /\
  relink (fst (assign_ids (lit "out") [(lit "a b.md", ID_A)]))
         (fix_links (lit "[[" ++ [97; NBSP; 98]%N ++ lit "]]")) =
  lit "[[id:" ++ ID_A ++ lit "][a b]]" /\
  occurs (lit "[[id:" ++ ID_A ++ lit "][" ++ [97; NBSP; 98]%N ++ lit "]]")
         (relink (fst (assign_ids (lit "out") [(lit "a b.md", ID_A)]))
                 (fix_links (lit "[[" ++ [97; NBSP; 98]%N ++ lit "]]"))) = false.
Proof. vm_compute. split_all; reflexivity. Qed.

(** A file reference made from an embed has no label part, so the file
    pattern of the second pass runs on from it to the next label on the
    line and takes the link in between with it: that link stays a file
    reference. *)
Remark link_after_embed_stays_file_reference :
  relink sample_nodes (fix_links (lit "![[img.png]] and [[B]]")) =
  lit "[[file:../attachments/img.png]] and [[file:B.org][B]]".
Proof. vm_compute. reflexivity. Qed.

(** C2 (amended).  A bare wiki link whose page starts like a URL or has a
    slash or a dot on its first line, standing after text in which no link
    can start, is left as it is by the first pass; the second pass leaves
    it too when it is not a file link and the registry has no identifier
    for it, neither under its text with no-break spaces replaced and
    trimmed nor under its normalized text. *)
Theorem external_link_left_alone nodes (pre page post : list N) :
  calm pre = true -> page <> [] -> forallb link_char page = true ->
  is_url page || looks_external page = true ->
  fix_links (pre ++ lit "[[" ++ page ++ lit "]]" ++ post) =
  pre ++ lit "[[" ++ page ++ lit "]]" ++ fix_links post /\
  (starts_with (lit "file:") page = false ->
   truthy (nodes !! strip (map nbsp_to_space page)) = None ->
   truthy (nodes !! node_key page) = None ->
   relink nodes (fix_links (pre ++ lit "[[" ++ page ++ lit "]]" ++ post)) =
   pre ++ lit "[[" ++ page ++ lit "]]" ++ relink nodes (fix_links post)).
Proof.
  intros Hpre Hne Hp Hx.
  assert (E : looks_external page = true).
  { apply orb_true_iff in Hx as [Hx|Hx]; auto. now apply is_url_external. }
  assert (E1 : fix_links (pre ++ lit "[[" ++ page ++ lit "]]" ++ post) =
               pre ++ lit "[[" ++ page ++ lit "]]" ++ fix_links post).
  { rewrite fix_links_bare; auto. rewrite E. now rewrite <- !app_assoc. }
  split; [exact E1|].
  intros Hf Hn _. rewrite E1, relink_bare_link; auto. rewrite Hn. now rewrite <- !app_assoc.
Qed.

Lemma external_link_left_alone_witness :
  calm (lit "at ") = true /\ lit "https://x.org/a" <> [] /\
  forallb link_char (lit "https://x.org/a") = true /\
  is_url (lit "https://x.org/a") || looks_external (lit "https://x.org/a") = true /\
  starts_with (lit "file:") (lit "https://x.org/a") = false /\
  truthy (sample_nodes !! strip (map nbsp_to_space (lit "https://x.org/a"))) = None /\
  truthy (sample_nodes !! node_key (lit "https://x.org/a")) = None /\
  fix_links (lit "at " ++ lit "[[" ++ lit "https://x.org/a" ++ lit "]]" ++ lit ".") =
  lit "at " ++ lit "[[" ++ lit "https://x.org/a" ++ lit "]]" ++ fix_links (lit ".") /\
  relink sample_nodes
         (fix_links (lit "at " ++ lit "[[" ++ lit "https://x.org/a" ++ lit "]]" ++ lit ".")) =
  lit "at " ++ lit "[[" ++ lit "https://x.org/a" ++ lit "]]"
      ++ relink sample_nodes (fix_links (lit ".")).
Proof.
  assert (H1 : calm (lit "at ") = true) by reflexivity.
  assert (H2 : lit "https://x.org/a" <> []) by discriminate.
  assert (H3 : forallb link_char (lit "https://x.org/a") = true) by reflexivity.
  assert (H4 : is_url (lit "https://x.org/a") || looks_external (lit "https://x.org/a") = true)
    by reflexivity.
  assert (H5 : starts_with (lit "file:") (lit "https://x.org/a") = false) by reflexivity.
  assert (H6 : truthy (sample_nodes !! strip (map nbsp_to_space (lit "https://x.org/a"))) = None)
    by (vm_compute; reflexivity).
  assert (H7 : truthy (sample_nodes !! node_key (lit "https://x.org/a")) = None)
    by (vm_compute; reflexivity).
  destruct (external_link_left_alone sample_nodes (lit "at ") (lit "https://x.org/a") (lit ".")
              H1 H2 H3 H4) as [E1 E2].
  do 7 (split; [assumption|]). split; [exact E1 | exact (E2 H5 H6 H7)].
Defined.

(** C2 as stated fails: the labelled form of a URL link is rewritten by
    the first pass, and a bare link with a dot is replaced by the second
    pass when its text is a key of the registry. *)
Lemma labelled_external_link_rewritten :
  fix_links (lit "[[http://x.y|label]]") = lit "[[file:http://x.y.org][label]]" /\
  fix_links (lit "[[v1.0]]") = lit "[[v1.0]]" /\
  relink (fst (assign_ids (lit "out") [(lit "v1.0.md", ID_A)])) (fix_links (lit "[[v1.0]]")) =
  lit "[[id:" ++ ID_A ++ lit "][v1.0]]".
Proof. vm_compute. split_all; reflexivity. Qed.

(** C3 (amended).  In the second pass a bare link that is not a file
    link, standing after text in which no link can start, and whose text
    gives the same key when its no-break spaces are replaced and it is
    trimmed as when it is normalized: the link is looked up under that
    key; if the registry has a non-empty identifier there, the link
    becomes an identifier reference whose label is the text with every
    no-break space replaced by a space, nothing else changed and nothing
    trimmed; otherwise the link is left untouched. *)
Theorem bare_link_resolution nodes (pre text post : list N) :
  calm pre = true -> text <> [] -> forallb link_char text = true ->
  starts_with (lit "file:") text = false ->
  strip (map nbsp_to_space text) = node_key text ->
  relink nodes (pre ++ lit "[[" ++ text ++ lit "]]" ++ post) =
  pre ++ match truthy (nodes !! node_key text) with
         | Some nid => lit "[[id:" ++ nid ++ lit "][" ++ map nbsp_to_space text ++ lit "]]"
         | None => lit "[[" ++ text ++ lit "]]"
         end ++ relink nodes post.
Proof. intros Hpre Hne Hp Hf Hk. rewrite <- Hk. now apply relink_bare_link. Qed.

Lemma bare_link_resolution_witness :
  calm (lit "see ") = true /\ [9; 66; 46; 120; 32]%N <> [] /\
  forallb link_char [9; 66; 46; 120; 32]%N = true /\
  starts_with (lit "file:") [9; 66; 46; 120; 32]%N = false /\
  strip (map nbsp_to_space [9; 66; 46; 120; 32]%N) = node_key [9; 66; 46; 120; 32]%N /\
  relink (fst (assign_ids (lit "out") [(lit "B.x.md", ID_B)]))
         (lit "see " ++ lit "[[" ++ [9; 66; 46; 120; 32]%N ++ lit "]]" ++ lit "!") =
  lit "see "
      ++ match truthy (fst (assign_ids (lit "out") [(lit "B.x.md", ID_B)])
                           !! node_key [9; 66; 46; 120; 32]%N) with
         | Some nid =>
             lit "[[id:" ++ nid ++ lit "][" ++ map nbsp_to_space [9; 66; 46; 120; 32]%N ++ lit "]]"
         | None => lit "[[" ++ [9; 66; 46; 120; 32]%N ++ lit "]]"
         end
      ++ relink (fst (assign_ids (lit "out") [(lit "B.x.md", ID_B)])) (lit "!").
Proof.
  assert (H1 : calm (lit "see ") = true) by reflexivity.
  assert (H2 : [9; 66; 46; 120; 32]%N <> []) by discriminate.
  assert (H3 : forallb link_char [9; 66; 46; 120; 32]%N = true) by reflexivity.
  assert (H4 : starts_with (lit "file:") [9; 66; 46; 120; 32]%N = false) by reflexivity.
  assert (H5 : strip (map nbsp_to_space [9; 66; 46; 120; 32]%N) = node_key [9; 66; 46; 120; 32]%N)
    by (vm_compute; reflexivity).
  do 5 (split; [assumption|]).
  exact (bare_link_resolution (fst (assign_ids (lit "out") [(lit "B.x.md", ID_B)]))
           (lit "see ") [9; 66; 46; 120; 32]%N (lit "!") H1 H2 H3 H4 H5).
Defined.

(** C3 as stated fails.  The label is not the normalized text: a tab
    before the name stays a tab.  And the key is not the normalized text:
    [a  .b.md], with two spaces, is registered under the key with one
    space, which is the normalized text of the link [[a  .b]], yet the
    second pass leaves the link untouched. *)
Lemma bare_link_not_normalized :
  relink (fst (assign_ids (lit "out") [(lit "B.x.md", ID_B)])) (lit "[[" ++ [9%N] ++ lit "B.x]]") =
  lit "[[id:" ++ ID_B ++ lit "][" ++ [9%N] ++ lit "B.x]]" /\
  fst (assign_ids (lit "out") [(lit "a  .b.md", ID_A)]) !! node_key (lit "a  .b") = Some ID_A /\
  relink (fst (assign_ids (lit "out") [(lit "a  .b.md", ID_A)])) (lit "[[a  .b]]") =
  lit "[[a  .b]]".
Proof. vm_compute. split_all; reflexivity. Qed.



(** C5 (amended).  An embed whose name has no opening bracket, with or
    without a size hint, standing after text in which no link can start,
    is rewritten by the first pass to a file reference to the name under
    [../attachments/]; the hint is dropped. *)
Theorem embed_becomes_attachment_reference (pre name hint post : list N) :
  calm pre = true -> name <> [] -> forallb link_char name = true ->
  size_hint hint = true ->
  fix_links (pre ++ lit "![[" ++ name ++ hint ++ lit "]]" ++ post) =
  pre ++ lit "[[file:../attachments/" ++ name ++ lit "]]" ++ fix_links post.
Proof. apply fix_links_embed. Qed.

Lemma embed_becomes_attachment_reference_witness :
  calm [] = true /\ lit "photo.png" <> [] /\ forallb link_char (lit "photo.png") = true /\
  size_hint (lit "|300") = true /\
  fix_links ([] ++ lit "![[" ++ lit "photo.png" ++ lit "|300" ++ lit "]]" ++ []) =
  [] ++ lit "[[file:../attachments/" ++ lit "photo.png" ++ lit "]]" ++ fix_links [].
Proof.
  assert (H1 : calm [] = true) by reflexivity.
  assert (H2 : lit "photo.png" <> []) by discriminate.
  assert (H3 : forallb link_char (lit "photo.png") = true) by reflexivity.
  assert (H4 : size_hint (lit "|300") = true) by reflexivity.
  do 4 (split; [assumption|]).
  exact (embed_becomes_attachment_reference [] (lit "photo.png") (lit "|300") [] H1 H2 H3 H4).
Defined.

(** C5 as stated fails: an embed name may hold opening brackets, and the
    simple-link step of the same pass then rewrites the end of the file
    reference just made. *)
Lemma embed_name_with_brackets_rewritten_again :
  fix_links (lit "![[a[[b]]") = lit "[[file:../attachments/a[[file:b.org][b]]" /\
  occurs (lit "[[file:../attachments/a[[b]]") (fix_links (lit "![[a[[b]]")) = false.
Proof. vm_compute. split_all; reflexivity. Qed.

(** C6.  On a text without a double opening bracket the second pass is
    idempotent. *)
Theorem relink_idempotent_without_links nodes (text : list N) :
  occurs (lit "[[") text = false ->
  relink nodes (relink nodes text) = relink nodes text.
Proof. intros H. rewrite (relink_no_links nodes text H). now apply relink_no_links. Qed.

Lemma relink_idempotent_without_links_witness :
  occurs (lit "[[") (lit "Hello [world] ]] [") = false /\
  relink sample_nodes (relink sample_nodes (lit "Hello [world] ]] [")) =
  relink sample_nodes (lit "Hello [world] ]] [").
Proof.
  assert (H1 : occurs (lit "[[") (lit "Hello [world] ]] [") = false) by reflexivity.
  split; [assumption|].
  exact (relink_idempotent_without_links sample_nodes (lit "Hello [world] ]] [") H1).
Defined.

(** C7.  When a worker has converted a job, the output file holds, in
    the encoding of the locale, the line that opens the property block,
    the line that binds [ID] to the identifier of the job, the line that
    closes the block, the title line with the stem of the output file, an
    empty line, and then the body that the conversion had written, as it
    was: the body is read back in text mode, which would turn carriage
    returns into line feeds, but the text that the conversion writes
    holds none.  (The codec is assumed to decode what it has encoded.) *)
Theorem worker_convert_header (c : codec) (pandoc : list Byte.byte -> option (list Byte.byte))
        (fs : gmap (list N) (list Byte.byte)) (j : job) fs2 fname :
  round_trip c ->
  worker_convert c pandoc fs j = Some (fs2, fname) ->
  exists fs1 body body_bytes final_bytes,
    convert_markdown_file c pandoc fs (job_md j) (job_org j) = Some fs1 /\
    codec_encode c body = Some body_bytes /\
    fs1 !! job_org j = Some body_bytes /\
    codec_encode c (lit ":PROPERTIES:" ++ [LF] ++ lit ":ID: " ++ job_id j ++ [LF]
                    ++ lit ":END:" ++ [LF] ++ lit "#+title: " ++ path_stem (job_org j) ++ [LF]
                    ++ [LF] ++ body) = Some final_bytes /\
    fs2 !! job_org j = Some final_bytes.
Proof.
  intros Hrt H. destruct j as [md_path org_path node_id]. cbn [job_md job_org job_id] in *.
  unfold worker_convert in H.
  destruct (convert_markdown_file c pandoc fs md_path org_path) as [fs1|] eqn:E1;
    cbn [mbind option_bind] in H; [|discriminate].
  destruct (add_node_id c fs1 org_path node_id) as [fs2'|] eqn:E2;
    cbn [mbind option_bind] in H; [|discriminate].
  injection H as <- <-.
  unfold convert_markdown_file in E1.
  destruct (read_text c fs md_path) as [md|]; cbn [mbind option_bind] in E1; [|discriminate].
  destruct (codec_encode c (prepare_markdown_text md)) as [tmp|];
    cbn [mbind option_bind] in E1; [|discriminate].
  destruct (pandoc tmp) as [out|]; cbn [mbind option_bind] in E1; [|discriminate].
  destruct (read_text c (<[org_path := out]> fs) org_path) as [org|] eqn:Er;
    cbn [mbind option_bind] in E1; [|discriminate].
  fold (post_process org) in E1. unfold write_text in E1.
  destruct (codec_encode c (post_process org)) as [body_bytes|] eqn:Eb;
    cbn [mbind option_bind] in E1; [|discriminate].
  injection E1 as <-.
  assert (contains CR (post_process org) = false) as Hcr
    by (eapply post_process_without_cr, read_text_without, Er).
  unfold add_node_id in E2.
  rewrite (read_text_written c _ org_path _ _ Hrt Eb Hcr) in E2. cbn [mbind option_bind] in E2.
  unfold write_text in E2.
  match type of E2 with
  | context [codec_encode c ?t] => destruct (codec_encode c t) as [final_bytes|] eqn:Ef
  end; cbn [mbind option_bind] in E2; [|discriminate].
  injection E2 as <-.
  exists (<[org_path := body_bytes]> (<[org_path := out]> fs)), (post_process org),
    body_bytes, final_bytes.
  split; [reflexivity|]. split; [exact Eb|]. split; [apply lookup_insert_eq|].
  split; [|apply lookup_insert_eq].
  rewrite <- Ef. f_equal. cbn [app]. now rewrite <- !app_assoc.
Qed.

Lemma worker_convert_header_witness :
  exists fs2 fname,
    worker_convert ascii_codec Some
      {[ lit "in/A.md" := blit "Hello" ++ [Byte.x0d; Byte.x0a] ++ blit "[[B]]" ]}
      {| job_md := lit "in/A.md"; job_org := lit "out/A.org"; job_id := ID_A |}
    = Some (fs2, fname) /\
    exists fs1 body body_bytes final_bytes,
      convert_markdown_file ascii_codec Some
        {[ lit "in/A.md" := blit "Hello" ++ [Byte.x0d; Byte.x0a] ++ blit "[[B]]" ]}
        (lit "in/A.md") (lit "out/A.org") = Some fs1 /\
      ascii_encode body = Some body_bytes /\
      fs1 !! lit "out/A.org" = Some body_bytes /\
      ascii_encode (lit ":PROPERTIES:" ++ [LF] ++ lit ":ID: " ++ ID_A ++ [LF]
                    ++ lit ":END:" ++ [LF] ++ lit "#+title: " ++ path_stem (lit "out/A.org")
                    ++ [LF] ++ [LF] ++ body) = Some final_bytes /\
      fs2 !! lit "out/A.org" = Some final_bytes.
Proof.
  destruct (worker_convert ascii_codec Some
              {[ lit "in/A.md" := blit "Hello" ++ [Byte.x0d; Byte.x0a] ++ blit "[[B]]" ]}
              {| job_md := lit "in/A.md"; job_org := lit "out/A.org"; job_id := ID_A |})
    as [[fs2 fname]|] eqn:E.
  - exists fs2, fname. split; [reflexivity|].
    exact (worker_convert_header ascii_codec Some _
             {| job_md := lit "in/A.md"; job_org := lit "out/A.org"; job_id := ID_A |}
             fs2 fname ascii_round_trip E).
  - vm_compute in E. discriminate E.
Defined.

(** C8 (amended).  Comment restoration replaces every occurrence of the
    marker by the comment prefix, as one replacement over the whole text
    does; in particular an occurrence that follows any text without a
    hash sign, at the start of a line or not, is replaced. *)
Theorem restore_comments_everywhere (s a b : list N) :
  contains 35 a = false ->
  restore_comments s = replace COMMENT_MARKER (lit "# ") s /\
  restore_comments (a ++ COMMENT_MARKER ++ b) = a ++ lit "# " ++ restore_comments b.
Proof.
  intros Ha. split; [apply restore_comments_replace|].
  rewrite !restore_comments_replace. now apply replace_marker_at.
Qed.

Lemma restore_comments_everywhere_witness :
  contains 35 (lit "- item ") = false /\
  restore_comments (lit "a" ++ [LF] ++ lit "b") =
  replace COMMENT_MARKER (lit "# ") (lit "a" ++ [LF] ++ lit "b") /\
  restore_comments (lit "- item " ++ COMMENT_MARKER ++ lit "note") =
  lit "- item " ++ lit "# " ++ restore_comments (lit "note").
Proof.
  assert (H1 : contains 35 (lit "- item ") = false) by reflexivity.
  split; [assumption|].
  exact (restore_comments_everywhere (lit "a" ++ [LF] ++ lit "b") (lit "- item ") (lit "note") H1).
Defined.

(** C8 as stated fails: a marker inside a line is replaced too. *)
Lemma marker_inside_line_replaced :
  restore_comments (lit "x #!#comment:y") = lit "x # y".
Proof. vm_compute. reflexivity. Qed.

(** C9 (amended).  The text after the last delimiter is appended as it
    is when the delimiters before it are even in number; when they are
    odd in number it is a comment region like the others: wrapped as an
    inline comment if it has no line feed; otherwise its lines, without
    the first one when that is blank, are each put behind the marker.
    The transform is a total function: it never raises. *)
Theorem trailing_span_is_comment (s : list N) (chunks : list (list N)) (last : list N) :
  split (lit "%%") s = chunks ++ [last] ->
  fix_markdown_comments s =
  concat (comments_loop chunks false [])
  ++ (if Nat.odd (length chunks)
      then (if contains LF last
            then concat (map (app COMMENT_MARKER) (kept_lines last))
            else lit "<!--" ++ last ++ lit "-->")
      else last).
Proof.
  intros H. unfold fix_markdown_comments. rewrite H, comments_loop_snoc, concat_app.
  cbn [xorb]. destruct (Nat.odd (length chunks)).
  - f_equal. unfold comment_chunk, kept_lines. destruct (contains LF last); [reflexivity|].
    cbn [concat]. now rewrite app_nil_r.
  - cbn [concat]. now rewrite app_nil_r.
Qed.

Lemma trailing_span_is_comment_witness :
  split (lit "%%") (lit "a%%" ++ LF :: lit "b" ++ LF :: lit "c") =
    [lit "a"] ++ [LF :: lit "b" ++ LF :: lit "c"] /\
  kept_lines (LF :: lit "b" ++ LF :: lit "c") = [lit "b" ++ [LF]; lit "c"] /\
  fix_markdown_comments (lit "a%%" ++ LF :: lit "b" ++ LF :: lit "c") =
  concat (comments_loop [lit "a"] false [])
  ++ (if Nat.odd (length [lit "a"])
      then (if contains LF (LF :: lit "b" ++ LF :: lit "c")
            then concat (map (app COMMENT_MARKER) (kept_lines (LF :: lit "b" ++ LF :: lit "c")))
            else lit "<!--" ++ (LF :: lit "b" ++ LF :: lit "c") ++ lit "-->")
      else LF :: lit "b" ++ LF :: lit "c").
Proof.
  assert (H1 : split (lit "%%") (lit "a%%" ++ LF :: lit "b" ++ LF :: lit "c") =
               [lit "a"] ++ [LF :: lit "b" ++ LF :: lit "c"]) by (vm_compute; reflexivity).
  split; [assumption|]. split; [vm_compute; reflexivity|].
  exact (trailing_span_is_comment (lit "a%%" ++ LF :: lit "b" ++ LF :: lit "c") [lit "a"]
           (LF :: lit "b" ++ LF :: lit "c") H1).
Defined.

(** C9 as stated fails: after a single delimiter the rest of the text is
    not appended as it is, it is wrapped as a comment. *)
Lemma unmatched_delimiter_comments_the_rest :
  split (lit "%%") (lit "a %% b") = [lit "a "; lit " b"] /\
  fix_markdown_comments (lit "a %% b") = lit "a <!-- b-->".
Proof. vm_compute. split_all; reflexivity. Qed.

(** C10 (amended).  An identifier reference whose identifier has the
    shape of the minted ones and whose label has no opening bracket,
    standing after text in which no link can start, is matched by neither
    pattern of the second pass: the pass copies it and goes on with what
    follows. *)
Theorem id_reference_survives_relink nodes (pre nid label post : list N) :
  calm pre = true -> id_shaped nid = true -> forallb nobr label = true ->
  relink nodes (pre ++ lit "[[id:" ++ nid ++ lit "][" ++ label ++ lit "]]" ++ post) =
  pre ++ lit "[[id:" ++ nid ++ lit "][" ++ label ++ lit "]]" ++ relink nodes post.
Proof. apply relink_id_ref. Qed.

Lemma id_reference_survives_relink_witness :
  calm (lit "See ") = true /\ id_shaped ID_B = true /\ forallb nobr (lit "B") = true /\
  relink sample_nodes (lit "See " ++ lit "[[id:" ++ ID_B ++ lit "][" ++ lit "B" ++ lit "]]" ++ lit ".") =
  lit "See " ++ lit "[[id:" ++ ID_B ++ lit "][" ++ lit "B" ++ lit "]]" ++ relink sample_nodes (lit ".").
Proof.
  assert (H1 : calm (lit "See ") = true) by reflexivity.
  assert (H2 : id_shaped ID_B = true) by reflexivity.
  assert (H3 : forallb nobr (lit "B") = true) by reflexivity.
  do 3 (split; [assumption|]).
  exact (id_reference_survives_relink sample_nodes (lit "See ") ID_B (lit "B") (lit ".") H1 H2 H3).
Defined.

(** C10 as stated fails: the label of an identifier reference made by the
    second pass may hold a file link, and a second run rewrites it. *)
Lemma id_reference_label_relinked :
  fix_links (lit "[[A|x [[B]]") = lit "[[file:A.org][x [[file:B.org][B]]" /\
  relink sample_nodes (fix_links (lit "[[A|x [[B]]")) =
  lit "[[id:" ++ ID_A ++ lit "][x [[file:B.org][B]]" /\
  relink sample_nodes (relink sample_nodes (fix_links (lit "[[A|x [[B]]"))) =
  lit "[[id:" ++ ID_A ++ lit "][x [[id:" ++ ID_B ++ lit "][B]]".
Proof. vm_compute. split_all; reflexivity. Qed.

(** * Further properties of the code *)

(** ** Scanning *)

(** *** Texts without matches, and patterns anchored at the line start *)

Lemma sub_go_never r f pv (s : list N) : never r s -> sub_go r f pv s 0 = s.
Proof.
  revert pv. induction s as [|c s IH]; intros pv H.
  - simpl. now rewrite (H pv [] []).
  - simpl. rewrite (H pv [] (c :: s)); auto. f_equal. apply IH.
    intros pv' a b ->. apply (H pv' (c :: a) b). reflexivity.
Qed.

Lemma re_sub_never r f (s : list N) : never r s -> re_sub r f s = s.
Proof. apply sub_go_never. Qed.

Lemma never_head (c : N) r (s : list N) :
  (forall pv b, starts_with [c] b = false -> match_at r false pv b = None) ->
  contains c s = false -> never r s.
Proof.
  intros Hr Hs pv a b ->. apply Hr. rewrite contains_app in Hs.
  apply orb_false_iff in Hs as [_ Hs]. destruct b as [|x b]; [reflexivity|].
  simpl in *. apply orb_false_iff in Hs as [Hs _]. now rewrite Hs.
Qed.

Lemma match_at_bol_false r f pv s : at_bol pv = false -> match_at (Seq Bol r) f pv s = None.
Proof. intros H. unfold match_at. cbn [mtch]. now rewrite H. Qed.

Lemma match_at_bol_pv r f pv1 pv2 s :
  anchor_free r = true -> at_bol pv1 = at_bol pv2 ->
  match_at (Seq Bol r) f pv1 s = match_at (Seq Bol r) f pv2 s.
Proof.
  intros Hr Hb. unfold match_at. cbn [mtch]. rewrite Hb.
  destruct (at_bol pv2); auto. apply mtch_pv; auto.
Qed.

Lemma sub_go_bol_pv r f pv1 pv2 s n :
  anchor_free r = true -> at_bol pv1 = at_bol pv2 ->
  sub_go (Seq Bol r) f pv1 s n = sub_go (Seq Bol r) f pv2 s n.
Proof.
  intros Hr Hb. destruct s as [|c s]; simpl.
  - now rewrite (match_at_bol_pv r false pv1 pv2).
  - rewrite (match_at_bol_pv r false pv1 pv2), (match_at_bol_pv r true pv1 pv2); auto.
Qed.

Lemma pv_after_app pv (a b : list N) : pv_after pv (a ++ b) = pv_after (pv_after pv a) b.
Proof. revert pv. induction a as [|c a IH]; intros pv; [reflexivity|apply IH]. Qed.

Lemma at_bol_after pv (t : list N) :
  at_bol pv = false -> contains LF t = false -> at_bol (pv_after pv t) = false.
Proof.
  revert pv. induction t as [|c t IH]; intros pv Hp Ht; auto.
  simpl in Ht. apply orb_false_iff in Ht as [H1 H2]. simpl. apply IH; auto.
  simpl. now rewrite N.eqb_sym.
Qed.

(** inside a line nothing matches *)
Lemma sub_go_inside_line r f pv (t b : list N) :
  at_bol pv = false -> contains LF t = false ->
  sub_go (Seq Bol r) f pv (t ++ b) 0 = t ++ sub_go (Seq Bol r) f (pv_after pv t) b 0.
Proof.
  revert pv. induction t as [|c t IH]; intros pv Hp Ht; auto.
  simpl in Ht. apply orb_false_iff in Ht as [H1 H2].
  cbn [app sub_go]. rewrite match_at_bol_false; auto. f_equal. apply IH; auto.
  simpl. now rewrite N.eqb_sym.
Qed.

(** *** The attribution dash *)

Lemma attr_match f pv c (s : list N) :
  match_at ATTRIBUTION_RE f pv (c :: s) =
  if at_bol pv && (c =? HBAR)%N && negb (starts_with [32%N] s)
  then Some {| m_text := [HBAR]; m_caps := [] |} else None.
Proof.
  unfold match_at, ATTRIBUTION_RE. cbn [seq mtch].
  destruct (at_bol pv); [|reflexivity].
  destruct (N.eqb_spec c HBAR) as [->|]; [|reflexivity].
  destruct s as [|x s]; cbn [starts_with andb negb].
  - unfold finish. cbn. now destruct f.
  - rewrite andb_true_r, (N.eqb_sym 32 x). destruct (x =? 32)%N; cbn [negb]; [reflexivity|].
    change (HBAR :: x :: s) with ([HBAR] ++ x :: s). unfold finish.
    rewrite firstn_len_diff, length_app.
    replace (length [HBAR] + length (x :: s) - length (x :: s)) with 1 by (cbn [length]; lia).
    now destruct f.
Qed.

Lemma attr_fix_sub pv (s : list N) :
  sub_go ATTRIBUTION_RE (fun _ => [HBAR; 32%N]) pv s 0 = attr_fix (at_bol pv) s.
Proof.
  revert pv. induction s as [|c s IH]; intros pv.
  { cbn [sub_go attr_fix]. unfold match_at, ATTRIBUTION_RE. cbn [seq mtch].
    now destruct (at_bol pv). }
  cbn [sub_go attr_fix]. rewrite attr_match.
  destruct (at_bol pv && (c =? HBAR)%N && negb (starts_with [32%N] s)) eqn:E.
  - apply andb_true_iff in E as [E _]. apply andb_true_iff in E as [_ E].
    apply N.eqb_eq in E. subst c. cbn [m_text length app]. now rewrite IH.
  - now rewrite IH.
Qed.

Lemma attr_fix_head x b (s : list N) :
  starts_with [x] (attr_fix b s) = starts_with [x] s.
Proof.
  destruct s as [|c s]; [reflexivity|]. cbn [attr_fix].
  now destruct (b && (c =? HBAR)%N && negb (starts_with [32%N] s)).
Qed.

Lemma attr_fix_idem b (s : list N) : attr_fix b (attr_fix b s) = attr_fix b s.
Proof.
  revert b. induction s as [|c s IH]; intros b; [reflexivity|].
  cbn [attr_fix].
  destruct (b && (c =? HBAR)%N && negb (starts_with [32%N] s)) eqn:E.
  - apply andb_true_iff in E as [E _]. apply andb_true_iff in E as [_ E].
    apply N.eqb_eq in E. subst c. cbn [attr_fix starts_with].
    rewrite N.eqb_refl. cbn [andb negb]. rewrite andb_false_r.
    change (HBAR =? LF)%N with false. change (32 =? LF)%N with false.
    cbn [andb]. now rewrite IH.
  - cbn [attr_fix]. rewrite attr_fix_head, E. now rewrite IH.
Qed.

Lemma attr_fix_lines b (a rest : list N) :
  attr_fix b (a ++ LF :: rest) = attr_fix b a ++ LF :: attr_fix true rest.
Proof.
  revert b. induction a as [|c a IH]; intros b.
  - cbn [app attr_fix]. change (LF =? HBAR)%N with false. rewrite andb_false_r.
    cbn [andb]. now rewrite N.eqb_refl.
  - cbn [app attr_fix].
    assert (starts_with [32%N] (a ++ LF :: rest) = starts_with [32%N] a) as ->.
    { destruct a; reflexivity. }
    destruct (b && (c =? HBAR)%N && negb (starts_with [32%N] a)); cbn [app]; now rewrite IH.
Qed.

Lemma attr_fix_inside (t : list N) : contains LF t = false -> attr_fix false t = t.
Proof.
  induction t as [|c t IH]; intros H; [reflexivity|].
  simpl in H. apply orb_false_iff in H as [H1 H2].
  cbn [attr_fix andb]. rewrite N.eqb_sym, H1. now rewrite IH.
Qed.

Lemma fix_attribution_space_fix (text : list N) :
  fix_attribution_space text = attr_fix true text.
Proof. apply (attr_fix_sub None). Qed.

(** *** What a match is made of *)

Lemma rep_greedy_from_k A (P : A -> Prop) p min pv (s : list N) (k : option N -> list N -> option A) x :
  (forall pv' s' y, k pv' s' = Some y -> P y) ->
  rep_greedy p min pv s k = Some x -> P x.
Proof.
  intros Hk. revert min pv. induction s as [|c s IH]; intros min pv; cbn [rep_greedy].
  - destruct min; [apply Hk|discriminate].
  - destruct (p c).
    + destruct (rep_greedy p (pred min) (Some c) s k) eqn:E.
      * intros [= <-]. eapply IH, E.
      * destruct min; [apply Hk|discriminate].
    + destruct min; [apply Hk|discriminate].
Qed.

Lemma rep_lazy_from_k A (P : A -> Prop) p min pv (s : list N) (k : option N -> list N -> option A) x :
  (forall pv' s' y, k pv' s' = Some y -> P y) ->
  rep_lazy p min pv s k = Some x -> P x.
Proof.
  intros Hk. revert min pv. induction s as [|c s IH]; intros min pv.
  - destruct min; cbn [rep_lazy]; [|discriminate].
    destruct (k pv []) eqn:E; [|discriminate]. intros [= <-]. eapply Hk, E.
  - destruct min; cbn [rep_lazy].
    + destruct (k pv (c :: s)) eqn:E; [intros [= <-]; eapply Hk, E|].
      destruct (p c); [apply IH|discriminate].
    + destruct (p c); [apply IH|discriminate].
Qed.

(** the answer of a match always comes from its continuation *)
Lemma mtch_from_k A (P : A -> Prop) r :
  forall pv s g (k : option N -> list N -> caps -> option A) x,
    (forall pv' s' g' y, k pv' s' g' = Some y -> P y) ->
    mtch r pv s g k = Some x -> P x.
Proof.
  induction r as [|c|cl|r1 IH1 r2 IH2|r1 IH1 r2 IH2|cl min gr|n r1 IH1| | |r1 IH1];
    intros pv s g k x Hk; cbn [mtch].
  - apply Hk.
  - destruct s as [|y s]; [discriminate|]. destruct (y =? c)%N; [apply Hk|discriminate].
  - destruct s as [|y s]; [discriminate|]. destruct (in_class cl y); [apply Hk|discriminate].
  - apply IH1. intros pv' s' g' y. now apply IH2.
  - destruct (mtch r1 pv s g k) eqn:E.
    + intros [= <-]. eapply IH1, E. exact Hk.
    + now apply IH2.
  - destruct gr.
    + apply rep_greedy_from_k. intros pv' s' y. apply Hk.
    + apply rep_lazy_from_k. intros pv' s' y. apply Hk.
  - apply IH1. intros pv' s' g' y. apply Hk.
  - destruct (at_bol pv); [apply Hk|discriminate].
  - destruct (at_eol s); [apply Hk|discriminate].
  - destruct (mtch r1 pv s g (fun _ _ _ => Some tt)); [discriminate|apply Hk].
Qed.

Lemma match_at_length r f pv (s : list N) m :
  match_at r f pv s = Some m -> length (m_text m) <= length s.
Proof.
  apply (mtch_from_k Match (fun m => length (m_text m) <= length s)).
  intros pv' s' g' y. unfold finish.
  destruct (f && Nat.eqb (length s - length s') 0); [discriminate|].
  intros [= <-]. cbn [m_text]. rewrite length_firstn. lia.
Qed.

Lemma match_at_advance r pv (s : list N) m :
  match_at r true pv s = Some m -> m_text m <> [].
Proof.
  apply (mtch_from_k Match (fun m => m_text m <> [])).
  intros pv' s' g' y. unfold finish. cbn [andb].
  destruct (Nat.eqb_spec (length s - length s') 0) as [|Hn]; [discriminate|].
  intros [= <-]. cbn [m_text]. intros H. apply (f_equal (@length N)) in H.
  rewrite length_firstn in H. simpl in H. lia.
Qed.

(** *** Patterns that see one line at a time *)

Lemma sub_go_lines r f (a b : list N) :
  anchor_free r = true -> line_local (Seq Bol r) ->
  (forall pv, match_at (Seq Bol r) false pv [] = None) ->
  forall pv n, n <= length a ->
  sub_go (Seq Bol r) f pv (a ++ LF :: b) n =
  sub_go (Seq Bol r) f pv a n ++ LF :: re_sub (Seq Bol r) f b.
Proof.
  intros Hr Hl He. induction a as [|c a IH]; intros pv n Hn.
  - assert (n = 0) as -> by (simpl in Hn; lia).
    cbn [app sub_go]. rewrite !(Hl _ pv [] b), He. cbn [app].
    do 2 f_equal. now apply sub_go_bol_pv.
  - cbn [app sub_go]. destruct n as [|n].
    + rewrite !(Hl _ pv (c :: a) b).
      destruct (match_at (Seq Bol r) false pv (c :: a)) as [m|] eqn:E.
      * pose proof (match_at_length _ _ _ _ _ E) as Hlen. cbn [length] in Hlen.
        destruct (length (m_text m)) as [|k] eqn:Ek.
        -- destruct (match_at (Seq Bol r) true pv (c :: a)) as [m'|] eqn:E'.
           ++ pose proof (match_at_length _ _ _ _ _ E') as Hlen'. cbn [length] in Hlen'.
              pose proof (match_at_advance _ _ _ _ E') as Hne.
              destruct (m_text m') as [|y t]; [congruence|]. cbn [length] in *.
              rewrite IH by lia. now rewrite <- !app_assoc.
           ++ rewrite IH by lia. now rewrite <- !app_assoc.
        -- rewrite IH by lia. now rewrite <- !app_assoc.
      * rewrite IH by lia. reflexivity.
    + apply IH. simpl in Hn. lia.
Qed.

Lemma sub_go_one_line r f (s : list N) :
  contains LF s = false ->
  (forall pv, match_at (Seq Bol r) false pv [] = None) ->
  match_at (Seq Bol r) false None s = None ->
  re_sub (Seq Bol r) f s = s.
Proof.
  intros Hs He Hm. unfold re_sub. destruct s as [|c s].
  - cbn [sub_go]. now rewrite He.
  - cbn [sub_go]. rewrite Hm. f_equal.
    simpl in Hs. apply orb_false_iff in Hs as [H1 H2].
    rewrite <- (app_nil_r s) at 1. rewrite sub_go_inside_line; auto.
    + cbn [sub_go]. now rewrite He, app_nil_r.
    + simpl. now rewrite N.eqb_sym.
Qed.

Lemma span (p : N -> bool) (s : list N) :
  exists a b, s = a ++ b /\ forallb p a = true /\ stops p b = true.
Proof.
  induction s as [|c s (a & b & -> & Ha & Hb)].
  - now exists [], [].
  - destruct (p c) eqn:E.
    + exists (c :: a), b. cbn. now rewrite E, Ha.
    + exists [], (c :: a ++ b). cbn. now rewrite E.
Qed.

Lemma starts_with_cut c (l t b : list N) :
  contains c l = false -> starts_with l (t ++ c :: b) = starts_with l t.
Proof.
  revert t. induction l as [|x l IH]; intros t H; [now destruct t|].
  simpl in H. apply orb_false_iff in H as [H1 H2].
  destruct t as [|y t]; cbn [app starts_with].
  - rewrite N.eqb_sym, H1. reflexivity.
  - now rewrite IH.
Qed.

Lemma finish_app_ne f (x y : list N) pv g :
  x <> [] -> finish f (x ++ y) pv y g = Some {| m_text := x; m_caps := g |}.
Proof.
  intros Hx. unfold finish. rewrite firstn_len_diff, length_app.
  destruct x as [|c x]; [congruence|]. cbn [length].
  replace (S (length x) + length y - length y) with (S (length x)) by lia.
  now rewrite andb_false_r.
Qed.

Lemma mtch_seq_bol A r pv s g (k : option N -> list N -> caps -> option A) :
  mtch (Seq Bol r) pv s g k = if at_bol pv then mtch r pv s g k else None.
Proof. reflexivity. Qed.

(** *** List items *)

Lemma indent_char_eq c : indent_char c = ((c =? 32)%N || (c =? 9)%N).
Proof. unfold indent_char. cbn. now rewrite orb_false_r. Qed.

Lemma list_item_match f pv (ws t : list N) :
  forallb indent_char ws = true -> stops indent_char t = true ->
  match_at LIST_ITEM_RE f pv (ws ++ t) =
  if at_bol pv && starts_with (lit "- ") t
  then Some {| m_text := ws ++ lit "- "; m_caps := [(1, ws)] |} else None.
Proof.
  intros Hw Ht. unfold match_at.
  change LIST_ITEM_RE
    with (Seq Bol (Seq (Grp 1 (Rep (OneOf [AChr 32; AChr 9]) 0 true)) (seq [Lit 45; Lit 32]))).
  rewrite mtch_seq_bol.
  destruct (at_bol pv); [|reflexivity]. cbn [andb].
  rewrite (mtch_grp_greedy Match 1 (OneOf [AChr 32; AChr 9]) 0); auto.
  - cbn [Nat.leb mtch seq]. change (lit "- ") with [45%N; 32%N].
    destruct t as [|x t]; [reflexivity|]. cbn [starts_with].
    rewrite (N.eqb_sym 45 x). destruct (N.eqb_spec x 45) as [->|]; [|reflexivity].
    destruct t as [|y t]; [reflexivity|]. cbn [andb].
    rewrite (N.eqb_sym 32 y). destruct (N.eqb_spec y 32) as [->|]; [|reflexivity].
    cbn [andb].
    replace (ws ++ 45%N :: 32%N :: t) with ((ws ++ [45%N; 32%N]) ++ t)
      by now rewrite <- app_assoc.
    apply finish_app_ne. now destruct ws.
  - intros pv' c s' g' Hc. cbn [mtch seq].
    change (in_class (OneOf [AChr 32; AChr 9]) c) with (indent_char c) in Hc.
    rewrite indent_char_eq in Hc.
    destruct (N.eqb_spec c 45) as [->|]; [discriminate|reflexivity].
Qed.

Lemma list_item_local : line_local LIST_ITEM_RE.
Proof.
  intros f pv a b. destruct (span indent_char a) as (ws & t & -> & Hw & Ht).
  rewrite <- app_assoc, !list_item_match; auto.
  - now rewrite (starts_with_cut LF (lit "- ")).
  - destruct t; [reflexivity|exact Ht].
Qed.

Lemma list_item_empty pv : match_at LIST_ITEM_RE false pv [] = None.
Proof.
  pose proof (list_item_match false pv [] [] eq_refl eq_refl) as H.
  cbn [app starts_with] in H. rewrite H. now rewrite andb_false_r.
Qed.

Lemma indent_no_lf (ws : list N) : forallb indent_char ws = true -> contains LF ws = false.
Proof.
  induction ws as [|c ws IH]; [reflexivity|]. cbn [forallb contains existsb].
  intros H. apply andb_true_iff in H as [H1 H2]. rewrite indent_char_eq in H1.
  fold (contains LF ws). rewrite (IH H2), orb_false_r.
  destruct (N.eqb_spec LF c) as [<-|]; [discriminate|reflexivity].
Qed.

(** ** Further properties of the text transforms *)

(** X1 ([fix_attribution_space]).  Adding the space after the
    attribution dash is idempotent: on its own output the function
    changes nothing, whatever the text. *)
Theorem fix_attribution_space_idempotent (text : list N) :
  fix_attribution_space (fix_attribution_space text) = fix_attribution_space text.
Proof. rewrite !fix_attribution_space_fix. apply attr_fix_idem. Qed.

(** X2 ([fix_attribution_space]).  The function works line by line: the
    result on a text is the results on the part before a line feed and on
    the part after it, the line feed between them. *)
Theorem fix_attribution_space_lines (a b : list N) :
  fix_attribution_space (a ++ LF :: b) =
  fix_attribution_space a ++ LF :: fix_attribution_space b.
Proof. rewrite !fix_attribution_space_fix. apply attr_fix_lines. Qed.

(** X3 ([fix_attribution_space]).  On one line: a line that starts with
    the dash U+2015 not followed by a space gets a space after the dash
    (also when the dash is all there is); any other line is unchanged. *)
Theorem fix_attribution_space_line (line : list N) :
  contains LF line = false ->
  fix_attribution_space line =
  if starts_with [HBAR] line && negb (starts_with [HBAR; 32%N] line)
  then HBAR :: 32%N :: tl line else line.
Proof.
  intros H. rewrite fix_attribution_space_fix. destruct line as [|c t]; [reflexivity|].
  simpl in H. apply orb_false_iff in H as [H1 H2].
  cbn [attr_fix starts_with andb tl]. rewrite (N.eqb_sym LF c) in H1.
  rewrite H1, (attr_fix_inside t H2), (N.eqb_sym HBAR c), !andb_true_r.
  destruct (N.eqb_spec c HBAR) as [->|]; cbn [andb]; [|reflexivity].
  now destruct (starts_with [32%N] t).
Qed.

Lemma fix_attribution_space_line_witness :
  contains LF (HBAR :: lit "Seneca") = false /\
  fix_attribution_space (HBAR :: lit "Seneca") = HBAR :: 32%N :: lit "Seneca".
Proof.
  split; [reflexivity|]. exact (fix_attribution_space_line (HBAR :: lit "Seneca") eq_refl).
Defined.

(** X4 ([fix_list_indent]).  The function works line by line. *)
Theorem fix_list_indent_lines (a b : list N) :
  fix_list_indent (a ++ LF :: b) = fix_list_indent a ++ LF :: fix_list_indent b.
Proof.
  unfold fix_list_indent, re_sub.
  apply (sub_go_lines (seq [Grp 1 (Rep (OneOf [AChr 32; AChr 9]) 0 true); Lit 45; Lit 32])
           list_item_repl a b eq_refl list_item_local list_item_empty None 0).
  lia.
Qed.

(** X5 ([fix_list_indent]).  On one line, split into its leading spaces
    and tabs and the rest: if the rest starts with a dash and a space, the
    indentation becomes twice as many spaces as it had characters (a tab
    counts as one and comes out as two spaces); otherwise the line is
    unchanged. *)
Theorem fix_list_indent_line (ws t : list N) :
  forallb indent_char ws = true -> stops indent_char t = true ->
  contains LF t = false ->
  fix_list_indent (ws ++ t) =
  if starts_with (lit "- ") t then repeat 32%N (length ws * 2) ++ t else ws ++ t.
Proof.
  intros Hw Ht Hl. unfold fix_list_indent.
  destruct (starts_with (lit "- ") t) eqn:E.
  - apply starts_with_split in E. rewrite E. set (t' := skipn (length (lit "- ")) t) in *.
    assert (contains LF t' = false) as Hl'.
    { rewrite E, contains_app in Hl. now apply orb_false_iff in Hl as [_ Hl]. }
    rewrite app_assoc. unfold re_sub.
    rewrite (sub_go_take _ _ None (ws ++ lit "- ") t'
               {| m_text := ws ++ lit "- "; m_caps := [(1, ws)] |}).
    + unfold list_item_repl. cbn [group cap_get m_caps Nat.eqb].
      rewrite <- app_assoc. do 2 f_equal.
      rewrite <- (app_nil_r t') at 1.
      change LIST_ITEM_RE with (Seq Bol (seq [Grp 1 (Rep (OneOf [AChr 32; AChr 9]) 0 true); Lit 45; Lit 32])).
      rewrite sub_go_inside_line; auto.
      * cbn [sub_go].
        change (Seq Bol (seq [Grp 1 (Rep (OneOf [AChr 32; AChr 9]) 0 true); Lit 45; Lit 32])) with LIST_ITEM_RE.
        now rewrite list_item_empty, app_nil_r.
      * now rewrite pv_after_app.
    + rewrite <- app_assoc, list_item_match by auto.
      now rewrite starts_with_app.
    + reflexivity.
    + now destruct ws.
  - apply sub_go_one_line.
    + now rewrite contains_app, (indent_no_lf ws Hw), Hl.
    + apply list_item_empty.
    + change (match_at LIST_ITEM_RE false None (ws ++ t) = None).
      rewrite list_item_match; auto. now rewrite E.
Qed.

Lemma fix_list_indent_line_witness :
  forallb indent_char [9%N; 32%N] = true /\ stops indent_char (lit "- item") = true /\
  contains LF (lit "- item") = false /\
  fix_list_indent ([9%N; 32%N] ++ lit "- item") = lit "    - item".
Proof.
  split_all; [reflexivity..|].
  exact (fix_list_indent_line [9%N; 32%N] (lit "- item") eq_refl eq_refl eq_refl).
Defined.

Lemma rep_greedy_max A p min pv (a b : list N) (k : option N -> list N -> option A) x :
  forallb p a = true -> stops p b = true -> min <= length a ->
  k (pv_after pv a) b = Some x ->
  rep_greedy p min pv (a ++ b) k = Some x.
Proof.
  revert min pv. induction a as [|c a IH]; intros min pv Ha Hb Hm Hk.
  - simpl in Hm. assert (min = 0) as -> by lia. cbn [app pv_after] in *.
    destruct b as [|c b]; cbn [rep_greedy]; [exact Hk|].
    cbn [stops] in Hb. apply negb_true_iff in Hb. now rewrite Hb.
  - cbn [forallb] in Ha. apply andb_true_iff in Ha as [Hc Ha].
    cbn [app rep_greedy]. rewrite Hc.
    rewrite (IH (pred min) (Some c) Ha Hb); [reflexivity| |exact Hk].
    simpl in Hm. lia.
Qed.

Lemma dot_line (t : list N) : contains LF t = false -> forallb (in_class Dot) t = true.
Proof.
  induction t as [|c t IH]; [reflexivity|]. cbn [contains existsb forallb in_class].
  intros H. apply orb_false_iff in H as [H1 H2]. rewrite (N.eqb_sym c LF), H1. now apply IH.
Qed.

Lemma eol_stops_dot (rest : list N) : at_eol rest = true -> stops (in_class Dot) rest = true.
Proof. destruct rest as [|c rest]; [reflexivity|]. cbn. intros ->. reflexivity. Qed.

Lemma occurs_suffix (l a b : list N) : occurs l (a ++ b) = false -> starts_with l b = false.
Proof.
  induction a as [|c a IH]; cbn [app].
  - destruct b; cbn [occurs]; [auto|]. intros H. now apply orb_false_iff in H as [H _].
  - cbn [occurs]. intros H. apply orb_false_iff in H as [_ H]. now apply IH.
Qed.

Lemma dead_head c r (a : list N) :
  (forall pv b, starts_with [c] b = false -> match_at r false pv b = None) ->
  contains c a = false -> dead r a.
Proof.
  intros Hr Ha a1 a2 b pv -> Hne. apply Hr. rewrite contains_app in Ha.
  apply orb_false_iff in Ha as [_ Ha]. destruct a2 as [|x a2]; [congruence|].
  simpl in *. apply orb_false_iff in Ha as [Ha _]. now rewrite Ha.
Qed.

(** the rest of the text after a match that ends a line *)
Lemma sub_go_rest r f pv (rest : list N) :
  anchor_free r = true -> at_eol rest = true ->
  (forall pv' b, at_eol b = true -> match_at (Seq Bol r) false pv' b = None) ->
  sub_go (Seq Bol r) f pv rest 0 = re_sub (Seq Bol r) f rest.
Proof.
  intros Hr He Hn. unfold re_sub. destruct rest as [|c rest]; cbn [sub_go].
  - now rewrite !Hn.
  - rewrite !Hn by exact He. reflexivity.
Qed.

Lemma mtch_opt_cls A cl r pv w s g (k : option N -> list N -> caps -> option A) :
  mtch (Seq (Opt (Cls cl)) r) pv (w :: s) g k =
  match (if in_class cl w then mtch r (Some w) s g k else None) with
  | Some a => Some a
  | None => mtch r pv (w :: s) g k
  end.
Proof. reflexivity. Qed.

(** *** Double block quotes *)

Lemma bq_head pv (b : list N) :
  starts_with [62%N] b = false -> match_at DOUBLE_BQ_RE false pv b = None.
Proof.
  intros H. unfold match_at.
  change DOUBLE_BQ_RE with
    (Seq Bol (lits (lit "> >") (seq [Opt (Cls (OneOf [ASpace])); Grp 1 (Rep Dot 0 true); Eol]))).
  rewrite mtch_seq_bol. destruct (at_bol pv); [|reflexivity].
  rewrite mtch_lits. destruct b as [|c b]; [reflexivity|].
  change (lit "> >") with [62%N; 32%N; 62%N]. cbn [starts_with] in *.
  rewrite andb_true_r in H. now rewrite H.
Qed.

Lemma bq_match pv w (text rest : list N) :
  at_bol pv = true -> is_space w = true -> contains LF text = false -> at_eol rest = true ->
  match_at DOUBLE_BQ_RE false pv (lit "> >" ++ w :: text ++ rest) =
  Some {| m_text := lit "> >" ++ w :: text; m_caps := [(1, text)] |}.
Proof.
  intros Hb Hw Ht Hr. unfold match_at.
  change DOUBLE_BQ_RE with
    (Seq Bol (lits (lit "> >") (seq [Opt (Cls (OneOf [ASpace])); Grp 1 (Rep Dot 0 true); Eol]))).
  rewrite mtch_seq_bol, Hb, mtch_lits_app.
  change (seq [Opt (Cls (OneOf [ASpace])); Grp 1 (Rep Dot 0 true); Eol])
    with (Seq (Opt (Cls (OneOf [ASpace]))) (Seq (Grp 1 (Rep Dot 0 true)) (Seq Eol Eps))).
  rewrite mtch_opt_cls.
  cbn [in_class existsb in_atom]. rewrite Hw. cbn [orb].
  rewrite mtch_grp_greedy; auto using dot_line, eol_stops_dot.
  - cbn [Nat.leb mtch]. rewrite Hr.
    rewrite (finish_app (lit "> >" ++ w :: text) rest). reflexivity.
  - intros pv' c s' g' Hc. cbn [mtch at_eol]. cbn [in_class] in Hc.
    apply negb_true_iff in Hc. now rewrite Hc.
Qed.

Lemma bq_eol pv (b : list N) : at_eol b = true -> match_at DOUBLE_BQ_RE false pv b = None.
Proof.
  intros H. apply bq_head. destruct b as [|c b]; [reflexivity|].
  cbn in H. apply N.eqb_eq in H. now subst c.
Qed.

Lemma fix_double_blockquotes_absent (s : list N) :
  contains 62 s = false -> fix_double_blockquotes s = s.
Proof. intros H. apply re_sub_never. apply (never_head 62); auto using bq_head. Qed.

(** *** Rulers *)

Lemma ruler_head pv (b : list N) :
  starts_with (lit "---" ++ [LF]) b = false -> match_at RULER_RE false pv b = None.
Proof.
  intros H. unfold match_at.
  change RULER_RE with (Seq Bol (lits (lit "---" ++ [LF]) (Grp 1 (Rep Dot 1 true)))).
  rewrite mtch_seq_bol. destruct (at_bol pv); [|reflexivity].
  now rewrite mtch_lits, H.
Qed.

Lemma ruler_dash pv (b : list N) :
  starts_with [45%N] b = false -> match_at RULER_RE false pv b = None.
Proof.
  intros H. apply ruler_head. destruct b as [|c b]; [reflexivity|].
  cbn [starts_with] in H. rewrite andb_true_r in H.
  change (lit "---" ++ [LF]) with [45%N; 45%N; 45%N; LF]. cbn [starts_with]. now rewrite H.
Qed.

Lemma ruler_eol pv (b : list N) : at_eol b = true -> match_at RULER_RE false pv b = None.
Proof.
  intros H. apply ruler_dash. destruct b as [|c b]; [reflexivity|].
  cbn in H. apply N.eqb_eq in H. now subst c.
Qed.

Lemma ruler_match pv (line rest : list N) :
  at_bol pv = true -> line <> [] -> contains LF line = false -> at_eol rest = true ->
  match_at RULER_RE false pv ((lit "---" ++ [LF]) ++ line ++ rest) =
  Some {| m_text := (lit "---" ++ [LF]) ++ line; m_caps := [(1, line)] |}.
Proof.
  intros Hb Hne Hl Hr. unfold match_at.
  change RULER_RE with (Seq Bol (lits (lit "---" ++ [LF]) (Grp 1 (Rep Dot 1 true)))).
  rewrite mtch_seq_bol, Hb, mtch_lits_app. cbn [mtch].
  apply rep_greedy_max; auto using dot_line, eol_stops_dot.
  - destruct line; [congruence|simpl; lia].
  - rewrite firstn_len_diff.
    now rewrite (app_assoc (lit "---" ++ [LF]) line rest), finish_app.
Qed.

(** a ruler followed by a line feed or by nothing *)
Lemma ruler_blank pv (rest : list N) :
  at_eol rest = true -> match_at RULER_RE false pv ((lit "---" ++ [LF]) ++ rest) = None.
Proof.
  intros Hr. unfold match_at.
  change RULER_RE with (Seq Bol (lits (lit "---" ++ [LF]) (Grp 1 (Rep Dot 1 true)))).
  rewrite mtch_seq_bol. destruct (at_bol pv); [|reflexivity].
  rewrite mtch_lits_app. cbn [mtch]. destruct rest as [|c rest]; [reflexivity|].
  cbn in Hr. cbn [rep_greedy in_class]. now rewrite Hr.
Qed.

(** *** Comment regions *)

Lemma split_go_absent c sep (s cur : list N) :
  contains c s = false -> split_go (c :: sep) s cur 0 = [rev cur ++ s].
Proof.
  revert cur. induction s as [|x s IH]; intros cur H.
  - cbn. now rewrite app_nil_r.
  - simpl in H. apply orb_false_iff in H as [H1 H2]. cbn [split_go starts_with].
    rewrite H1. cbn [andb]. rewrite IH by exact H2. cbn [rev]. now rewrite <- app_assoc.
Qed.

Lemma split_go_delim (a b cur : list N) :
  contains 37 a = false ->
  split_go (lit "%%") (a ++ lit "%%" ++ b) cur 0 = (rev cur ++ a) :: split_go (lit "%%") b [] 0.
Proof.
  revert cur. induction a as [|x a IH]; intros cur H.
  - cbn. now rewrite app_nil_r.
  - simpl in H. apply orb_false_iff in H as [H1 H2]. cbn [app split_go].
    change (lit "%%") with [37%N; 37%N]. cbn [starts_with]. rewrite H1. cbn [andb].
    change [37%N; 37%N] with (lit "%%"). rewrite IH by exact H2.
    cbn [rev]. now rewrite <- app_assoc.
Qed.

Lemma comments_loop_out (chunks : list (list N)) inside out :
  comments_loop chunks inside out = out ++ comments_loop chunks inside [].
Proof.
  revert inside out. induction chunks as [|c chunks IH]; intros inside out.
  - cbn. now rewrite app_nil_r.
  - cbn [comments_loop]. destruct (negb inside).
    + rewrite (IH true (out ++ [c])), (IH true ([] ++ [c])). now rewrite <- app_assoc.
    + rewrite (IH false (out ++ _)), (IH false ([] ++ _)). now rewrite <- app_assoc.
Qed.

Lemma fix_markdown_comments_absent (s : list N) :
  contains 37 s = false -> fix_markdown_comments s = s.
Proof.
  intros H. unfold fix_markdown_comments, split. change (lit "%%") with [37%N; 37%N].
  rewrite split_go_absent by exact H. cbn. now rewrite app_nil_r.
Qed.

Lemma replace_go_plain old new (a b : list N) c :
  contains c a = false ->
  replace_go (c :: old) new (a ++ b) 0 = a ++ replace_go (c :: old) new b 0.
Proof.
  induction a as [|x a IH]; intros H; [reflexivity|].
  simpl in H. apply orb_false_iff in H as [H1 H2]. cbn [app replace_go starts_with].
  rewrite H1. cbn [andb]. now rewrite IH.
Qed.

Lemma replace_marker_plain (a b : list N) :
  contains 35 a = false ->
  replace COMMENT_MARKER (lit "# ") (a ++ b) = a ++ replace COMMENT_MARKER (lit "# ") b.
Proof. apply (replace_go_plain (lit "!#comment:")). Qed.

Lemma replace_marker_none (a : list N) :
  contains 35 a = false -> replace COMMENT_MARKER (lit "# ") a = a.
Proof.
  intros H. rewrite <- (app_nil_r a) at 1. rewrite replace_marker_plain by exact H.
  now rewrite app_nil_r.
Qed.

Lemma replace_marked_lines (lines : list (list N)) (b : list N) :
  Forall (fun l => contains 35 l = false) lines ->
  replace COMMENT_MARKER (lit "# ") (concat (map (app COMMENT_MARKER) lines) ++ b) =
  concat (map (app (lit "# ")) lines) ++ replace COMMENT_MARKER (lit "# ") b.
Proof.
  induction 1 as [|l lines Hl _ IH]; [reflexivity|]. cbn [map concat].
  rewrite <- !app_assoc.
  pose proof (replace_marker_at []
                (l ++ concat (map (app COMMENT_MARKER) lines) ++ b) eq_refl) as H.
  cbn [app] in H. rewrite H. clear H. f_equal.
  rewrite replace_marker_plain by exact Hl. now rewrite IH.
Qed.

Lemma comment_chunk_lines (c : list N) :
  contains LF c = true -> comment_chunk c = map (app COMMENT_MARKER) (kept_lines c).
Proof. intros H. unfold comment_chunk. now rewrite H. Qed.

Lemma fix_markdown_comments_region (a c b : list N) :
  contains 37 a = false -> contains 37 c = false ->
  fix_markdown_comments (a ++ lit "%%" ++ c ++ lit "%%" ++ b) =
  a ++ concat (comment_chunk c) ++ fix_markdown_comments b.
Proof.
  intros Ha Hc. unfold fix_markdown_comments, split.
  rewrite split_go_delim by exact Ha. rewrite split_go_delim by exact Hc.
  cbn [comments_loop negb rev app]. rewrite comments_loop_out.
  rewrite concat_app. cbn [concat]. now rewrite <- app_assoc.
Qed.

Lemma contains_rev c (l : list N) : contains c (rev l) = contains c l.
Proof.
  induction l as [|x l IH]; [reflexivity|]. cbn [rev]. rewrite contains_app, IH.
  cbn. now rewrite orb_false_r, orb_comm.
Qed.

Lemma splitlines_go_without c (s cur : list N) :
  contains c s = false -> contains c cur = false ->
  Forall (fun l => contains c l = false) (splitlines_go s cur).
Proof.
  assert (forall x l, contains c (x :: l) = false -> contains c (rev (x :: l)) = false) as Hrev.
  { intros x l H. now rewrite contains_rev. }
  revert cur. induction s as [|x s IH]; intros cur Hs Hcur.
  - cbn. destruct cur as [|y cur]; constructor; [now apply Hrev|constructor].
  - simpl in Hs. apply orb_false_iff in Hs as [H1 H2]. cbn [splitlines_go].
    assert (contains c (x :: cur) = false) as Hx by (simpl; now rewrite H1).
    destruct (is_linebreak x && negb ((x =? CR)%N && starts_with [LF] s)).
    + constructor; [now apply Hrev|]. now apply IH.
    + now apply IH.
Qed.

Lemma kept_lines_without c (chunk : list N) :
  contains c chunk = false -> Forall (fun l => contains c l = false) (kept_lines chunk).
Proof.
  intros H. pose proof (splitlines_go_without c chunk [] H eq_refl) as HF.
  unfold kept_lines, splitlines. destruct (splitlines_go chunk []) as [|l0 rest]; [constructor|].
  destruct (strip l0); [now inversion HF|exact HF].
Qed.

Lemma prepare_plain (s : list N) :
  contains 62 s = false -> contains 37 s = false ->
  prepare_markdown_text s = re_sub RULER_RE (fun m => lit "---" ++ [LF; LF] ++ group m 1) s.
Proof.
  intros H1 H2. unfold prepare_markdown_text.
  now rewrite fix_double_blockquotes_absent, fix_markdown_comments_absent.
Qed.

(** X6 ([fix_double_blockquotes], [DOUBLE_BQ_RE]).  A line that starts
    with [> >] and one whitespace character becomes [> "text"], [text]
    being the rest of the line; the text before it (without [>], ending a
    line) is copied and the text after it is treated on its own.  The one
    whitespace character may be any, also a line feed: then [text] is the
    following line, which is drawn into the quotation. *)
Theorem fix_double_blockquotes_line (pre : list N) w (text rest : list N) :
  contains 62 pre = false -> at_bol (pv_after None pre) = true ->
  is_space w = true -> contains LF text = false -> at_eol rest = true ->
  fix_double_blockquotes (pre ++ lit "> >" ++ w :: text ++ rest) =
  pre ++ lit "> " ++ [DQUOTE] ++ text ++ [DQUOTE] ++ fix_double_blockquotes rest.
Proof.
  intros Hp Hb Hw Ht Hr. unfold fix_double_blockquotes at 1. unfold re_sub.
  rewrite sub_go_pass by (apply (dead_head 62); auto using bq_head).
  f_equal.
  replace (lit "> >" ++ w :: text ++ rest) with ((lit "> >" ++ w :: text) ++ rest)
    by (now rewrite <- app_assoc).
  rewrite (sub_go_take _ _ _ (lit "> >" ++ w :: text) rest
             {| m_text := lit "> >" ++ w :: text; m_caps := [(1, text)] |});
    [|rewrite <- app_assoc; now apply bq_match|reflexivity|discriminate].
  cbn [group cap_get m_caps Nat.eqb]. rewrite <- !app_assoc. do 4 f_equal.
  apply (sub_go_rest (lits (lit "> >") (seq [Opt (Cls (OneOf [ASpace])); Grp 1 (Rep Dot 0 true); Eol])));
    auto using bq_eol.
Qed.

Lemma fix_double_blockquotes_line_witness :
  contains 62 (lit "He said:" ++ [LF]) = false /\
  at_bol (pv_after None (lit "He said:" ++ [LF])) = true /\
  is_space LF = true /\ contains LF (lit "so it goes") = false /\
  at_eol (LF :: lit "end") = true /\
  fix_double_blockquotes
    ((lit "He said:" ++ [LF]) ++ lit "> >" ++ LF :: lit "so it goes" ++ LF :: lit "end") =
  (lit "He said:" ++ [LF]) ++ lit "> " ++ [DQUOTE] ++ lit "so it goes" ++ [DQUOTE]
    ++ fix_double_blockquotes (LF :: lit "end").
Proof.
  split_all; [reflexivity..|].
  exact (fix_double_blockquotes_line (lit "He said:" ++ [LF]) LF (lit "so it goes")
           (LF :: lit "end") eq_refl eq_refl eq_refl eq_refl eq_refl).
Defined.

(** X7 ([prepare_markdown_text], [RULER_RE]).  In a text without [>] and
    [%], a line [---] that starts a line and is followed by a line that is
    not empty gets a blank line after it; the text before it (without a
    dash) is copied, the text after the following line is treated on its
    own. *)
Theorem prepare_markdown_text_ruler (pre line rest : list N) :
  contains 62 (pre ++ line ++ rest) = false -> contains 37 (pre ++ line ++ rest) = false ->
  contains 45 pre = false -> at_bol (pv_after None pre) = true ->
  line <> [] -> contains LF line = false -> at_eol rest = true ->
  prepare_markdown_text (pre ++ (lit "---" ++ [LF]) ++ line ++ rest) =
  pre ++ lit "---" ++ [LF; LF] ++ line ++ prepare_markdown_text rest.
Proof.
  intros Hq Hc Hp Hb Hne Hl Hr.
  rewrite !contains_app in Hq, Hc.
  apply orb_false_iff in Hq as [Hq1 Hq2]. apply orb_false_iff in Hq2 as [Hq2 Hq3].
  apply orb_false_iff in Hc as [Hc1 Hc2]. apply orb_false_iff in Hc2 as [Hc2 Hc3].
  rewrite (prepare_plain rest) by assumption.
  rewrite prepare_plain
    by (rewrite !contains_app; first [now rewrite Hq1, Hq2, Hq3 | now rewrite Hc1, Hc2, Hc3]).
  unfold re_sub. rewrite sub_go_pass by (apply (dead_head 45); auto using ruler_dash).
  f_equal. rewrite (app_assoc (lit "---" ++ [LF]) line rest).
  rewrite (sub_go_take _ _ _ ((lit "---" ++ [LF]) ++ line) rest
             {| m_text := (lit "---" ++ [LF]) ++ line; m_caps := [(1, line)] |});
    [|rewrite <- app_assoc; now apply ruler_match|reflexivity|discriminate].
  cbn [group cap_get m_caps Nat.eqb]. rewrite <- !app_assoc. do 3 f_equal.
  apply (sub_go_rest (lits (lit "---" ++ [LF]) (Grp 1 (Rep Dot 1 true))));
    auto using ruler_eol.
Qed.

Lemma prepare_markdown_text_ruler_witness :
  prepare_markdown_text ((lit "# T" ++ [LF]) ++ (lit "---" ++ [LF]) ++ lit "body" ++ []) =
  (lit "# T" ++ [LF]) ++ lit "---" ++ [LF; LF] ++ lit "body" ++ prepare_markdown_text [].
Proof.
  exact (prepare_markdown_text_ruler (lit "# T" ++ [LF]) (lit "body") []
           eq_refl eq_refl eq_refl eq_refl ltac:(discriminate) eq_refl eq_refl).
Defined.

(** X8 ([prepare_markdown_text], [RULER_RE]).  A ruler line followed by an
    empty line, or by nothing, is left as it is: so the blank line is
    added once only. *)
Theorem prepare_markdown_text_ruler_blank (pre rest : list N) :
  contains 62 (pre ++ rest) = false -> contains 37 (pre ++ rest) = false ->
  contains 45 pre = false -> at_eol rest = true ->
  prepare_markdown_text (pre ++ (lit "---" ++ [LF]) ++ rest) =
  pre ++ (lit "---" ++ [LF]) ++ prepare_markdown_text rest.
Proof.
  intros Hq Hc Hp Hr.
  rewrite !contains_app in Hq, Hc.
  apply orb_false_iff in Hq as [Hq1 Hq2]. apply orb_false_iff in Hc as [Hc1 Hc2].
  rewrite (prepare_plain rest) by assumption.
  rewrite prepare_plain
    by (rewrite !contains_app; first [now rewrite Hq1, Hq2 | now rewrite Hc1, Hc2]).
  unfold re_sub. rewrite sub_go_pass by (apply (dead_head 45); auto using ruler_dash).
  f_equal. change ((lit "---" ++ [LF]) ++ rest) with (45%N :: [45%N; 45%N] ++ LF :: rest).
  cbn [sub_go].
  change (45%N :: [45%N; 45%N] ++ LF :: rest) with ((lit "---" ++ [LF]) ++ rest).
  rewrite ruler_blank by exact Hr.
  change RULER_RE with (Seq Bol (lits (lit "---" ++ [LF]) (Grp 1 (Rep Dot 1 true)))).
  rewrite sub_go_inside_line by reflexivity. cbn [app pv_after sub_go].
  rewrite match_at_bol_false by reflexivity.
  change (lit "---" ++ [LF]) with [45%N; 45%N; 45%N; LF] at 2. cbn [app].
  do 4 f_equal. now apply sub_go_bol_pv.
Qed.

Lemma prepare_markdown_text_ruler_blank_witness :
  prepare_markdown_text ([] ++ (lit "---" ++ [LF]) ++ LF :: lit "body") =
  [] ++ (lit "---" ++ [LF]) ++ prepare_markdown_text (LF :: lit "body").
Proof.
  exact (prepare_markdown_text_ruler_blank [] (LF :: lit "body") eq_refl eq_refl eq_refl eq_refl).
Defined.

(** X9 ([prepare_markdown_text], with [fix_double_blockquotes] and
    [fix_markdown_comments]).  A text without [>], without [%] and
    without a ruler line is handed to the converter unchanged. *)
Theorem prepare_markdown_text_plain (md : list N) :
  contains 62 md = false -> contains 37 md = false ->
  occurs (lit "---" ++ [LF]) md = false ->
  prepare_markdown_text md = md.
Proof.
  intros Hq Hc Ho. rewrite prepare_plain by assumption.
  apply re_sub_never. intros pv a b ->. apply ruler_head. now apply (occurs_suffix _ a).
Qed.

Lemma prepare_markdown_text_plain_witness :
  prepare_markdown_text (lit "# Title" ++ [LF] ++ lit "- item") =
  lit "# Title" ++ [LF] ++ lit "- item".
Proof.
  exact (prepare_markdown_text_plain (lit "# Title" ++ [LF] ++ lit "- item") eq_refl eq_refl eq_refl).
Defined.

(** X10 ([fix_markdown_comments]).  The first comment region of a text,
    [%%c%%] after a text [a] without [%]: [a] is copied, the region is
    turned into its comment form (an inline comment when [c] is on one
    line, marker lines otherwise) and the text after the closing
    delimiter is treated on its own. *)
Theorem fix_markdown_comments_first_region (a c b : list N) :
  contains 37 a = false -> contains 37 c = false ->
  fix_markdown_comments (a ++ lit "%%" ++ c ++ lit "%%" ++ b) =
  a ++ (if contains LF c
        then concat (map (app COMMENT_MARKER) (kept_lines c))
        else lit "<!--" ++ c ++ lit "-->")
    ++ fix_markdown_comments b.
Proof.
  intros Ha Hc. rewrite fix_markdown_comments_region by assumption.
  do 2 f_equal. unfold comment_chunk, kept_lines.
  destruct (contains LF c); [reflexivity|]. cbn [concat]. now rewrite app_nil_r.
Qed.

Lemma fix_markdown_comments_first_region_witness :
  fix_markdown_comments (lit "a " ++ lit "%%" ++ lit "note" ++ lit "%%" ++ lit " b %%c%%") =
  lit "a <!--note--> b <!--c-->".
Proof.
  exact (fix_markdown_comments_first_region (lit "a ") (lit "note") (lit " b %%c%%") eq_refl eq_refl).
Defined.

(** X11 ([fix_markdown_comments] then [restore_comments]).  Round trip
    of a comment region through the two functions, in a text without [#]
    and with no other [%]: a region of several lines comes out as its
    kept lines, each behind [# ]; a region on one line comes out as an
    inline comment. *)
Theorem comment_region_round_trip (a c b : list N) :
  contains 37 (a ++ c ++ b) = false -> contains 35 (a ++ c ++ b) = false ->
  restore_comments (fix_markdown_comments (a ++ lit "%%" ++ c ++ lit "%%" ++ b)) =
  a ++ (if contains LF c
        then concat (map (app (lit "# ")) (kept_lines c))
        else lit "<!--" ++ c ++ lit "-->")
    ++ b.
Proof.
  intros Hp Hh. rewrite !contains_app in Hp, Hh.
  apply orb_false_iff in Hp as [Hp1 Hp2]. apply orb_false_iff in Hp2 as [Hp2 Hp3].
  apply orb_false_iff in Hh as [Hh1 Hh2]. apply orb_false_iff in Hh2 as [Hh2 Hh3].
  rewrite fix_markdown_comments_region, (fix_markdown_comments_absent b) by assumption.
  rewrite restore_comments_replace, replace_marker_plain by exact Hh1. f_equal.
  destruct (contains LF c) eqn:E.
  - rewrite comment_chunk_lines by exact E.
    rewrite replace_marked_lines by now apply kept_lines_without.
    now rewrite replace_marker_none.
  - unfold comment_chunk. rewrite E. cbn [concat]. rewrite app_nil_r, <- !app_assoc.
    rewrite (replace_marker_plain (lit "<!--")) by reflexivity. f_equal.
    rewrite replace_marker_plain by exact Hh2. f_equal.
    rewrite (replace_marker_plain (lit "-->")) by reflexivity.
    now rewrite replace_marker_none.
Qed.

Lemma comment_region_round_trip_witness :
  restore_comments
    (fix_markdown_comments (lit "a" ++ lit "%%" ++ (LF :: lit "x" ++ LF :: lit "y") ++ lit "%%" ++ lit "b")) =
  lit "a# x" ++ LF :: lit "# yb".
Proof.
  exact (comment_region_round_trip (lit "a") (LF :: lit "x" ++ LF :: lit "y") (lit "b") eq_refl eq_refl).
Defined.

(** *** Normalized names *)

Lemma ws_char_space c : ws_char c = is_space c.
Proof.
  unfold ws_char. cbn [in_class existsb in_atom]. rewrite orb_false_r.
  destruct (N.eqb_spec c NBSP) as [->|]; reflexivity.
Qed.

Lemma ws_match f pv (a b : list N) :
  a <> [] -> forallb ws_char a = true -> stops ws_char b = true ->
  match_at WS_RUN_RE f pv (a ++ b) = Some {| m_text := a; m_caps := [] |}.
Proof.
  intros Hne Ha Hb. unfold match_at, WS_RUN_RE. cbn [mtch].
  apply rep_greedy_max; auto.
  - destruct a; [congruence|simpl; lia].
  - now apply finish_app_ne.
Qed.

Lemma ws_no_match f pv (s : list N) :
  stops ws_char s = true -> match_at WS_RUN_RE f pv s = None.
Proof.
  intros H. unfold match_at, WS_RUN_RE. cbn [mtch].
  destruct s as [|c s]; [reflexivity|]. cbn [stops] in H. apply negb_true_iff in H.
  cbn [rep_greedy]. fold (ws_char c). now rewrite H.
Qed.

Lemma collapse_run (a b : list N) :
  forallb ws_char a = true -> stops ws_char b = true ->
  collapse true (a ++ b) = collapse false b.
Proof.
  intros Ha Hb. induction a as [|c a IH].
  - destruct b as [|x b]; [reflexivity|]. cbn [stops] in Hb. apply negb_true_iff in Hb.
    cbn [app collapse]. now rewrite Hb.
  - cbn [forallb] in Ha. apply andb_true_iff in Ha as [Hc Ha].
    cbn [app collapse]. rewrite Hc. now apply IH.
Qed.

Lemma collapse_sub n : forall (s : list N) pv, length s <= n ->
  sub_go WS_RUN_RE (fun _ => lit " ") pv s 0 = collapse false s.
Proof.
  induction n as [|n IH]; intros s pv Hn.
  - destruct s; [|simpl in Hn; lia]. cbn [sub_go collapse].
    now rewrite (ws_no_match false pv []).
  - destruct s as [|c s]; [cbn [sub_go collapse]; now rewrite (ws_no_match false pv [])|].
    cbn [length] in Hn. destruct (ws_char c) eqn:Ec.
    + destruct (span ws_char s) as (a & b & -> & Ha & Hb).
      change (c :: a ++ b) with ((c :: a) ++ b).
      rewrite (sub_go_take _ _ pv (c :: a) b {| m_text := c :: a; m_caps := [] |});
        [|apply ws_match; [discriminate|cbn [forallb]; now rewrite Ec|exact Hb]
         |reflexivity|discriminate].
      rewrite IH by (rewrite length_app in Hn; lia).
      cbn [app collapse]. rewrite Ec. now rewrite collapse_run.
    + cbn [sub_go collapse]. rewrite ws_no_match by (cbn [stops]; now rewrite Ec).
      rewrite Ec. f_equal. apply IH. lia.
Qed.

Lemma node_key_collapse (s : list N) : node_key s = strip (collapse false s).
Proof. unfold node_key, re_sub. now rewrite (collapse_sub (length s)). Qed.

Lemma spaced_collapse b (s : list N) : spaced b (collapse b s) = true.
Proof.
  revert b. induction s as [|c s IH]; intros b; [reflexivity|].
  cbn [collapse]. destruct (ws_char c) eqn:E.
  - destruct b; [apply IH|]. cbn [spaced]. change (ws_char 32) with true.
    cbn [andb negb]. rewrite N.eqb_refl. apply IH.
  - cbn [spaced]. rewrite E. apply IH.
Qed.

Lemma collapse_spaced b (s : list N) : spaced b s = true -> collapse b s = s.
Proof.
  revert b. induction s as [|c s IH]; intros b H; [reflexivity|].
  cbn [spaced collapse] in *. destruct (ws_char c).
  - apply andb_true_iff in H as [H H2]. apply andb_true_iff in H as [H0 H1].
    apply N.eqb_eq in H0. subst c. apply negb_true_iff in H1. subst b.
    now rewrite IH.
  - now rewrite IH.
Qed.

Lemma spaced_weaken b (s : list N) : spaced true s = true -> spaced b s = true.
Proof.
  destruct s as [|c s]; [reflexivity|]. cbn [spaced]. destruct (ws_char c); [|auto].
  rewrite andb_false_r. discriminate.
Qed.

Lemma spaced_prefix b (x y : list N) : spaced b (x ++ y) = true -> spaced b x = true.
Proof.
  revert b. induction x as [|c x IH]; intros b H; [reflexivity|].
  cbn [app spaced] in *. destruct (ws_char c).
  - apply andb_true_iff in H as [H H2]. rewrite H. now apply IH.
  - now apply IH.
Qed.

Lemma lstrip_suffix (s : list N) : exists w, s = w ++ lstrip s /\ forallb is_space w = true.
Proof.
  induction s as [|c s (w & E & Hw)]; [now exists []|].
  cbn [lstrip]. destruct (is_space c) eqn:Ec.
  - exists (c :: w). cbn [app forallb]. now rewrite Ec, <- E.
  - now exists [].
Qed.

Lemma lstrip_head (s : list N) : stops is_space (lstrip s) = true.
Proof.
  induction s as [|c s IH]; [reflexivity|]. cbn [lstrip].
  destruct (is_space c) eqn:E; [exact IH|]. cbn [stops]. now rewrite E.
Qed.

Lemma lstrip_id (s : list N) : stops is_space s = true -> lstrip s = s.
Proof.
  destruct s as [|c s]; [reflexivity|]. cbn [stops lstrip]. intros H.
  apply negb_true_iff in H. now rewrite H.
Qed.

Lemma spaced_lstrip b b' (s : list N) : spaced b s = true -> spaced b' (lstrip s) = true.
Proof.
  revert b. induction s as [|c s IH]; intros b H; [reflexivity|].
  cbn [lstrip spaced] in *. rewrite <- ws_char_space. destruct (ws_char c) eqn:E.
  - apply andb_true_iff in H as [_ H]. now apply (IH true).
  - cbn [spaced]. now rewrite E.
Qed.

Lemma rstrip_prefix (s : list N) : exists w, s = rstrip s ++ w.
Proof.
  unfold rstrip. destruct (lstrip_suffix (rev s)) as (w & E & _).
  exists (rev w). rewrite <- rev_app_distr, <- E. now rewrite rev_involutive.
Qed.

Lemma stops_prefix (p : N -> bool) (y w : list N) : stops p (y ++ w) = true -> stops p y = true.
Proof. now destruct y. Qed.

Lemma rstrip_idem (s : list N) : rstrip (rstrip s) = rstrip s.
Proof.
  unfold rstrip. rewrite rev_involutive. f_equal. apply lstrip_id, lstrip_head.
Qed.

(** [strip] is idempotent *)
Lemma strip_idem (s : list N) : strip (strip s) = strip s.
Proof.
  unfold strip. destruct (rstrip_prefix (lstrip s)) as (w & E).
  rewrite (lstrip_id (rstrip (lstrip s))); [apply rstrip_idem|].
  apply (stops_prefix _ _ w). rewrite <- E. apply lstrip_head.
Qed.

Lemma spaced_strip b (s : list N) : spaced b s = true -> spaced false (strip s) = true.
Proof.
  intros H. unfold strip. destruct (rstrip_prefix (lstrip s)) as (w & E).
  apply (spaced_prefix false _ w). rewrite <- E. now apply (spaced_lstrip b).
Qed.

Lemma node_key_idem (s : list N) : node_key (node_key s) = node_key s.
Proof.
  rewrite (node_key_collapse (node_key s)), collapse_spaced.
  - rewrite node_key_collapse. apply strip_idem.
  - rewrite node_key_collapse. apply (spaced_strip false), spaced_collapse.
Qed.

Lemma contains_collapse c b (s : list N) :
  c <> 32%N -> contains c s = false -> contains c (collapse b s) = false.
Proof.
  intros Hc. revert b. induction s as [|x s IH]; intros b H; [reflexivity|].
  simpl in H. apply orb_false_iff in H as [H1 H2]. cbn [collapse].
  destruct (ws_char x).
  - destruct b; [now apply IH|]. cbn [contains existsb]. fold (contains c (collapse true s)).
    rewrite IH by assumption. destruct (N.eqb_spec c 32); [congruence|reflexivity].
  - cbn [contains existsb]. fold (contains c (collapse false s)). now rewrite H1, IH.
Qed.

Lemma contains_strip c (s : list N) : contains c s = false -> contains c (strip s) = false.
Proof.
  intros H. unfold strip. destruct (lstrip_suffix s) as (w & E & _).
  destruct (rstrip_prefix (lstrip s)) as (w' & E').
  rewrite E, contains_app in H. apply orb_false_iff in H as [_ H].
  rewrite E', contains_app in H. now apply orb_false_iff in H as [H _].
Qed.

Lemma contains_node_key c (s : list N) :
  c <> 32%N -> contains c s = false -> contains c (node_key s) = false.
Proof.
  intros Hc H. rewrite node_key_collapse. now apply contains_strip, contains_collapse.
Qed.

Lemma collapse_map b (s : list N) :
  collapse b (map (fun c => if is_space c then 32%N else c) s) = collapse b s.
Proof.
  revert b. induction s as [|c s IH]; intros b; [reflexivity|].
  cbn [map collapse]. rewrite !ws_char_space. destruct (is_space c) eqn:E.
  - change (is_space 32) with true. now rewrite IH.
  - now rewrite E, IH.
Qed.

(** *** Paths *)

Lemma split_go_without c (s cur : list N) :
  contains c cur = false ->
  Forall (fun l => contains c l = false) (split_go [c] s cur 0).
Proof.
  revert cur. induction s as [|x s IH]; intros cur H.
  - cbn. constructor; [now rewrite contains_rev|constructor].
  - cbn [split_go starts_with length Nat.sub]. rewrite andb_true_r.
    destruct (c =? x)%N eqn:E.
    + constructor; [now rewrite contains_rev|]. now apply IH.
    + apply IH. cbn. now rewrite E.
Qed.

Lemma split_go_last c (a b cur : list N) :
  contains c b = false ->
  exists l, split_go [c] (a ++ c :: b) cur 0 = l ++ [b].
Proof.
  intros Hb. revert cur. induction a as [|x a IH]; intros cur.
  - cbn [app split_go starts_with length Nat.sub]. rewrite N.eqb_refl. cbn [andb].
    rewrite split_absent by exact Hb. now exists [rev cur].
  - cbn [app split_go starts_with length Nat.sub]. rewrite andb_true_r.
    destruct (c =? x)%N.
    + destruct (IH []) as (l & ->). now exists (rev cur :: l).
    + apply IH.
Qed.

Lemma last_snoc (A : Type) (l : list A) (x d : A) : List.last (l ++ [x]) d = x.
Proof. induction l as [|y l IH]; [reflexivity|]. cbn [app]. destruct (l ++ [x]) eqn:E; [now destruct l|exact IH]. Qed.

(** the name of a path made of a folder part and a name *)
Lemma path_name_join (folder name : list N) :
  folder = [] \/ (exists d, folder = d ++ lit "/") ->
  name <> [] -> name <> lit "." -> contains 47 name = false ->
  path_name (folder ++ name) = name.
Proof.
  intros Hf Hne Hdot Hs. unfold path_name, path_parts, split. change (lit "/") with [47%N].
  assert (bool_decide (name = []) = false) as E1 by now apply bool_decide_eq_false.
  assert (bool_decide (name = lit ".") = false) as E2 by now apply bool_decide_eq_false.
  destruct Hf as [->|(d & ->)].
  - cbn [app]. rewrite split_absent by exact Hs. cbn [rev app List.filter].
    now rewrite E1, E2.
  - rewrite <- app_assoc. change (lit "/" ++ name) with (47%N :: name).
    destruct (split_go_last 47 d name [] Hs) as (l & ->).
    rewrite List.filter_app. cbn [List.filter]. rewrite E1, E2. cbn [orb negb].
    apply last_snoc.
Qed.

Lemma path_name_without (p : list N) : contains 47 (path_name p) = false.
Proof.
  unfold path_name, path_parts, split. change (lit "/") with [47%N].
  pose proof (split_go_without 47 p [] eq_refl) as H.
  induction H as [|x l Hx _ IH]; [reflexivity|].
  cbn [List.filter]. destruct (negb _); [|exact IH].
  destruct (List.filter _ l) eqn:E; [exact Hx|exact IH].
Qed.

Lemma rfind_go_last c (a ext : list N) i best :
  contains c ext = false -> rfind_go c (a ++ c :: ext) i best = Some (i + length a).
Proof.
  intros He. revert i best. induction a as [|x a IH]; intros i best.
  - cbn [app rfind_go length]. rewrite N.eqb_refl.
    rewrite <- (app_nil_r ext), rfind_go_absent by exact He. cbn. f_equal. lia.
  - cbn [app rfind_go length]. rewrite IH. f_equal. lia.
Qed.

Lemma suffix_index_ext (stem ext : list N) :
  stem <> [] -> ext <> [] -> contains 46 ext = false ->
  suffix_index (stem ++ 46%N :: ext) = Some (length stem).
Proof.
  intros Hs He Hd. unfold suffix_index, rfind. rewrite rfind_go_last by exact Hd.
  cbn [plus]. rewrite length_app. cbn [length].
  replace (0 <? length stem) with true
    by (symmetry; apply Nat.ltb_lt; destruct stem; [congruence|simpl; lia]).
  replace (length stem <? length stem + S (length ext) - 1) with true
    by (symmetry; apply Nat.ltb_lt; destruct ext; [congruence|simpl; lia]).
  reflexivity.
Qed.

Lemma firstn_exact (x y : list N) : firstn (length x) (x ++ y) = x.
Proof. rewrite firstn_app, Nat.sub_diag, firstn_all. cbn. apply app_nil_r. Qed.

Lemma skipn_exact (x y : list N) : skipn (length x) (x ++ y) = y.
Proof. rewrite skipn_app, Nat.sub_diag, skipn_all. reflexivity. Qed.

Lemma stem_of_name_ext (stem ext : list N) :
  stem <> [] -> ext <> [] -> contains 46 ext = false ->
  stem_of_name (stem ++ 46%N :: ext) = stem.
Proof.
  intros. unfold stem_of_name. rewrite suffix_index_ext by assumption. apply firstn_exact.
Qed.

Lemma name_with_suffix_ext (stem ext suffix : list N) :
  stem <> [] -> ext <> [] -> contains 46 ext = false ->
  name_with_suffix (stem ++ 46%N :: ext) suffix = stem ++ suffix.
Proof.
  intros. unfold name_with_suffix. rewrite suffix_index_ext by assumption.
  now rewrite firstn_exact.
Qed.

Lemma ext_name (stem ext : list N) :
  stem <> [] -> stem ++ 46%N :: ext <> [] /\ stem ++ 46%N :: ext <> lit ".".
Proof.
  intros Hs. split; intros E; apply (f_equal (@length N)) in E;
    rewrite length_app in E; destruct stem; try congruence; simpl in E; lia.
Qed.

(** a file [stem.ext] in a folder: name, suffix and stem *)
Lemma path_of_file (folder stem ext : list N) :
  folder = [] \/ (exists d, folder = d ++ lit "/") ->
  stem <> [] -> contains 47 stem = false ->
  ext <> [] -> contains 46 ext = false -> contains 47 ext = false ->
  path_name (folder ++ stem ++ 46%N :: ext) = stem ++ 46%N :: ext /\
  path_suffix (folder ++ stem ++ 46%N :: ext) = 46%N :: ext /\
  path_stem (folder ++ stem ++ 46%N :: ext) = stem.
Proof.
  intros Hf Hs Hss He Hed Hes.
  assert (path_name (folder ++ stem ++ 46%N :: ext) = stem ++ 46%N :: ext) as Hn.
  { destruct (ext_name stem ext Hs). apply path_name_join; auto.
    rewrite contains_app, Hss. cbn [orb contains existsb]. fold (contains 47 ext).
    now rewrite Hes. }
  split; [exact Hn|]. unfold path_suffix, path_stem. rewrite Hn. split.
  - rewrite suffix_index_ext by assumption. apply skipn_exact.
  - now apply stem_of_name_ext.
Qed.

(** *** The first loop *)

Lemma assign_step_cases (out : list N) nodes jobs rel nid :
  assign_step out (nodes, jobs) (rel, nid) =
  match doc_key rel with
  | Some k => (<[k := nid]> nodes, jobs ++ [job_of out rel nid])
  | None => (nodes, jobs)
  end.
Proof.
  unfold assign_step, doc_key.
  destruct (bool_decide (path_name rel = lit ".DS_Store")); [reflexivity|].
  destruct (negb (bool_decide (path_suffix rel = lit ".md"))); reflexivity.
Qed.

Lemma assign_ids_snoc (out : list N) files f :
  assign_ids out (files ++ [f]) = assign_step out (assign_ids out files) f.
Proof. unfold assign_ids. now rewrite fold_left_app. Qed.

Lemma doc_key_md rel k : doc_key rel = Some k -> path_suffix rel = lit ".md".
Proof.
  unfold doc_key. destruct (bool_decide (path_name rel = lit ".DS_Store")); [discriminate|].
  destruct (bool_decide (path_suffix rel = lit ".md")) eqn:E; [|discriminate].
  intros _. now apply bool_decide_eq_true in E.
Qed.

Lemma doc_key_shape rel k :
  doc_key rel = Some k -> contains 47 k = false /\ node_key k = k.
Proof.
  unfold doc_key. destruct (bool_decide (path_name rel = lit ".DS_Store")); [discriminate|].
  destruct (negb (bool_decide (path_suffix rel = lit ".md"))); [discriminate|].
  intros [= <-]. split; [|apply node_key_idem].
  apply contains_node_key; [discriminate|].
  pose proof (path_name_without rel) as Hn.
  assert (contains 47 (name_with_suffix (path_name rel) (lit ".org")) = false) as Hw.
  { unfold name_with_suffix. destruct (suffix_index (path_name rel));
      rewrite contains_app; [rewrite contains_firstn by exact Hn|rewrite Hn]; reflexivity. }
  unfold stem_of_name. destruct (suffix_index _); [now apply contains_firstn|exact Hw].
Qed.

Lemma register_entry files nodes k v :
  fold_left register files nodes !! k = Some v ->
  nodes !! k = Some v \/ exists rel, In (rel, v) files /\ doc_key rel = Some k.
Proof.
  revert nodes. induction files as [|[rel nid] files IH]; intros nodes H; [now left|].
  cbn [fold_left] in H. apply IH in H as [H|(r & Hin & Hk)].
  - unfold register in H. cbn [fst snd] in H. destruct (doc_key rel) as [k'|] eqn:E.
    + destruct (decide (k' = k)) as [->|Hne].
      * rewrite lookup_insert_eq in H. injection H as <-. right. exists rel.
        split; [now left|exact E].
      * rewrite lookup_insert_ne in H by exact Hne. now left.
    + now left.
  - right. exists r. split; [now right|exact Hk].
Qed.

(** ** Further properties of the registry *)

(** X12 ([convert_directory], first loop; [node_key]).  The key of the
    registry is a normal form: normalizing a name twice gives what
    normalizing it once gives. *)
Theorem node_key_idempotent (stem : list N) : node_key (node_key stem) = node_key stem.
Proof. apply node_key_idem. Qed.

(** X13 ([convert_directory], first loop; [node_key]).  For the key
    every whitespace character is as good as a space: a no-break space, a
    tab or a line feed in a file name give the key that a space gives. *)
Theorem node_key_any_whitespace (stem : list N) :
  node_key (map (fun c => if is_space c then 32%N else c) stem) = node_key stem.
Proof. rewrite !node_key_collapse. now rewrite collapse_map. Qed.

(** X14 ([convert_directory], first loop).  Every entry of the registry
    comes from a walked file with the suffix [.md], holds the identifier
    drawn for that file, and its key is a normalized name without a
    slash. *)
Theorem registry_entries (out : list N) files k nid :
  fst (assign_ids out files) !! k = Some nid ->
  exists rel, In (rel, nid) files /\ path_suffix rel = lit ".md" /\ doc_key rel = Some k /\
              contains 47 k = false /\ node_key k = k.
Proof.
  unfold assign_ids. rewrite assign_ids_nodes. cbn [fst]. intros H.
  apply register_entry in H as [H|(rel & Hin & Hk)]; [now rewrite lookup_empty in H|].
  exists rel. destruct (doc_key_shape rel k Hk) as [H1 H2].
  split; [exact Hin|]. split; [exact (doc_key_md rel k Hk)|]. now split.
Qed.

Lemma registry_entries_witness :
  exists rel, In (rel, ID_B) [(lit "Notes/A.md", ID_A); (lit "Notes/B.md", ID_B)] /\
              path_suffix rel = lit ".md" /\ doc_key rel = Some (lit "B") /\
              contains 47 (lit "B") = false /\ node_key (lit "B") = lit "B".
Proof.
  apply (registry_entries (lit "out") [(lit "Notes/A.md", ID_A); (lit "Notes/B.md", ID_B)]).
  vm_compute. reflexivity.
Defined.

(** X15 ([convert_directory], first loop).  When no two Markdown files
    of a run have the same key, the identifier that a job carries, which
    [add_node_id] writes into the header of the converted file, is the
    identifier the registry holds for the key of that file. *)
Theorem job_identifier_registered (out : list N) files j :
  NoDup (omap (fun f => doc_key f.1) files) ->
  In j (snd (assign_ids out files)) ->
  exists k, doc_key (job_md j) = Some k /\
            fst (assign_ids out files) !! k = Some (job_id j).
Proof.
  induction files as [|[rel nid] files IH] using rev_ind; intros Hnd Hj; [destruct Hj|].
  rewrite omap_app in Hnd. apply NoDup_app in Hnd as (Hnd & Hsep & _).
  rewrite assign_ids_snoc in *.
  destruct (assign_ids out files) as [nodes jobs] eqn:E.
  rewrite assign_step_cases in *.
  destruct (doc_key rel) as [k'|] eqn:Ek; cbn [fst snd] in *.
  - assert (omap (fun f : list N * list N => doc_key f.1) [(rel, nid)] = [k']) as Hone
      by (cbn; now rewrite Ek).
    rewrite Hone in Hsep. apply in_app_or in Hj as [Hj|[<-|[]]].
    + destruct (IH Hnd Hj) as (k & Hk & Hl). exists k. split; [exact Hk|].
      rewrite lookup_insert_ne; [exact Hl|]. intros ->.
      apply (Hsep k); [|now left].
      pose proof (f_equal fst E) as En. cbn [fst] in En. unfold assign_ids in En.
      rewrite assign_ids_nodes in En. cbn [fst] in En.
      apply (elem_of_dom_2 (D := gset (list N))) in Hl.
      rewrite <- En, register_dom, dom_empty_L, (left_id_L ∅ (∪)) in Hl.
      now apply elem_of_list_to_set in Hl.
    + exists k'. cbn [job_of job_md job_id]. split; [exact Ek|apply lookup_insert_eq].
  - now apply IH.
Qed.

Lemma job_identifier_registered_witness :
  exists k, doc_key (lit "Notes/A.md") = Some k /\
            fst (assign_ids (lit "out") [(lit "Notes/A.md", ID_A); (lit "Notes/B.md", ID_B)]) !! k
            = Some ID_A.
Proof.
  apply (job_identifier_registered (lit "out")
           [(lit "Notes/A.md", ID_A); (lit "Notes/B.md", ID_B)]
           (job_of (lit "out") (lit "Notes/A.md") ID_A)).
  - apply (bool_decide_unpack _). vm_compute. exact I.
  - vm_compute. now left.
Defined.

(** X16 ([convert_directory], first loop).  One round on a Markdown file
    [stem.md] in a folder: the file is registered under the normalized
    stem, and its job writes to [stem.org] in the same folder under the
    output directory; the stem of that path, which [add_node_id] writes
    as the title, is the stem of the source.  The stem may hold dots. *)
Theorem assign_step_markdown (out : list N) nodes jobs (folder stem nid : list N) :
  folder = [] \/ (exists d, folder = d ++ lit "/") ->
  stem <> [] -> contains 47 stem = false ->
  assign_step out (nodes, jobs) (folder ++ stem ++ lit ".md", nid) =
  (<[node_key stem := nid]> nodes,
   jobs ++ [{| job_md := folder ++ stem ++ lit ".md";
               job_org := out ++ lit "/" ++ folder ++ stem ++ lit ".org";
               job_id := nid |}]) /\
  path_stem (out ++ lit "/" ++ folder ++ stem ++ lit ".org") = stem.
Proof.
  intros Hf Hs Hss.
  destruct (path_of_file folder stem (lit "md") Hf Hs Hss) as (Hn & Hx & _);
    try reflexivity; try discriminate.
  change (46%N :: lit "md") with (lit ".md") in *.
  split.
  - rewrite assign_step_cases. unfold doc_key, job_of. rewrite Hn, Hx.
    assert (bool_decide (stem ++ lit ".md" = lit ".DS_Store") = false) as ->.
    { apply bool_decide_eq_false. intros E. apply (f_equal (@rev N)) in E.
      rewrite rev_app_distr in E. discriminate E. }
    cbn [bool_decide negb]. rewrite bool_decide_eq_true_2 by reflexivity. cbn [negb].
    change (lit ".md") with (46%N :: lit "md").
    rewrite name_with_suffix_ext by (try discriminate; auto).
    change (stem ++ lit ".org") with (stem ++ 46%N :: lit "org").
    rewrite stem_of_name_ext by (try discriminate; auto).
    do 3 f_equal. rewrite length_app, length_app.
    replace (length folder + (length stem + length (46%N :: lit "md"))
             - (length stem + length (46%N :: lit "md"))) with (length folder) by lia.
    now rewrite firstn_exact.
  - rewrite (app_assoc out), (app_assoc (out ++ lit "/")).
    apply (path_of_file ((out ++ lit "/") ++ folder) stem (lit "org")); auto;
      try discriminate.
    right. destruct Hf as [->|(d & ->)].
    + exists out. now rewrite app_nil_r.
    + exists ((out ++ lit "/") ++ d). now rewrite <- !app_assoc.
Qed.

Lemma assign_step_markdown_witness :
  assign_step (lit "out") (∅, []) (lit "Notes/" ++ lit "v1.2" ++ lit ".md", ID_A) =
  (<[node_key (lit "v1.2") := ID_A]> ∅,
   [] ++ [{| job_md := lit "Notes/" ++ lit "v1.2" ++ lit ".md";
             job_org := lit "out" ++ lit "/" ++ lit "Notes/" ++ lit "v1.2" ++ lit ".org";
             job_id := ID_A |}]) /\
  path_stem (lit "out" ++ lit "/" ++ lit "Notes/" ++ lit "v1.2" ++ lit ".org") = lit "v1.2".
Proof.
  apply (assign_step_markdown (lit "out") ∅ [] (lit "Notes/") (lit "v1.2") ID_A).
  - right. now exists (lit "Notes").
  - discriminate.
  - reflexivity.
Defined.

(** *** Labelled links and file references *)

Lemma plain_of_link (s : list N) :
  forallb link_char s = true -> contains LF s = false -> forallb plain_char s = true.
Proof.
  induction s as [|c s IH]; [reflexivity|]. cbn [forallb contains existsb].
  intros Hp Hl. apply andb_true_iff in Hp as [Hc Hp]. apply orb_false_iff in Hl as [Hl Hlf].
  rewrite IH by assumption. rewrite andb_true_r. unfold plain_char. cbn [in_class].
  apply link_char_spec in Hc as (Hc & _). rewrite N.eqb_sym in Hl. now rewrite Hl, Hc.
Qed.

Lemma plain_hint c : plain_char c = true -> hint_char c = true.
Proof.
  unfold plain_char. rewrite hint_char_eq. intros H. now apply andb_true_iff in H as [_ H].
Qed.

Lemma map_nbsp_nobr (s : list N) :
  forallb nobr s = true -> forallb nobr (map nbsp_to_space s) = true.
Proof.
  induction s as [|c s IH]; [reflexivity|]. cbn [forallb map]. intros H.
  apply andb_true_iff in H as [H1 H2]. rewrite (IH H2), andb_true_r.
  unfold nbsp_to_space. destruct (c =? NBSP)%N; [reflexivity|exact H1].
Qed.

Lemma embed_dead_bracketed (x : list N) :
  forallb nobr x = true -> dead EMBED_RE (lit "[[" ++ x ++ lit "]]").
Proof.
  intros Hx. apply (dead_inert (lit "![[")).
  change (lit "[[" ++ x ++ lit "]]") with (91%N :: 91%N :: x ++ lit "]]").
  apply inert3_cons; [reflexivity|]. apply inert3_cons; [reflexivity|].
  apply inert3_app; auto.
Qed.

Lemma mtch_seq_lit A c r pv s g (k : option N -> list N -> caps -> option A) :
  mtch (Seq (Lit c) r) pv (c :: s) g k = mtch r (Some c) s g k.
Proof. cbn [mtch]. now rewrite N.eqb_refl. Qed.

Lemma desc_match pv (page label post : list N) :
  page <> [] -> forallb name_char page = true ->
  label <> [] -> forallb hint_char label = true ->
  match_at WIKI_DESC_RE false pv (lit "[[" ++ page ++ lit "|" ++ label ++ lit "]]" ++ post) =
  Some {| m_text := lit "[[" ++ page ++ lit "|" ++ label ++ lit "]]";
          m_caps := [(2, label); (1, page)] |}.
Proof.
  intros Hp Hpc Hl Hlc. unfold match_at, WIKI_DESC_RE. rewrite mtch_lits_app.
  change (seq [Grp 1 (Rep (NoneOf (chars "]|")) 1 true); Lit 124;
               Grp 2 (Rep (NoneOf (chars "]")) 1 true); Lit 93; Lit 93])
    with (Seq (Grp 1 (Rep (NoneOf (chars "]|")) 1 true))
              (Seq (Lit 124)
                   (Seq (Grp 2 (Rep (NoneOf (chars "]")) 1 true)) (seq [Lit 93; Lit 93])))).
  rewrite mtch_grp_greedy; [|now intros pv' c s' g' Hc; cbn [mtch];
                              apply name_char_spec in Hc as [_ ->]|exact Hpc|reflexivity].
  rewrite leb1_nonempty by exact Hp.
  change (lit "|" ++ label ++ lit "]]" ++ post) with (124%N :: label ++ lit "]]" ++ post).
  rewrite mtch_seq_lit.
  rewrite mtch_grp_greedy; [|now intros pv' c s' g' Hc; cbn [mtch seq];
                              apply hint_char_spec in Hc as ->|exact Hlc|reflexivity].
  rewrite leb1_nonempty by exact Hl.
  change (lit "]]" ++ post) with (93%N :: 93%N :: post). cbn [mtch seq]. rewrite !N.eqb_refl.
  replace (lit "[[" ++ page ++ 124%N :: label ++ 93%N :: 93%N :: post)
    with ((lit "[[" ++ page ++ lit "|" ++ label ++ lit "]]") ++ post)
    by (now rewrite <- !app_assoc).
  apply finish_app.
Qed.

Lemma ref_inert (x label : list N) :
  forallb nobr x = true -> forallb nobr label = true ->
  inert (lit "[[") (91%N :: x ++ 93%N :: 91%N :: label ++ 93%N :: [93%N]) = true.
Proof. intros Hx Hl. apply inert2_bracketed; [exact Hx|]. now apply inert2_bracketed. Qed.

(** the bare-link pattern cannot start inside a reference with a label *)
Lemma bare_dead_ref (x label : list N) :
  forallb link_char x = true -> forallb nobr label = true ->
  dead BARE_LINK_RE (lit "[[" ++ x ++ lit "][" ++ label ++ lit "]]").
Proof.
  intros Hx Hl.
  change (lit "[[" ++ x ++ lit "][" ++ label ++ lit "]]")
    with (91%N :: (91%N :: x ++ lit "][" ++ label ++ lit "]]")).
  apply dead_cons.
  - intros b pv.
    replace (91%N :: (91%N :: x ++ lit "][" ++ label ++ lit "]]") ++ b)
      with (lit "[[" ++ x ++ (93%N :: 91%N :: label ++ 93%N :: 93%N :: b))
      by (simpl; rewrite <- !app_assoc; simpl; rewrite <- !app_assoc; reflexivity).
    now apply bare_no_match.
  - apply (dead_inert (lit "[[")).
    apply (ref_inert x label); [|exact Hl].
    eapply forallb_impl; [|exact Hx]. apply link_char_nobr.
Qed.

Lemma fix_links_labelled_at (pre page label post : list N) :
  calm pre = true -> page <> [] -> forallb link_char page = true ->
  label <> [] -> forallb hint_char label = true -> forallb nobr label = true ->
  fix_links (pre ++ lit "[[" ++ page ++ lit "|" ++ label ++ lit "]]" ++ post) =
  pre ++ lit "[[file:" ++ page ++ lit ".org][" ++ label ++ lit "]]" ++ fix_links post.
Proof.
  intros Hpre Hp Hpc Hl Hlc Hln. unfold fix_links.
  assert (forallb nobr (page ++ lit "|" ++ label) = true) as Hx.
  { rewrite !forallb_app, Hln. change (forallb nobr (lit "|")) with true.
    rewrite !andb_true_r. eapply forallb_impl; [|exact Hpc]. apply link_char_nobr. }
  replace (pre ++ lit "[[" ++ page ++ lit "|" ++ label ++ lit "]]" ++ post)
    with ((pre ++ lit "[[" ++ (page ++ lit "|" ++ label) ++ lit "]]") ++ post)
    by (now rewrite <- !app_assoc).
  rewrite (re_sub_dead EMBED_RE); [|reflexivity|].
  2:{ apply dead_app; [auto with links|now apply embed_dead_bracketed]. }
  replace ((pre ++ lit "[[" ++ (page ++ lit "|" ++ label) ++ lit "]]") ++ re_sub EMBED_RE embed_repl post)
    with (pre ++ (lit "[[" ++ page ++ lit "|" ++ label ++ lit "]]") ++ re_sub EMBED_RE embed_repl post)
    by (now rewrite <- !app_assoc).
  rewrite (re_sub_link WIKI_DESC_RE _ pre (lit "[[" ++ page ++ lit "|" ++ label ++ lit "]]") _
             {| m_text := lit "[[" ++ page ++ lit "|" ++ label ++ lit "]]";
                m_caps := [(2, label); (1, page)] |});
    try reflexivity.
  2:{ auto with links. }
  2:{ rewrite <- !app_assoc. apply desc_match; auto.
      eapply forallb_impl; [|exact Hpc]. apply link_name_char. }
  2:{ discriminate. }
  change (desc_repl {| m_text := lit "[[" ++ page ++ lit "|" ++ label ++ lit "]]";
                       m_caps := [(2, label); (1, page)] |})
    with (lit "[[file:" ++ page ++ lit ".org][" ++ label ++ lit "]]").
  replace (pre ++ (lit "[[file:" ++ page ++ lit ".org][" ++ label ++ lit "]]")
               ++ re_sub WIKI_DESC_RE desc_repl (re_sub EMBED_RE embed_repl post))
    with ((pre ++ lit "[[" ++ (lit "file:" ++ page ++ lit ".org") ++ lit "][" ++ label ++ lit "]]")
            ++ re_sub WIKI_DESC_RE desc_repl (re_sub EMBED_RE embed_repl post))
    by (cbn [app]; rewrite <- !app_assoc; cbn [app]; now rewrite <- ?app_assoc).
  rewrite (re_sub_dead WIKI_SIMPLE_RE); [|reflexivity|].
  - cbn [app]. rewrite <- !app_assoc. cbn [app]. now rewrite <- ?app_assoc.
  - apply dead_app; [auto with links|]. apply (bare_dead_ref (lit "file:" ++ page ++ lit ".org")).
    + rewrite !forallb_app, Hpc. reflexivity.
    + exact Hln.
Qed.

(** a file reference with a label in the second pass *)
Lemma relink_file_ref nodes (pre raw label post : list N) :
  calm pre = true -> forallb link_char raw = true -> contains LF raw = false ->
  forallb plain_char label = true -> forallb nobr label = true ->
  match truthy (nodes !! node_key (path_stem raw)) with
  | Some nid => id_shaped nid = true
  | None => True
  end ->
  relink nodes (pre ++ lit "[[file:" ++ raw ++ lit "][" ++ label ++ lit "]]" ++ post) =
  pre ++ match truthy (nodes !! node_key (path_stem raw)) with
         | Some nid => lit "[[id:" ++ nid ++ lit "][" ++ map nbsp_to_space label ++ lit "]]"
         | None => lit "[[file:" ++ raw ++ lit "][" ++ label ++ lit "]]"
         end ++ relink nodes post.
Proof.
  intros Hpre Hr Hrl Hl Hln Hid. unfold relink.
  replace (pre ++ lit "[[file:" ++ raw ++ lit "][" ++ label ++ lit "]]" ++ post)
    with (pre ++ (lit "[[file:" ++ raw ++ lit "][" ++ label ++ lit "]]") ++ post)
    by (now rewrite <- !app_assoc).
  rewrite (re_sub_link FILE_LINK_RE _ pre
             (lit "[[file:" ++ raw ++ lit "][" ++ label ++ lit "]]") _
             {| m_text := lit "[[file:" ++ raw ++ lit "][" ++ label ++ lit "]]";
                m_caps := [(2, label); (1, raw)] |});
    try reflexivity.
  2:{ auto with links. }
  2:{ rewrite <- !app_assoc. apply file_match; auto using plain_of_link. }
  2:{ discriminate. }
  unfold repl_file. cbn [group cap_get m_caps m_text Nat.eqb].
  rewrite sub_nbsp. fold (node_key (path_stem raw)).
  rewrite (app_assoc pre).
  rewrite (re_sub_dead BARE_LINK_RE); [now rewrite <- !app_assoc|reflexivity|].
  apply dead_app; [auto with links|].
  destruct (truthy (nodes !! node_key (path_stem raw))) as [nid|].
  - apply bare_dead_id; auto using map_nbsp_nobr.
  - apply (bare_dead_ref (lit "file:" ++ raw)); [|exact Hln].
    rewrite forallb_app, Hr. reflexivity.
Qed.

(** *** Text that the passes copy *)

Lemma fix_links_calm (pre post : list N) :
  calm pre = true -> fix_links (pre ++ post) = pre ++ fix_links post.
Proof.
  intros H. unfold fix_links.
  rewrite (re_sub_dead EMBED_RE), (re_sub_dead WIKI_DESC_RE), (re_sub_dead WIKI_SIMPLE_RE);
    auto with links.
Qed.

Lemma relink_calm nodes (pre post : list N) :
  calm pre = true -> relink nodes (pre ++ post) = pre ++ relink nodes post.
Proof.
  intros H. unfold relink.
  rewrite (re_sub_dead FILE_LINK_RE), (re_sub_dead BARE_LINK_RE); auto with links.
Qed.

Lemma starts_with_occurs (l s : list N) : starts_with l s = true -> occurs l s = true.
Proof. destruct s; cbn [occurs]; [auto|]. intros ->. reflexivity. Qed.

Lemma occurs_tail c (l s : list N) : occurs (c :: l) s = true -> occurs l s = true.
Proof.
  induction s as [|x s IH]; cbn [occurs starts_with]; [discriminate|].
  intros H. apply orb_true_iff in H as [H|H].
  - apply andb_true_iff in H as [_ H]. apply starts_with_occurs in H. rewrite H.
    apply orb_true_r.
  - rewrite (IH H). apply orb_true_r.
Qed.

Lemma occurs_without c (l s : list N) :
  contains c l = true -> contains c s = false -> occurs l s = false.
Proof.
  intros Hl Hs. destruct (occurs l s) eqn:E; [|reflexivity]. exfalso.
  assert (forall t, starts_with l t = true -> contains c t = true) as Hst.
  { clear - Hl. induction l as [|x l IH]; intros t H; [discriminate|].
    destruct t as [|y t]; [discriminate|]. cbn [starts_with] in H.
    apply andb_true_iff in H as [H1 H2]. apply N.eqb_eq in H1. subst y.
    cbn [contains existsb] in *. apply orb_true_iff in Hl as [->|Hl]; [reflexivity|].
    fold (contains c t). rewrite (IH Hl t H2). apply orb_true_r. }
  induction s as [|x s IH]; cbn [occurs] in E.
  - apply Hst in E. cbn in E. discriminate.
  - cbn [contains existsb] in Hs. apply orb_false_iff in Hs as [H1 H2].
    apply orb_true_iff in E as [E|E]; [|now apply IH].
    apply Hst in E. cbn [contains existsb] in E. fold (contains c s) in *.
    rewrite H1, H2 in E. discriminate.
Qed.

Lemma fix_links_absent (s : list N) : occurs (lit "[[") s = false -> fix_links s = s.
Proof.
  intros H. unfold fix_links.
  assert (occurs (lit "![[") s = false) as H3.
  { destruct (occurs (lit "![[") s) eqn:E; [|reflexivity].
    apply (occurs_tail 33 (lit "[[")) in E. congruence. }
  unfold EMBED_RE, WIKI_DESC_RE, WIKI_SIMPLE_RE.
  rewrite (re_sub_absent (lit "![[")); [|discriminate|exact H3].
  rewrite (re_sub_absent (lit "[[") _ desc_repl); [|discriminate|exact H].
  rewrite (re_sub_absent (lit "[[")); [reflexivity|discriminate|exact H].
Qed.

Lemma first_line_split_at (s : list N) :
  exists rest, s = first_line s ++ rest /\ at_eol rest = true /\
               contains LF (first_line s) = false.
Proof.
  induction s as [|c s (rest & E & Hr & Hl)]; [now exists []|].
  cbn [first_line]. destruct (N.eqb_spec c LF) as [->|Hc].
  - now exists (LF :: s).
  - exists rest. cbn [app contains existsb]. fold (contains LF (first_line s)).
    rewrite <- E, Hl. split; [reflexivity|]. split; [exact Hr|].
    destruct (N.eqb_spec LF c); [congruence|reflexivity].
Qed.

Lemma first_line_app (l rest : list N) :
  contains LF l = false -> at_eol rest = true -> first_line (l ++ rest) = l.
Proof.
  intros Hl Hr. induction l as [|c l IH].
  - destruct rest as [|x rest]; [reflexivity|]. cbn in *. now rewrite Hr.
  - cbn [contains existsb] in Hl. apply orb_false_iff in Hl as [H1 H2].
    cbn [app first_line]. rewrite N.eqb_sym, H1. now rewrite IH.
Qed.

(** a first line without opening bracket is a first line of the result *)
Lemma fix_links_first_line (post : list N) :
  contains 91 (first_line post) = false -> first_line (fix_links post) = first_line post.
Proof.
  intros H. destruct (first_line_split_at post) as (rest & E & Hr & Hl).
  set (l := first_line post) in *. rewrite E. destruct rest as [|c r].
  - rewrite app_nil_r, fix_links_absent; [now apply first_line_id|].
    now apply (occurs_without 91).
  - cbn in Hr. apply N.eqb_eq in Hr. subst c.
    replace (l ++ LF :: r) with ((l ++ [LF]) ++ r) by now rewrite <- app_assoc.
    rewrite fix_links_calm.
    + rewrite <- app_assoc. now apply first_line_app.
    + unfold calm. rewrite ends_outside_snoc. rewrite (occurs_without 91); [reflexivity..|].
      rewrite contains_app, H. reflexivity.
Qed.

Lemma rep_lazy_dot_none A min pv (s : list N) (k : option N -> list N -> option A) :
  (forall pv' s', contains 91 (first_line s') = false -> k pv' s' = None) ->
  contains 91 (first_line s) = false ->
  rep_lazy (in_class Dot) min pv s k = None.
Proof.
  intros Hk. revert min pv. induction s as [|c s IH]; intros min pv H.
  - destruct min; cbn [rep_lazy]; [|reflexivity]. now rewrite Hk.
  - assert (match (if in_class Dot c then rep_lazy (in_class Dot) (pred min) (Some c) s k else None)
            with Some a => Some a | None => None end = None) as Hmore.
    { cbn [in_class]. cbn [first_line] in H. destruct (c =? LF)%N; [reflexivity|].
      cbn [negb]. rewrite IH; [reflexivity|].
      cbn [contains existsb] in H. now apply orb_false_iff in H as [_ H]. }
    destruct min; cbn [rep_lazy].
    + rewrite Hk by exact H.
      destruct (in_class Dot c); [|reflexivity].
      destruct (rep_lazy (in_class Dot) (pred 0) (Some c) s k); [discriminate|reflexivity].
    + destruct (in_class Dot c); [|reflexivity].
      destruct (rep_lazy (in_class Dot) (pred (S min)) (Some c) s k); [discriminate|reflexivity].
Qed.

(** no file link without an opening bracket later on the line *)
Lemma file_no_match pv (s : list N) :
  contains 91 (first_line s) = false ->
  match_at FILE_LINK_RE false pv (lit "[[file:" ++ s) = None.
Proof.
  intros H. unfold match_at, FILE_LINK_RE. rewrite mtch_lits_app. cbn [seq mtch].
  apply rep_lazy_dot_none; [|exact H].
  intros pv' s' Hs. destruct s' as [|x s']; [reflexivity|].
  destruct (N.eqb_spec x 93) as [->|]; [|reflexivity].
  destruct s' as [|y s']; [reflexivity|].
  destruct (N.eqb_spec y 91) as [->|]; [|reflexivity].
  discriminate Hs.
Qed.

Lemma rstrip_prefix_ws (s : list N) :
  exists w, s = rstrip s ++ w /\ forallb is_space w = true.
Proof.
  unfold rstrip. destruct (lstrip_suffix (rev s)) as (w & E & Hw).
  exists (rev w). split.
  - rewrite <- rev_app_distr, <- E. now rewrite rev_involutive.
  - rewrite forallb_forall in *. intros x Hx. apply Hw. now apply in_rev.
Qed.

Lemma contains_space_run c (w : list N) :
  is_space c = false -> forallb is_space w = true -> contains c w = false.
Proof.
  intros Hc. induction w as [|x w IH]; [reflexivity|]. cbn [forallb contains existsb].
  intros H. apply andb_true_iff in H as [Hx Hw]. fold (contains c w). rewrite (IH Hw).
  destruct (N.eqb_spec c x) as [->|]; [congruence|reflexivity].
Qed.

Lemma contains_strip_keep c (s : list N) :
  is_space c = false -> contains c s = true -> contains c (strip s) = true.
Proof.
  intros Hc H. unfold strip. destruct (lstrip_suffix s) as (w & E & Hw).
  destruct (rstrip_prefix_ws (lstrip s)) as (w' & E' & Hw').
  rewrite E, contains_app, (contains_space_run c w Hc Hw) in H. cbn [orb] in H.
  rewrite E', contains_app, (contains_space_run c w' Hc Hw'), orb_false_r in H. exact H.
Qed.

Lemma registry_without_slash (out : list N) files k :
  contains 47 k = true -> fst (assign_ids out files) !! k = None.
Proof.
  intros Hk. destruct (fst (assign_ids out files) !! k) as [v|] eqn:E; [|reflexivity].
  unfold assign_ids in E. rewrite assign_ids_nodes in E. cbn [fst] in E.
  apply register_entry in E as [E|(rel & _ & Hd)]; [now rewrite lookup_empty in E|].
  apply doc_key_shape in Hd as [Hd _]. congruence.
Qed.

Lemma first_line_nobr (a b : list N) :
  forallb nobr a = true -> contains 91 (first_line b) = false ->
  contains 91 (first_line (a ++ b)) = false.
Proof.
  intros Ha Hb. induction a as [|c a IH]; [exact Hb|].
  cbn [forallb] in Ha. apply andb_true_iff in Ha as [Hc Ha].
  cbn [app first_line]. destruct (c =? LF)%N; [reflexivity|].
  cbn [contains existsb]. fold (contains 91 (first_line (a ++ b))).
  rewrite (IH Ha), orb_false_r. unfold nobr in Hc. apply negb_true_iff in Hc.
  now rewrite N.eqb_sym.
Qed.

(** a bracketed text that starts with [file:], with no opening bracket
    after it on the line, is passed by the file pattern *)
Lemma file_sub_unlabelled f pv (y Q : list N) :
  forallb nobr y = true -> contains 91 (first_line Q) = false ->
  sub_go FILE_LINK_RE f pv (lit "[[file:" ++ y ++ lit "]]" ++ Q) 0 =
  lit "[[file:" ++ y ++ lit "]]" ++ re_sub FILE_LINK_RE f Q.
Proof.
  intros Hy HQ.
  assert (match_at FILE_LINK_RE false pv (lit "[[file:" ++ y ++ lit "]]" ++ Q) = None) as Hno.
  { apply file_no_match. apply first_line_nobr; [exact Hy|].
    now apply (first_line_nobr (lit "]]")). }
  assert (dead FILE_LINK_RE (91%N :: (lit "file:" ++ y) ++ 93%N :: [93%N])) as Hd.
  { apply (dead_inert (lit "[[" ++ lit "file:")). apply inert_app_l.
    apply inert2_bracketed; [|reflexivity]. now rewrite forallb_app, Hy. }
  assert (forall Z, lit "[[file:" ++ y ++ lit "]]" ++ Z =
                    91%N :: ((91%N :: (lit "file:" ++ y) ++ 93%N :: [93%N]) ++ Z)) as E
    by (intros Z; cbn [app]; rewrite <- !app_assoc; reflexivity).
  rewrite !E in *. cbn [sub_go]. rewrite Hno, (sub_go_pass _ _ _ _ _ Hd).
  do 2 f_equal. now apply sub_go_pv.
Qed.

(** the second pass on the reference that an embed has become *)
Lemma relink_attachment nodes (pre name Q : list N) :
  calm pre = true -> name <> [] -> forallb link_char name = true ->
  contains 91 (first_line Q) = false ->
  truthy (nodes !! strip (map nbsp_to_space (lit "file:../attachments/" ++ name))) = None ->
  relink nodes (pre ++ lit "[[file:../attachments/" ++ name ++ lit "]]" ++ Q) =
  pre ++ lit "[[file:../attachments/" ++ name ++ lit "]]" ++ relink nodes Q.
Proof.
  intros Hpre Hne Hn HQ Hk. unfold relink.
  assert (forallb link_char (lit "file:../attachments/" ++ name) = true) as Hx
    by (now rewrite forallb_app, Hn).
  assert (re_sub FILE_LINK_RE (repl_file nodes)
            (pre ++ lit "[[file:../attachments/" ++ name ++ lit "]]" ++ Q) =
          pre ++ (lit "[[" ++ (lit "file:../attachments/" ++ name) ++ lit "]]")
              ++ re_sub FILE_LINK_RE (repl_file nodes) Q) as ->.
  { unfold re_sub at 1. rewrite sub_go_pass by auto with links. f_equal.
    pose proof (file_sub_unlabelled (repl_file nodes) (pv_after None pre)
                  (lit "../attachments/" ++ name) Q) as H.
    rewrite <- !app_assoc in H. rewrite <- !app_assoc. apply H; [|exact HQ].
    rewrite forallb_app. cbn [andb]. change (forallb nobr (lit "../attachments/")) with true.
    eapply forallb_impl; [|exact Hn]. apply link_char_nobr. }
  rewrite (re_sub_link BARE_LINK_RE _ pre (lit "[[" ++ (lit "file:../attachments/" ++ name) ++ lit "]]") _
             {| m_text := lit "[[" ++ (lit "file:../attachments/" ++ name) ++ lit "]]";
                m_caps := [(1, lit "file:../attachments/" ++ name)] |}).
  - f_equal. unfold repl_bare. cbn [group cap_get m_caps m_text Nat.eqb].
    rewrite sub_nbsp, Hk. now rewrite <- !app_assoc.
  - reflexivity.
  - auto with links.
  - rewrite <- !app_assoc. apply (bare_match _ (lit "file:../attachments/" ++ name));
      [discriminate|exact Hx].
  - reflexivity.
  - discriminate.
Qed.

(** ** Further properties of the link passes *)

(** X17 ([fix_links], [calm]; second loop of [convert_directory]).
    Text in which no link can start is copied by both passes, and the
    text after it is rewritten as if it stood alone. *)
Theorem passes_copy_calm_text nodes (pre post : list N) :
  calm pre = true ->
  fix_links (pre ++ post) = pre ++ fix_links post /\
  relink nodes (pre ++ post) = pre ++ relink nodes post.
Proof. intros H. split; [now apply fix_links_calm|now apply relink_calm]. Qed.

Lemma passes_copy_calm_text_witness :
  calm (lit "See ") = true /\
  fix_links (lit "See " ++ lit "[[B]]") = lit "See " ++ fix_links (lit "[[B]]") /\
  relink sample_nodes (lit "See " ++ lit "[[B]]") = lit "See " ++ relink sample_nodes (lit "[[B]]").
Proof.
  split; [reflexivity|].
  exact (passes_copy_calm_text sample_nodes (lit "See ") (lit "[[B]]") eq_refl).
Defined.

(** X18 ([fix_links], the labelled form).  A labelled wiki link
    [[page|label]] becomes a file reference to [page.org] that shows
    [label]; the page is not tested for looking like a URL or a path, so
    every labelled link is rewritten. *)
Theorem fix_links_labelled (pre page label post : list N) :
  calm pre = true -> page <> [] -> forallb link_char page = true ->
  label <> [] -> forallb hint_char label = true -> forallb nobr label = true ->
  fix_links (pre ++ lit "[[" ++ page ++ lit "|" ++ label ++ lit "]]" ++ post) =
  pre ++ lit "[[file:" ++ page ++ lit ".org][" ++ label ++ lit "]]" ++ fix_links post.
Proof. apply fix_links_labelled_at. Qed.

Lemma fix_links_labelled_witness :
  fix_links (lit "See " ++ lit "[[" ++ lit "a/b.c" ++ lit "|" ++ lit "the page" ++ lit "]]" ++ lit ".") =
  lit "See " ++ lit "[[file:" ++ lit "a/b.c" ++ lit ".org][" ++ lit "the page" ++ lit "]]"
    ++ fix_links (lit ".").
Proof.
  apply (fix_links_labelled (lit "See ") (lit "a/b.c") (lit "the page") (lit "."));
    try reflexivity; discriminate.
Defined.

(** X19 (both passes, the labelled form).  A labelled wiki link to a
    page, given with or without a folder, comes out of the two passes as a
    reference to the identifier registered for the name of the page, and
    shows the label with its no-break spaces turned into spaces. *)
Theorem labelled_link_becomes_id_reference nodes (pre folder name label post nid : list N) :
  calm pre = true ->
  folder = [] \/ (exists d, folder = d ++ lit "/") ->
  forallb link_char folder = true -> contains LF folder = false ->
  name <> [] -> forallb link_char name = true -> contains LF name = false ->
  contains 47 name = false ->
  label <> [] -> forallb plain_char label = true -> forallb nobr label = true ->
  nodes !! node_key name = Some nid -> id_shaped nid = true ->
  relink nodes (fix_links (pre ++ lit "[[" ++ (folder ++ name) ++ lit "|" ++ label ++ lit "]]" ++ post)) =
  pre ++ lit "[[id:" ++ nid ++ lit "][" ++ map nbsp_to_space label ++ lit "]]"
      ++ relink nodes (fix_links post).
Proof.
  intros Hpre Hf Hfc Hfl Hn Hnc Hnl Hns Hl Hlc Hln Hk Hid.
  assert (forallb link_char (folder ++ name) = true) as Hpc
    by (now rewrite forallb_app, Hfc, Hnc).
  rewrite <- !app_assoc.
  rewrite (app_assoc folder name), fix_links_labelled_at; auto;
    [|now destruct folder, name
     |eapply forallb_impl; [|exact Hlc]; apply plain_hint].
  assert (path_stem ((folder ++ name) ++ lit ".org") = name) as Hs.
  { rewrite <- app_assoc. now apply (path_of_file folder name (lit "org")). }
  change (lit "[[file:" ++ (folder ++ name) ++ lit ".org][" ++ label ++ lit "]]" ++ fix_links post)
    with (lit "[[file:" ++ (folder ++ name) ++ lit ".org" ++ lit "][" ++ label ++ lit "]]" ++ fix_links post).
  rewrite (app_assoc (folder ++ name) (lit ".org")).
  rewrite relink_file_ref; auto.
  - rewrite Hs, Hk, truthy_shaped by exact Hid. now rewrite <- !app_assoc.
  - now rewrite forallb_app, Hpc.
  - rewrite !contains_app, Hfl, Hnl. reflexivity.
  - rewrite Hs, Hk, truthy_shaped by exact Hid. exact Hid.
Qed.

Lemma labelled_link_becomes_id_reference_witness :
  relink sample_nodes
    (fix_links (lit "See " ++ lit "[[" ++ (lit "Notes/" ++ lit "B") ++ lit "|" ++ lit "the page"
                  ++ lit "]]" ++ lit ".")) =
  lit "See " ++ lit "[[id:" ++ ID_B ++ lit "][" ++ map nbsp_to_space (lit "the page") ++ lit "]]"
    ++ relink sample_nodes (fix_links (lit ".")).
Proof.
  apply (labelled_link_becomes_id_reference sample_nodes (lit "See ") (lit "Notes/") (lit "B")
           (lit "the page") (lit ".") ID_B); try reflexivity; try discriminate.
  right. now exists (lit "Notes").
Defined.

(** X20 (second loop of [convert_directory], [repl_file]).  A file
    reference whose page is not in the registry, or is registered with an
    empty identifier, is left as it is. *)
Theorem unresolved_file_reference_kept nodes (pre raw label post : list N) :
  calm pre = true -> forallb link_char raw = true -> contains LF raw = false ->
  forallb plain_char label = true -> forallb nobr label = true ->
  truthy (nodes !! node_key (path_stem raw)) = None ->
  relink nodes (pre ++ lit "[[file:" ++ raw ++ lit "][" ++ label ++ lit "]]" ++ post) =
  pre ++ lit "[[file:" ++ raw ++ lit "][" ++ label ++ lit "]]" ++ relink nodes post.
Proof.
  intros Hpre Hr Hrl Hl Hln Hk. rewrite relink_file_ref; auto; rewrite Hk;
    [now rewrite <- !app_assoc|exact I].
Qed.

Lemma unresolved_file_reference_kept_witness :
  relink sample_nodes (lit "See " ++ lit "[[file:" ++ lit "C.org" ++ lit "][" ++ lit "C" ++ lit "]]" ++ lit ".") =
  lit "See " ++ lit "[[file:" ++ lit "C.org" ++ lit "][" ++ lit "C" ++ lit "]]"
    ++ relink sample_nodes (lit ".").
Proof.
  apply (unresolved_file_reference_kept sample_nodes (lit "See ") (lit "C.org") (lit "C") (lit "."));
    reflexivity.
Defined.

(** X21 (both passes, embeds).  In any run, an embed with nothing but
    text without an opening bracket after it on its line comes out of the
    two passes as the file reference to the attachment: the second pass
    finds no label for a file link, and no key of the registry holds a
    slash. *)
Theorem embed_survives_relink (out : list N) files (pre name hint post : list N) :
  calm pre = true -> name <> [] -> forallb link_char name = true ->
  size_hint hint = true -> contains 91 (first_line post) = false ->
  relink (fst (assign_ids out files))
         (fix_links (pre ++ lit "![[" ++ name ++ hint ++ lit "]]" ++ post)) =
  pre ++ lit "[[file:../attachments/" ++ name ++ lit "]]"
      ++ relink (fst (assign_ids out files)) (fix_links post).
Proof.
  intros Hpre Hne Hn Hh Hp.
  rewrite fix_links_embed by assumption.
  apply relink_attachment; auto.
  - now rewrite fix_links_first_line.
  - rewrite registry_without_slash; [reflexivity|].
    apply contains_strip_keep; [reflexivity|]. rewrite map_app, contains_app.
    reflexivity.
Qed.

Lemma embed_survives_relink_witness :
  relink (fst (assign_ids (lit "out") [(lit "Notes/A.md", ID_A)]))
         (fix_links (lit "Fig: " ++ lit "![[" ++ lit "a.png" ++ lit "|300" ++ lit "]]"
                       ++ lit " (a plot)")) =
  lit "Fig: " ++ lit "[[file:../attachments/" ++ lit "a.png" ++ lit "]]"
    ++ relink (fst (assign_ids (lit "out") [(lit "Notes/A.md", ID_A)])) (fix_links (lit " (a plot)")).
Proof.
  apply (embed_survives_relink (lit "out") [(lit "Notes/A.md", ID_A)] (lit "Fig: ") (lit "a.png")
           (lit "|300") (lit " (a plot)")); try reflexivity.
  discriminate.
Defined.

(** *** The workers and the two loops over files *)

(** a worker reads the Markdown file of its job and writes the output
    file: what it writes is a function of the bytes read *)
Lemma worker_convert_shape (c : codec) (pandoc : list Byte.byte -> option (list Byte.byte))
      (j : job) :
  exists F : list Byte.byte -> option (list Byte.byte),
    forall fs : gmap (list N) (list Byte.byte),
      worker_convert c pandoc fs j =
      match fs !! job_md j with
      | Some src =>
          match F src with
          | Some final => Some (<[job_org j := final]> fs, path_name (job_md j))
          | None => None
          end
      | None => None
      end.
Proof.
  destruct j as [md_path org_path node_id]. cbn [job_md job_org job_id].
  exists (fun src =>
            s ← codec_decode c src;
            tmp ← codec_encode c (prepare_markdown_text (universal_newlines s));
            out ← pandoc tmp;
            o ← codec_decode c out;
            body ← codec_encode c (post_process (universal_newlines o));
            t ← codec_decode c body;
            codec_encode c (header org_path node_id ++ universal_newlines t)).
  intros fs. unfold worker_convert, convert_markdown_file, add_node_id, read_text, write_text.
  destruct (fs !! md_path) as [src|]; [|reflexivity]. cbn [mbind option_bind].
  destruct (codec_decode c src) as [s|]; [|reflexivity]. cbn [mbind option_bind].
  destruct (codec_encode c (prepare_markdown_text (universal_newlines s))) as [tmp|];
    [|reflexivity]. cbn [mbind option_bind].
  destruct (pandoc tmp) as [out|]; [|reflexivity]. cbn [mbind option_bind].
  rewrite lookup_insert_eq. cbn [mbind option_bind].
  destruct (codec_decode c out) as [o|]; [|reflexivity]. cbn [mbind option_bind].
  fold (post_process (universal_newlines o)).
  destruct (codec_encode c (post_process (universal_newlines o))) as [body|];
    [|reflexivity]. cbn [mbind option_bind].
  rewrite lookup_insert_eq. cbn [mbind option_bind].
  destruct (codec_decode c body) as [t|]; [|reflexivity]. cbn [mbind option_bind].
  unfold header. rewrite <- !app_assoc. cbn [app].
  match goal with
  | |- context [codec_encode c ?t] => destruct (codec_encode c t) as [final|]
  end; [|reflexivity].
  cbn [mbind option_bind]. now rewrite !insert_insert_eq.
Qed.

Lemma run_jobs_cons (c : codec) (pandoc : list Byte.byte -> option (list Byte.byte)) fs j jobs :
  run_jobs c pandoc fs (j :: jobs) =
  match worker_convert c pandoc fs j with
  | Some (fs1, fname) =>
      match run_jobs c pandoc fs1 jobs with
      | Some (fs2, fnames) => Some (fs2, fname :: fnames)
      | None => None
      end
  | None => None
  end.
Proof.
  cbn [run_jobs]. destruct (worker_convert c pandoc fs j) as [[fs1 fname]|]; [|reflexivity].
  cbn [mbind option_bind]. destruct (run_jobs c pandoc fs1 jobs) as [[fs2 fnames]|]; reflexivity.
Qed.

Lemma run_jobs_fst (c : codec) (pandoc : list Byte.byte -> option (list Byte.byte)) fs j jobs :
  fst <$> run_jobs c pandoc fs (j :: jobs) =
  match worker_convert c pandoc fs j with
  | Some (fs1, _) => fst <$> run_jobs c pandoc fs1 jobs
  | None => None
  end.
Proof.
  rewrite run_jobs_cons. destruct (worker_convert c pandoc fs j) as [[fs1 fname]|]; [|reflexivity].
  destruct (run_jobs c pandoc fs1 jobs) as [[fs2 fnames]|]; reflexivity.
Qed.

(** two jobs that do not touch each other's output, in either order *)
Lemma run_jobs_swap (c : codec) (pandoc : list Byte.byte -> option (list Byte.byte))
      fs j1 j2 jobs :
  job_org j1 <> job_org j2 -> job_md j1 <> job_org j2 -> job_md j2 <> job_org j1 ->
  fst <$> run_jobs c pandoc fs (j1 :: j2 :: jobs) =
  fst <$> run_jobs c pandoc fs (j2 :: j1 :: jobs).
Proof.
  intros Ho H12 H21.
  destruct (worker_convert_shape c pandoc j1) as (F1 & W1).
  destruct (worker_convert_shape c pandoc j2) as (F2 & W2).
  rewrite (run_jobs_fst _ _ fs j1), (run_jobs_fst _ _ fs j2), W1, W2.
  destruct (fs !! job_md j1) as [s1|] eqn:E1, (fs !! job_md j2) as [s2|] eqn:E2;
    try destruct (F1 s1) as [o1|] eqn:P1; try destruct (F2 s2) as [o2|] eqn:P2;
    rewrite ?run_jobs_fst, ?W1, ?W2, ?lookup_insert_ne, ?E1, ?E2, ?P1, ?P2 by congruence;
    try reflexivity.
  now rewrite (insert_insert_ne _ (job_org j2) (job_org j1)) by congruence.
Qed.

(** ** Further properties of the conversion and of the loops over files *)

(** X22 ([worker_convert], [convert_markdown_file], [add_node_id]).  A
    worker that returns has read the Markdown file of its job as text
    (the file is there and its bytes decode), returns the name of that
    file, leaves the output file of its job in place, and has changed no
    other file. *)
Theorem worker_convert_effect (c : codec) (pandoc : list Byte.byte -> option (list Byte.byte))
        (fs : gmap (list N) (list Byte.byte)) (j : job) fs' fname :
  worker_convert c pandoc fs j = Some (fs', fname) ->
  fname = path_name (job_md j) /\
  is_Some (read_text c fs (job_md j)) /\
  is_Some (fs' !! job_org j) /\
  forall p, p <> job_org j -> fs' !! p = fs !! p.
Proof.
  intros H.
  assert (is_Some (read_text c fs (job_md j))) as Hr.
  { destruct j as [md_path org_path node_id]. cbn [job_md] in *.
    unfold worker_convert, convert_markdown_file in H.
    destruct (read_text c fs md_path); [eauto|discriminate]. }
  destruct (worker_convert_shape c pandoc j) as (F & W). rewrite W in H.
  destruct (fs !! job_md j) as [src|]; [|discriminate].
  destruct (F src) as [final|]; [|discriminate]. injection H as <- <-.
  split; [reflexivity|]. split; [exact Hr|]. split.
  - rewrite lookup_insert_eq. eauto.
  - intros p Hp. now rewrite lookup_insert_ne.
Qed.

Lemma worker_convert_effect_witness :
  exists fs' fname,
    worker_convert ascii_codec Some {[ lit "in/A.md" := blit "Hello" ]}
      {| job_md := lit "in/A.md"; job_org := lit "out/A.org"; job_id := ID_A |}
    = Some (fs', fname) /\
    fname = path_name (lit "in/A.md") /\
    is_Some (read_text ascii_codec {[ lit "in/A.md" := blit "Hello" ]} (lit "in/A.md")) /\
    is_Some (fs' !! lit "out/A.org") /\
    forall p, p <> lit "out/A.org" ->
              fs' !! p = ({[ lit "in/A.md" := blit "Hello" ]} : gmap (list N) (list Byte.byte)) !! p.
Proof.
  destruct (worker_convert ascii_codec Some {[ lit "in/A.md" := blit "Hello" ]}
              {| job_md := lit "in/A.md"; job_org := lit "out/A.org"; job_id := ID_A |})
    as [[fs' fname]|] eqn:E.
  - exists fs', fname. split; [reflexivity|].
    exact (worker_convert_effect ascii_codec Some _
             {| job_md := lit "in/A.md"; job_org := lit "out/A.org"; job_id := ID_A |}
             fs' fname E).
  - vm_compute in E. discriminate E.
Defined.

(** X23 ([convert_directory], the pool of workers).  The files that the
    jobs leave do not depend on the order in which the jobs run, and
    neither does whether a job raises, when the jobs write to different
    files and no job reads a file that a job writes. *)
Theorem run_jobs_any_order (c : codec) (pandoc : list Byte.byte -> option (list Byte.byte))
        jobs jobs' :
  Permutation jobs jobs' ->
  NoDup (map job_org jobs) ->
  (forall j j', In j jobs -> In j' jobs -> job_md j <> job_org j') ->
  forall fs, fst <$> run_jobs c pandoc fs jobs = fst <$> run_jobs c pandoc fs jobs'.
Proof.
  induction 1 as [|j l l' Hp IH|j1 j2 l|l l' l'' Hp1 IH1 Hp2 IH2]; intros Hnd Hmd fs.
  - reflexivity.
  - rewrite !run_jobs_fst. destruct (worker_convert c pandoc fs j) as [[fs1 fname]|]; [|reflexivity].
    apply IH.
    + cbn [map] in Hnd. now apply NoDup_cons in Hnd as [_ Hnd].
    + intros a b Ha Hb. apply Hmd; now right.
  - apply run_jobs_swap.
    + cbn [map] in Hnd. apply NoDup_cons in Hnd as [Hnd _]. intros E. apply Hnd.
      rewrite E. apply list_elem_of_here.
    + apply Hmd; [now left|right; now left].
    + apply Hmd; [right; now left|now left].
  - rewrite IH1 by assumption. apply IH2.
    + pose proof (Permutation_map job_org Hp1) as Hm. now rewrite <- Hm.
    + intros a b Ha Hb. apply Hmd; eapply Permutation_in; try eassumption;
        now apply Permutation_sym.
Qed.

Lemma run_jobs_any_order_witness :
  fst <$> run_jobs ascii_codec Some {[ lit "in/A.md" := blit "a"; lit "in/B.md" := blit "b" ]}
            [job_of (lit "out") (lit "in/A.md") ID_A; job_of (lit "out") (lit "in/B.md") ID_B] =
  fst <$> run_jobs ascii_codec Some {[ lit "in/A.md" := blit "a"; lit "in/B.md" := blit "b" ]}
            [job_of (lit "out") (lit "in/B.md") ID_B; job_of (lit "out") (lit "in/A.md") ID_A].
Proof.
  apply (run_jobs_any_order ascii_codec Some
           [job_of (lit "out") (lit "in/A.md") ID_A; job_of (lit "out") (lit "in/B.md") ID_B]
           [job_of (lit "out") (lit "in/B.md") ID_B; job_of (lit "out") (lit "in/A.md") ID_A]).
  - apply perm_swap.
  - apply (bool_decide_unpack _). vm_compute. exact I.
  - intros j j' [<-|[<-|[]]] [<-|[<-|[]]]; vm_compute; discriminate.
Defined.





(** *** The blank line before the end of a quotation *)

Lemma sub_go_pass_here r f pv (a rest : list N) :
  (forall a1 a2 pv', a = a1 ++ a2 -> a2 <> [] -> match_at r false pv' (a2 ++ rest) = None) ->
  sub_go r f pv (a ++ rest) 0 = a ++ sub_go r f (pv_after pv a) rest 0.
Proof.
  revert pv. induction a as [|c a IH]; intros pv H; [reflexivity|].
  pose proof (H [] (c :: a) pv eq_refl ltac:(discriminate)) as H0.
  cbn [app sub_go] in *. rewrite H0. f_equal. apply IH. intros a1 a2 pv' -> Hne. now apply (H (c :: a1) a2).
Qed.

Lemma end_quote_eval f pv (ws t : list N) :
  forallb indent_char ws = true -> stops indent_char t = true ->
  match_at END_QUOTE_FIX_RE f pv (LF :: ws ++ t) =
  if starts_with (LF :: lit "#+end_quote") t
  then Some {| m_text := LF :: ws ++ LF :: lit "#+end_quote";
               m_caps := [(1, lit "#+end_quote")] |}
  else None.
Proof.
  intros Hw Ht. unfold match_at, END_QUOTE_FIX_RE.
  change (seq [Lit LF; Rep (OneOf [AChr 32; AChr 9]) 0 true; Lit LF;
               Grp 1 (lits (lit "#+end_quote") Eps)])
    with (Seq (Lit LF) (Seq (Rep (OneOf [AChr 32; AChr 9]) 0 true)
                            (Seq (Lit LF) (Seq (Grp 1 (lits (lit "#+end_quote") Eps)) Eps)))).
  rewrite mtch_seq_lit. cbn [mtch].
  rewrite rep_greedy_commit; auto.
  2:{ intros pv' c s' Hc. change (in_class (OneOf [AChr 32; AChr 9]) c) with (indent_char c) in Hc.
      rewrite indent_char_eq in Hc. destruct (N.eqb_spec c LF) as [->|]; [discriminate|reflexivity]. }
  cbn [Nat.leb]. destruct t as [|x t]; [reflexivity|]. cbn [starts_with].
  rewrite (N.eqb_sym LF x). destruct (N.eqb_spec x LF) as [->|]; [|reflexivity]. cbn [andb].
  change (fun pv' s' g' => ?k pv' s' g') with k.
  rewrite mtch_lits. destruct (starts_with (lit "#+end_quote") t) eqn:E; [|reflexivity].
  apply starts_with_split in E. set (t' := skipn (length (lit "#+end_quote")) t) in *.
  cbn [mtch]. clearbody t'. subst t.
  rewrite (firstn_len_diff (lit "#+end_quote") t').
  replace (LF :: ws ++ LF :: lit "#+end_quote" ++ t')
    with ((LF :: ws ++ LF :: lit "#+end_quote") ++ t')
    by (cbn [app]; rewrite <- !app_assoc; reflexivity).
  now apply finish_app_ne.
Qed.

Lemma end_quote_hash pv (b : list N) :
  contains 35 b = false -> match_at END_QUOTE_FIX_RE false pv b = None.
Proof.
  intros H. destruct b as [|c b]; [reflexivity|].
  destruct (N.eqb_spec c LF) as [->|Hc].
  - destruct (span indent_char b) as (ws & t & -> & Hw & Ht).
    rewrite end_quote_eval by assumption.
    destruct (starts_with (LF :: lit "#+end_quote") t) eqn:E; [|reflexivity].
    apply starts_with_split in E. rewrite E in H. cbn [contains existsb] in H.
    rewrite existsb_app in H. cbn in H. rewrite !orb_true_r in H. discriminate.
  - unfold match_at, END_QUOTE_FIX_RE. cbn [seq mtch].
    destruct (N.eqb_spec c LF); [congruence|reflexivity].
Qed.

Lemma end_quote_absent (s : list N) : contains 35 s = false -> end_quote_fix s = s.
Proof.
  intros H. apply re_sub_never. intros pv a b ->. apply end_quote_hash.
  rewrite contains_app in H. now apply orb_false_iff in H as [_ H].
Qed.

(** before a quotation end with its blank line nothing matches *)
Lemma end_quote_before pv (a2 ws rest : list N) :
  contains 35 a2 = false -> a2 <> [] -> forallb indent_char ws = true ->
  match_at END_QUOTE_FIX_RE false pv (a2 ++ LF :: ws ++ LF :: rest) = None.
Proof.
  intros Ha Hne Hw. destruct a2 as [|c a2]; [congruence|].
  destruct (N.eqb_spec c LF) as [->|Hc].
  2:{ unfold match_at, END_QUOTE_FIX_RE. cbn [app seq mtch].
      destruct (N.eqb_spec c LF); [congruence|reflexivity]. }
  cbn [contains existsb orb] in Ha. change (35 =? LF)%N with false in Ha. cbn [orb] in Ha.
  destruct (span indent_char a2) as (ws1 & t1 & -> & Hw1 & Ht1).
  rewrite existsb_app in Ha. apply orb_false_iff in Ha as [_ Ha].
  cbn [app]. rewrite <- app_assoc. destruct t1 as [|x t1].
  - cbn [app]. rewrite end_quote_eval by auto. cbn [starts_with]. rewrite N.eqb_refl.
    cbn [andb]. destruct ws as [|y ws]; [reflexivity|].
    cbn [forallb] in Hw. apply andb_true_iff in Hw as [Hy _]. rewrite indent_char_eq in Hy.
    cbn [app]. change (lit "#+end_quote") with (35%N :: lit "+end_quote"). cbn [starts_with].
    destruct (N.eqb_spec 35 y) as [<-|]; [discriminate|reflexivity].
  - rewrite end_quote_eval by auto. cbn [app starts_with].
    destruct (LF =? x)%N; [|reflexivity]. cbn [andb].
    cbn [existsb] in Ha. apply orb_false_iff in Ha as [_ Ha].
    destruct t1 as [|y t1]; [reflexivity|].
    cbn [existsb] in Ha. apply orb_false_iff in Ha as [Hy _].
    cbn [app]. change (lit "#+end_quote") with (35%N :: lit "+end_quote"). cbn [starts_with].
    now rewrite Hy.
Qed.

(** *** Text that the steps after the conversion leave alone *)

Lemma restore_comments_absent (s : list N) : contains 35 s = false -> restore_comments s = s.
Proof. intros H. rewrite restore_comments_replace. now apply replace_marker_none. Qed.

Lemma fix_list_indent_absent (s : list N) :
  occurs (lit "- ") s = false -> fix_list_indent s = s.
Proof.
  intros H. apply re_sub_never. intros pv a b ->.
  destruct (span indent_char b) as (ws & t & -> & Hw & Ht).
  rewrite list_item_match by assumption.
  rewrite (occurs_suffix (lit "- ") (a ++ ws) t); [now rewrite andb_false_r|].
  now rewrite <- app_assoc.
Qed.

Lemma attr_fix_absent b (s : list N) : contains HBAR s = false -> attr_fix b s = s.
Proof.
  revert b. induction s as [|c s IH]; intros b H; [reflexivity|].
  cbn [contains existsb] in H. apply orb_false_iff in H as [H1 H2].
  cbn [attr_fix]. rewrite (N.eqb_sym c HBAR), H1, andb_false_r. cbn [andb].
  now rewrite IH.
Qed.

(** X25 ([convert_markdown_file], [END_QUOTE_FIX_RE]).  A line of
    spaces and tabs, or an empty line, directly before [#+end_quote] is
    removed; the text before it (without a hash sign) is copied and the
    text after it is treated on its own. *)
Theorem end_quote_fix_blank_line (pre ws post : list N) :
  contains 35 pre = false -> forallb indent_char ws = true ->
  end_quote_fix (pre ++ LF :: ws ++ LF :: lit "#+end_quote" ++ post) =
  pre ++ LF :: lit "#+end_quote" ++ end_quote_fix post.
Proof.
  intros Hp Hw. unfold end_quote_fix, re_sub.
  rewrite sub_go_pass_here.
  2:{ intros a1 a2 pv' -> Hne. apply end_quote_before; auto.
      rewrite contains_app in Hp. now apply orb_false_iff in Hp as [_ Hp]. }
  f_equal.
  replace (LF :: ws ++ LF :: lit "#+end_quote" ++ post)
    with ((LF :: ws ++ LF :: lit "#+end_quote") ++ post)
    by (cbn [app]; rewrite <- !app_assoc; reflexivity).
  rewrite (sub_go_take _ _ _ (LF :: ws ++ LF :: lit "#+end_quote") post
             {| m_text := LF :: ws ++ LF :: lit "#+end_quote";
                m_caps := [(1, lit "#+end_quote")] |});
    [|replace ((LF :: ws ++ LF :: lit "#+end_quote") ++ post)
        with (LF :: ws ++ ((LF :: lit "#+end_quote") ++ post))
        by (cbn [app]; now rewrite <- app_assoc);
      rewrite end_quote_eval by auto; now rewrite starts_with_app
     |reflexivity|discriminate].
  cbn [group cap_get m_caps Nat.eqb app]. do 2 f_equal. now apply sub_go_pv.
Qed.

Lemma end_quote_fix_blank_line_witness :
  end_quote_fix (lit "quoted" ++ LF :: [32%N; 9%N] ++ LF :: lit "#+end_quote" ++ [LF]) =
  lit "quoted" ++ LF :: lit "#+end_quote" ++ end_quote_fix [LF].
Proof.
  exact (end_quote_fix_blank_line (lit "quoted") [32%N; 9%N] [LF] eq_refl eq_refl).
Defined.

(** X26 ([convert_markdown_file], the steps after the conversion).  A
    converted text without a hash sign, without a double opening
    bracket, without a dash followed by a space and without the
    attribution dash is written back as it is. *)
Theorem post_process_plain (org : list N) :
  contains 35 org = false -> occurs (lit "[[") org = false ->
  occurs (lit "- ") org = false -> contains HBAR org = false ->
  post_process org = org.
Proof.
  intros H1 H2 H3 H4. unfold post_process.
  rewrite restore_comments_absent, fix_links_absent by assumption.
  fold (end_quote_fix org). rewrite end_quote_absent by assumption.
  rewrite fix_list_indent_absent by assumption.
  rewrite fix_attribution_space_fix. now apply attr_fix_absent.
Qed.

Lemma post_process_plain_witness :
  post_process (lit "* Title" ++ LF :: lit "Some text.") = lit "* Title" ++ LF :: lit "Some text.".
Proof.
  exact (post_process_plain (lit "* Title" ++ LF :: lit "Some text.") eq_refl eq_refl eq_refl eq_refl).
Defined.

(** ** Further properties of the first loop *)

Lemma assign_ids_jobs (out : list N) files :
  map (fun j => (job_md j, job_id j)) (snd (assign_ids out files)) =
  List.filter (fun f => bool_decide (is_Some (doc_key f.1))) files.
Proof.
  induction files as [|[rel nid] files IH] using rev_ind; [reflexivity|].
  rewrite assign_ids_snoc, List.filter_app.
  destruct (assign_ids out files) as [nodes jobs]. rewrite assign_step_cases.
  cbn [List.filter fst snd] in *. destruct (doc_key rel) as [k|].
  - rewrite bool_decide_eq_true_2 by eauto. cbn [snd]. now rewrite map_app, IH.
  - rewrite bool_decide_eq_false_2 by (intros [? [=]]). cbn [snd]. now rewrite app_nil_r.
Qed.

(** X27 ([convert_directory], first loop).  The jobs are the walked
    Markdown files in walk order, one job for each, with the identifier
    drawn for it; the other files give no job. *)
Theorem jobs_in_walk_order (out : list N) files :
  map (fun j => (job_md j, job_id j)) (snd (assign_ids out files)) =
  List.filter (fun f => bool_decide (is_Some (doc_key f.1))) files /\
  length (snd (assign_ids out files)) <= length files.
Proof.
  split; [apply assign_ids_jobs|].
  rewrite <- (length_map (fun j => (job_md j, job_id j))), assign_ids_jobs.
  apply List.filter_length_le.
Qed.

(** X28 ([convert_directory], first loop).  A file whose name is a dot
    followed by text without a dot, like [.md] itself or [.gitignore],
    has no suffix for [pathlib]: it is not registered and gets no job. *)
Theorem assign_step_dot_file (out : list N) st (folder rest nid : list N) :
  folder = [] \/ (exists d, folder = d ++ lit "/") ->
  rest <> [] -> contains 46 rest = false -> contains 47 rest = false ->
  assign_step out st (folder ++ 46%N :: rest, nid) = st.
Proof.
  intros Hf Hne Hd Hs. destruct st as [nodes jobs]. rewrite assign_step_cases.
  assert (path_name (folder ++ 46%N :: rest) = 46%N :: rest) as Hn.
  { apply path_name_join.
    - exact Hf.
    - discriminate.
    - intros [= E]. congruence.
    - cbn [contains existsb]. fold (contains 47 rest). now rewrite Hs. }
  unfold doc_key, path_suffix. rewrite Hn.
  destruct (bool_decide (46%N :: rest = lit ".DS_Store")); [reflexivity|].
  unfold suffix_index, rfind. cbn [rfind_go]. rewrite N.eqb_refl.
  rewrite <- (app_nil_r rest), rfind_go_absent by exact Hd. cbn [rfind_go Nat.ltb Nat.leb andb].
  reflexivity.
Qed.

Lemma assign_step_dot_file_witness :
  assign_step (lit "out") (∅, []) (lit "Notes/" ++ 46%N :: lit "md", ID_A) = (∅, []).
Proof.
  apply (assign_step_dot_file (lit "out") (∅, []) (lit "Notes/") (lit "md") ID_A).
  - right. now exists (lit "Notes").
  - discriminate.
  - reflexivity.
  - reflexivity.
Defined.
